(** * QuantEngine: market-data interpolation, European options and the
      Black-Scholes engine

    A shallow embedding of [MarketData<T>], [Instrument<T>::Parameters],
    [PricingEngine<T>], [EuropeanStockOption<T>] and [BlackScholesEngine<T>].

    Numbers.  The template parameter [T] is [double] or [float].  The
    embedding computes with exact real numbers: rounding and overflow are
    left out, and everything else of the arithmetic is kept.  In particular a
    division whose denominator is zero does not produce a real number: as in
    IEEE arithmetic it produces a special value.  Values that the program
    receives are reals ([R]); values that the program computes are [fval]s, a
    real or a special value.

    Errors.  A C++ [throw] is the [Throw] outcome of a [result]; the
    exception's class and message are the constructor of [error].

    State.  The mutating members of [MarketData] return the outcome together
    with the object as the call leaves it; [const] members are functions of
    the object. *)

From Stdlib Require Import Reals Lra Lia String List Bool Arith Factorial.
From Stdlib Require Import Sorted OrderedTypeEx.
Import ListNotations.

Open Scope R_scope.

(* ================================================================== *)
(** * Exceptions *)

Inductive Axis := Strike | Maturity.

Inductive error : Type :=
| InvalidArgument (what : string)
    (** [std::invalid_argument(what)] *)
| EmptyCurve
    (** [std::runtime_error("Yield curve is empty")] *)
| UninitializedSurface
    (** [std::runtime_error("Volatility surface not initialized")] *)
| InsufficientData
    (** [std::runtime_error("Insufficient data for interpolation")] *)
| OutOfBounds (axis : Axis)
    (** [std::runtime_error("Strike out of bounds")], resp.
        ["Maturity out of bounds"] *)
| MissingDataPoint (k t : R)
    (** [std::runtime_error("Missing volatility point at (K=k, T=t)")] *)
| EngineNotSet
    (** [std::runtime_error("Pricing engine not set")]; [greeks()] appends
        [" for European stock option"] to the message *)
| NotImplemented
    (** [std::runtime_error("Greeks calculation not implemented for this
        engine")] *)
| OutOfRange
    (** [std::out_of_range], thrown by [std::map::at] *).

Inductive result (A : Type) : Type :=
| Ret (a : A)
| Throw (e : error).

Arguments Ret {A} a.
Arguments Throw {A} e.

Definition bind {A B : Type} (c : result A) (k : A -> result B) : result B :=
  match c with
  | Ret a => k a
  | Throw e => Throw e
  end.

Declare Scope result_scope.
Delimit Scope result_scope with result.
Notation "x <- c ;; k" := (bind c (fun x => k))
  (at level 61, c at next level, right associativity) : result_scope.
Open Scope result_scope.

(* ================================================================== *)
(** * The error function

    [std::erf] is the error function
    [erf x = 2/sqrt(pi) * sum_n (-1)^n x^(2n+1) / (n! (2n+1))], defined here
    by that series. *)

Definition erf_coeff (n : nat) : R :=
  (-1) ^ n / (INR (fact n) * INR (2 * n + 1)).

Lemma erf_coeff_neq_0 (n : nat) : erf_coeff n <> 0.
Proof.
  unfold erf_coeff.
  assert (H1 : INR (fact n) <> 0) by apply INR_fact_neq_0.
  assert (H2 : INR (2 * n + 1) <> 0) by (apply not_0_INR; lia).
  assert (H3 : (-1) ^ n <> 0) by (apply pow_nonzero; lra).
  unfold Rdiv. apply Rmult_integral_contrapositive_currified; auto.
  apply Rinv_neq_0_compat, Rmult_integral_contrapositive_currified; auto.
Qed.

Lemma erf_coeff_ratio (n : nat) :
  Rabs (erf_coeff (S n) / erf_coeff n) <= / INR (S n).
Proof.
  unfold erf_coeff.
  assert (H1 : 0 < INR (fact n)) by apply INR_fact_lt_0.
  assert (H2 : 0 < INR (2 * n + 1)) by (apply lt_0_INR; lia).
  assert (H4 : 0 < INR (2 * S n + 1)) by (apply lt_0_INR; lia).
  assert (H5 : 0 < INR (S n)) by (apply lt_0_INR; lia).
  assert (H3 : (-1) ^ n <> 0) by (apply pow_nonzero; lra).
  replace ((-1) ^ S n / (INR (fact (S n)) * INR (2 * S n + 1)) /
           ((-1) ^ n / (INR (fact n) * INR (2 * n + 1))))
    with (- (INR (2 * n + 1) / (INR (S n) * INR (2 * S n + 1)))).
  2:{ rewrite fact_simpl, mult_INR. simpl pow. field. repeat split; lra. }
  rewrite Rabs_Ropp, Rabs_pos_eq.
  2:{ apply Rlt_le, Rdiv_lt_0_compat; auto. apply Rmult_lt_0_compat; auto. }
  assert (H6 : INR (2 * n + 1) <= INR (2 * S n + 1)) by (apply le_INR; lia).
  replace (/ INR (S n))
    with (INR (2 * S n + 1) / (INR (S n) * INR (2 * S n + 1)))
    by (field; split; lra).
  unfold Rdiv. apply Rmult_le_compat_r; auto.
  left. apply Rinv_0_lt_compat, Rmult_lt_0_compat; auto.
Qed.

Lemma erf_coeff_cv : Un_cv (fun n => Rabs (erf_coeff (S n) / erf_coeff n)) 0.
Proof.
  intros eps Heps.
  assert (Hie : 0 < / eps) by (apply Rinv_0_lt_compat; auto).
  destruct (INR_unbounded (/ eps)) as [n0 Hn0].
  exists n0. intros n Hn. unfold Rdist. rewrite Rminus_0_r, Rabs_Rabsolu.
  eapply Rle_lt_trans; [apply erf_coeff_ratio|].
  assert (H5 : 0 < INR (S n)) by (apply lt_0_INR; lia).
  assert (H7 : / eps < INR (S n)).
  { eapply Rlt_le_trans; [exact Hn0|]. apply le_INR. lia. }
  rewrite <- (Rinv_inv eps).
  apply Rinv_lt_contravar; auto. apply Rmult_lt_0_compat; auto.
Qed.

Definition erf_series (y : R) : R :=
  proj1_sig (Alembert_C3 erf_coeff y erf_coeff_neq_0 erf_coeff_cv).

Definition erf (x : R) : R := 2 / sqrt PI * (x * erf_series (x * x)).

Lemma erf_opp (x : R) : erf (- x) = - erf x.
Proof. unfold erf. rewrite Rmult_opp_opp. ring. Qed.

(* ================================================================== *)
(** * Computed numbers *)

(** [Fin x] is the finite number [x].  [NaN] is IEEE's not-a-number: the
    value of [0/0], of the logarithm or the square root of a negative
    number, and of every operation that has a [NaN] operand.  [Inf] stands
    for an infinity (a non-zero number divided by zero, the logarithm of
    zero).  The embedding does not follow what IEEE arithmetic does with an
    infinity afterwards: it keeps [Inf] for every operation on it, and no
    statement below depends on a computation that meets [Inf]. *)
Inductive fval : Type :=
| Fin (x : R)
| NaN
| Inf.

Coercion Fin : R >-> fval.

Module FP.

Definition lift1 (f : R -> R) (a : fval) : fval :=
  match a with
  | Fin x => Fin (f x)
  | NaN => NaN
  | Inf => Inf
  end.

Definition lift2 (f : R -> R -> R) (a b : fval) : fval :=
  match a, b with
  | Fin x, Fin y => Fin (f x y)
  | NaN, _ | _, NaN => NaN
  | _, _ => Inf
  end.

Definition add := lift2 Rplus.
Definition sub := lift2 Rminus.
Definition mul := lift2 Rmult.
Definition opp := lift1 Ropp.

(** [a / b]: zero over zero is [NaN], anything else over zero is an
    infinity. *)
Definition div (a b : fval) : fval :=
  match a, b with
  | Fin x, Fin y =>
      if Req_dec_T y 0
      then (if Req_dec_T x 0 then NaN else Inf)
      else Fin (x / y)
  | NaN, _ | _, NaN => NaN
  | _, _ => Inf
  end.

(** [std::sqrt] *)
Definition sqrt (a : fval) : fval :=
  match a with
  | Fin x => if Rlt_dec x 0 then NaN else Fin (R_sqrt.sqrt x)
  | NaN => NaN
  | Inf => Inf
  end.

(** [std::log] *)
Definition log (a : fval) : fval :=
  match a with
  | Fin x =>
      if Rlt_dec x 0 then NaN
      else if Req_dec_T x 0 then Inf
      else Fin (ln x)
  | NaN => NaN
  | Inf => Inf
  end.

(** [std::exp] *)
Definition exp := lift1 Rtrigo_def.exp.

(** [std::erf] *)
Definition erf := lift1 erf.

End FP.

Declare Scope fval_scope.
Delimit Scope fval_scope with fv.
Bind Scope fval_scope with fval.
Infix "+" := FP.add : fval_scope.
Infix "-" := FP.sub : fval_scope.
Infix "*" := FP.mul : fval_scope.
Infix "/" := FP.div : fval_scope.
Notation "- x" := (FP.opp x) : fval_scope.

(** Comparisons of the numbers the program receives. *)
Definition Rltb (x y : R) : bool := if Rlt_dec x y then true else false.
Definition Rleb (x y : R) : bool := if Rle_dec x y then true else false.
Definition Reqb (x y : R) : bool := if Req_dec_T x y then true else false.
Infix "<?" := Rltb (at level 70) : R_scope.
Infix "<=?" := Rleb (at level 70) : R_scope.
Infix "=?" := Reqb (at level 70) : R_scope.

(* ================================================================== *)
(** * [operator<] on keys *)

(** The strict order a [std::map] or a sorted [std::vector] is kept in. *)
Class Less (K : Type) : Type := {
  less : K -> K -> Prop;
  less_dec : forall a b, {less a b} + {~ less a b};
  less_irrefl : forall a, ~ less a a;
  less_trans : forall a b c, less a b -> less b c -> less a c;
  less_total : forall a b, less a b \/ a = b \/ less b a
}.

#[export] Instance Less_R : Less R := {
  less := Rlt;
  less_dec := Rlt_dec;
  less_irrefl := Rlt_irrefl;
  less_trans := Rlt_trans;
  less_total := Rtotal_order
}.

(** [operator<] of [std::pair]: lexicographic. *)
Definition pair_less {A B : Type} `{Less A} `{Less B} (p q : A * B) : Prop :=
  less (fst p) (fst q) \/ (~ less (fst q) (fst p) /\ less (snd p) (snd q)).

Definition pair_less_dec {A B : Type} `{Less A} `{Less B} (p q : A * B) :
  {pair_less p q} + {~ pair_less p q}.
Proof.
  unfold pair_less.
  destruct (less_dec (fst p) (fst q)) as [Hl|Hl]; [left; now left|].
  destruct (less_dec (fst q) (fst p)) as [Hg|Hg]; [right; tauto|].
  destruct (less_dec (snd p) (snd q)) as [Hs|Hs]; [left; now right|].
  right; tauto.
Defined.

Lemma pair_less_irrefl {A B : Type} `{Less A} `{Less B} (p : A * B) :
  ~ pair_less p p.
Proof.
  unfold pair_less. intros [Hl|[_ Hl]]; exact (less_irrefl _ Hl).
Qed.

Lemma less_asym {K : Type} `{Less K} (a b : K) : less a b -> ~ less b a.
Proof. intros Hab Hba. exact (less_irrefl _ (less_trans _ _ _ Hab Hba)). Qed.

Lemma pair_less_trans {A B : Type} `{Less A} `{Less B} (p q r : A * B) :
  pair_less p q -> pair_less q r -> pair_less p r.
Proof.
  unfold pair_less. destruct p as [a1 b1], q as [a2 b2], r as [a3 b3]; simpl.
  intros [H1|[H1 H1']] [H2|[H2 H2']].
  - left. exact (less_trans _ _ _ H1 H2).
  - left. destruct (less_total a2 a3) as [Hl|[->|Hl]].
    + exact (less_trans _ _ _ H1 Hl).
    + exact H1.
    + contradiction.
  - left. destruct (less_total a1 a2) as [Hl|[->|Hl]].
    + exact (less_trans _ _ _ Hl H2).
    + exact H2.
    + contradiction.
  - right. split.
    + intro Hc. destruct (less_total a1 a2) as [Hl|[->|Hl]].
      * apply H2. exact (less_trans _ _ _ Hc Hl).
      * exact (H2 Hc).
      * exact (H1 Hl).
    + exact (less_trans _ _ _ H1' H2').
Qed.

Lemma pair_less_total {A B : Type} `{Less A} `{Less B} (p q : A * B) :
  pair_less p q \/ p = q \/ pair_less q p.
Proof.
  unfold pair_less. destruct p as [a1 b1], q as [a2 b2]; simpl.
  destruct (less_total a1 a2) as [Hl|[->|Hl]]; auto.
  destruct (less_total b1 b2) as [Hb|[->|Hb]]; auto.
  - left. right. split; auto. apply less_irrefl.
  - right. right. right. split; auto. apply less_irrefl.
Qed.

#[export] Instance Less_pair {A B : Type} `{Less A} `{Less B} : Less (A * B) := {
  less := pair_less;
  less_dec := pair_less_dec;
  less_irrefl := pair_less_irrefl;
  less_trans := pair_less_trans;
  less_total := pair_less_total
}.

(** [operator<] of [std::string]. *)
Definition string_less (a b : string) : Prop := String_as_OT.cmp a b = Lt.

Definition string_less_dec (a b : string) :
  {string_less a b} + {~ string_less a b}.
Proof.
  unfold string_less. destruct (String_as_OT.cmp a b).
  - right; discriminate.
  - left; reflexivity.
  - right; discriminate.
Defined.

Lemma string_less_irrefl (a : string) : ~ string_less a a.
Proof.
  unfold string_less. intro Hl.
  assert (He : String_as_OT.cmp a a = Eq) by (now apply String_as_OT.cmp_eq).
  congruence.
Qed.

Lemma string_less_trans (a b c : string) :
  string_less a b -> string_less b c -> string_less a c.
Proof.
  unfold string_less. rewrite !String_as_OT.cmp_lt.
  apply String_as_OT.lt_trans.
Qed.

Lemma string_less_total (a b : string) :
  string_less a b \/ a = b \/ string_less b a.
Proof.
  unfold string_less. destruct (String_as_OT.cmp a b) eqn:Hc; auto.
  - right; left. now apply String_as_OT.cmp_eq.
  - right; right. rewrite String_as_OT.cmp_antisym, Hc. reflexivity.
Qed.

#[export] Instance Less_string : Less string := {
  less := string_less;
  less_dec := string_less_dec;
  less_irrefl := string_less_irrefl;
  less_trans := string_less_trans;
  less_total := string_less_total
}.

(* ================================================================== *)
(** * [std::map] and sorted [std::vector] *)

(** A [std::map<K,V>] is the list of its entries in iteration order, that
    is by ascending key.  An iterator is the index of its entry;
    [end()] is the length of the list. *)
Module StdMap.
Section Map.
Context {K V : Type} `{Less K}.

Definition t : Type := list (K * V).

Definition empty : t := [].

Definition keys (m : t) : list K := map fst m.

(** [m.find(k)]: the entry whose key is neither less nor greater than
    [k]. *)
Fixpoint find (k : K) (m : t) : option V :=
  match m with
  | [] => None
  | (k', v) :: tl =>
      if less_dec k' k then find k tl
      else if less_dec k k' then None
      else Some v
  end.

(** [m.at(k)] *)
Definition at_ (k : K) (m : t) : result V :=
  match find k m with
  | Some v => Ret v
  | None => Throw OutOfRange
  end.

(** [m[k] = v] *)
Fixpoint insert (k : K) (v : V) (m : t) : t :=
  match m with
  | [] => [(k, v)]
  | (k', v') :: tl =>
      if less_dec k' k then (k', v') :: insert k v tl
      else if less_dec k k' then (k, v) :: (k', v') :: tl
      else (k', v) :: tl
  end.

(** [m.upper_bound(k)]: the first entry whose key is greater than [k]. *)
Fixpoint upper_bound (k : K) (m : t) : nat :=
  match m with
  | [] => O
  | (k', _) :: tl => if less_dec k k' then O else S (upper_bound k tl)
  end.

(** The class invariant of [std::map]: keys ascending, hence unique. *)
Definition sorted (m : t) : Prop := StronglySorted less (keys m).

End Map.
End StdMap.

Module StdVector.
Section Vector.
Context {K : Type} `{Less K}.

(** [std::lower_bound(v.begin(), v.end(), x)] on a vector that is sorted:
    the first element that is not less than [x]. *)
Fixpoint lower_bound (v : list K) (x : K) : nat :=
  match v with
  | [] => O
  | a :: tl => if less_dec a x then S (lower_bound tl x) else O
  end.

(** [v.insert(v.begin() + i, x)] *)
Definition insert_at (i : nat) (x : K) (v : list K) : list K :=
  firstn i v ++ x :: skipn i v.

End Vector.
End StdVector.

(* ================================================================== *)
(** * MarketData *)

Module MarketData.

Record t : Type := mk {
  yield_curve_ : @StdMap.t R R;          (** [std::map<T, T>] *)
  vol_surface_ : @StdMap.t (R * R) R;    (** [std::map<std::pair<T, T>, T>] *)
  strikes_ : list R;                     (** [std::vector<T>] *)
  maturities_ : list R                   (** [std::vector<T>] *)
}.

(** The default-constructed object. *)
Definition empty : t := mk StdMap.empty StdMap.empty [] [].

(** [std::numeric_limits<double>::epsilon()]; the [float] instantiation
    has [2^-23].  The theorems use only that it is positive, the examples
    also that it is below one half. *)
Definition epsilon : R := / 2 ^ 52.

(** [*it] for an iterator of the yield curve, resp. of a vector. *)
Definition deref (m : @StdMap.t R R) (it : nat) : R * R := nth it m (0, 0).
Definition elem (v : list R) (it : nat) : R := nth it v 0.

Definition addRiskFreeRate (time rate : R) (md : t) : result unit * t :=
  if (time <? 0) || (rate <? 0) then
    (Throw (InvalidArgument "Invalid time/rate"), md)
  else
    (Ret tt,
     mk (StdMap.insert time rate (yield_curve_ md))
        (vol_surface_ md) (strikes_ md) (maturities_ md)).

(** The block that [addVolatility] runs once on [strikes_] and once on
    [maturities_]:
    [it = lower_bound(v, x); if (it == v.end() || *it != x) v.insert(it, x);] *)
Definition insert_if_absent (x : R) (v : list R) : list R :=
  let it := StdVector.lower_bound v x in
  if Nat.eqb it (length v) || negb (elem v it =? x)
  then StdVector.insert_at it x v
  else v.

Definition addVolatility (strike maturity volatility : R) (md : t)
  : result unit * t :=
  if (strike <=? 0) || (maturity <? 0) || (volatility <? 0) then
    (Throw (InvalidArgument "Invalid strike/maturity/volatility"), md)
  else
    (Ret tt,
     mk (yield_curve_ md)
        (StdMap.insert (strike, maturity) volatility (vol_surface_ md))
        (insert_if_absent strike (strikes_ md))
        (insert_if_absent maturity (maturities_ md))).

Definition getRiskFreeRate (md : t) (time : R) : result fval :=
  let curve := yield_curve_ md in
  if Nat.eqb (length curve) 0 then Throw EmptyCurve
  else
    let upper := StdMap.upper_bound time curve in
    if Nat.eqb (length curve) 1 then Ret (Fin (snd (deref curve 0)))
    else if Nat.eqb upper 0 then Ret (Fin (snd (deref curve upper)))
    else if Nat.eqb upper (length curve)
    then Ret (Fin (snd (deref curve (pred upper))))
    else
      let lower := pred upper in
      let t0 := fst (deref curve lower) in
      let r0 := snd (deref curve lower) in
      let t1 := fst (deref curve upper) in
      let r1 := snd (deref curve upper) in
      if t1 - t0 <? epsilon then Ret (Fin r0)
      else
        let alpha : fval := ((time - t0) / (t1 - t0))%fv in
        Ret (r0 + alpha * (r1 - r0))%fv.

(** The block that [getVolatility] runs once on [strikes_] and once on
    [maturities_]: the pair [(k0, k1)] around [x]. *)
Definition bracket (v : list R) (x : R) : R * R :=
  let lower := StdVector.lower_bound v x in
  if Nat.eqb lower 0 then (elem v lower, elem v lower)
  else if Nat.eqb lower (length v)
  then (elem v (pred lower), elem v (pred lower))
  else (elem v (pred lower), elem v lower).

(** The lambda [get_vol]: [at], with [std::out_of_range] turned into the
    "Missing volatility point" error. *)
Definition get_vol (md : t) (k t : R) : result R :=
  match StdMap.at_ (k, t) (vol_surface_ md) with
  | Ret v => Ret v
  | Throw OutOfRange => Throw (MissingDataPoint k t)
  | Throw e => Throw e
  end.

Definition getVolatility (md : t) (strike maturity : R) : result fval :=
  match StdMap.find (strike, maturity) (vol_surface_ md) with
  | Some v => Ret (Fin v)
  | None =>
    let strikes := strikes_ md in
    let maturities := maturities_ md in
    if Nat.eqb (length strikes) 1 && Nat.eqb (length maturities) 1 then
      v <- StdMap.at_ (elem strikes 0, elem maturities 0) (vol_surface_ md) ;;
      Ret (Fin v)
    else if Nat.eqb (length strikes) 0 || Nat.eqb (length maturities) 0 then
      Throw UninitializedSurface
    else if Nat.ltb (length strikes) 2 || Nat.ltb (length maturities) 2 then
      Throw InsufficientData
    else if (strike <? elem strikes 0)
            || (elem strikes (pred (length strikes)) <? strike) then
      Throw (OutOfBounds Strike)
    else if (maturity <? elem maturities 0)
            || (elem maturities (pred (length maturities)) <? maturity) then
      Throw (OutOfBounds Maturity)
    else
      let '(k0, k1) := bracket strikes strike in
      let '(t0, t1) := bracket maturities maturity in
      if (k0 =? k1) && (t0 =? t1) then
        v <- StdMap.at_ (k0, t0) (vol_surface_ md) ;; Ret (Fin v)
      else
        let single_strike := k0 =? k1 in
        let single_maturity := t0 =? t1 in
        v00 <- get_vol md k0 t0 ;;
        v01 <- (if single_maturity then Ret v00 else get_vol md k0 t1) ;;
        v10 <- (if single_strike then Ret v00 else get_vol md k1 t0) ;;
        v11 <- (if single_strike || single_maturity then Ret v00
                else get_vol md k1 t1) ;;
        let x_ratio : fval := ((strike - k0) / (k1 - k0))%fv in
        let y_ratio : fval := ((maturity - t0) / (t1 - t0))%fv in
        Ret ((1 - x_ratio) * (1 - y_ratio) * v00 +
             (1 - x_ratio) * y_ratio * v01 +
             x_ratio * (1 - y_ratio) * v10 +
             x_ratio * y_ratio * v11)%fv
  end.

(** ** Histories of calls *)

Inductive call : Type :=
| AddRiskFreeRate (time rate : R)
| AddVolatility (strike maturity volatility : R)
| GetRiskFreeRate (time : R)
| GetVolatility (strike maturity : R).

(** The object after one call; the queries are [const]. *)
Definition step (md : t) (c : call) : t :=
  match c with
  | AddRiskFreeRate time rate => snd (addRiskFreeRate time rate md)
  | AddVolatility strike maturity volatility =>
      snd (addVolatility strike maturity volatility md)
  | GetRiskFreeRate _ => md
  | GetVolatility _ _ => md
  end.

(** The object after a sequence of calls on a new object. *)
Definition run (cs : list call) : t := fold_left step cs empty.

End MarketData.

(* ================================================================== *)
(** * Instrument and PricingEngine *)

Module Instrument.

(** [Instrument<T>::Parameters] *)
Record Parameters : Type := mkParameters {
  notional_ : R;
  strike_ : R;
  maturity_ : R;
  spotPrice_ : R;
  isCall_ : bool
}.

End Instrument.

Import Instrument.

(** The virtual members of [PricingEngine<T>] that compute.  An engine reads
    of the instrument it is given only [getParameters()], so the
    instrument is passed as its parameters. *)
Record PricingEngine : Type := mkPricingEngine {
  calculatePrice : Parameters -> MarketData.t -> result fval;
  calculateGreeks : Parameters -> MarketData.t -> result (@StdMap.t string fval)
}.

(** [PricingEngine<T>::calculateGreeks], the default of the base class. *)
Definition PricingEngine_calculateGreeks
  (_ : Parameters) (_ : MarketData.t) : result (@StdMap.t string fval) :=
  Throw NotImplemented.

(* ================================================================== *)
(** * BlackScholesEngine *)

Module BlackScholesEngine.

Definition d1 (S K r sigma T : fval) : fval :=
  ((FP.log (S / K) + (r + 0.5 * sigma * sigma) * T)
   / (sigma * FP.sqrt T))%fv.

Definition d2 (S K r sigma T : fval) : fval :=
  (d1 S K r sigma T - sigma * FP.sqrt T)%fv.

Definition N (x : fval) : fval :=
  (0.5 * (1 + FP.erf (x / FP.sqrt 2)))%fv.

Definition N_prime (x : fval) : fval :=
  ((1.0 / FP.sqrt (2.0 * 3.14159265358979323846))
   * FP.exp (-0.5 * x * x))%fv.

Definition calculatePrice (params : Parameters) (marketData : MarketData.t)
  : result fval :=
  let S : fval := spotPrice_ params in
  let K : fval := strike_ params in
  let maturity : fval := maturity_ params in
  r <- MarketData.getRiskFreeRate marketData (maturity_ params) ;;
  sigma <- MarketData.getVolatility marketData (strike_ params)
                                     (maturity_ params) ;;
  let d1 := d1 S K r sigma maturity in
  let d2 := d2 S K r sigma maturity in
  if isCall_ params then
    Ret (S * N d1 - K * FP.exp (- r * maturity) * N d2)%fv
  else
    Ret (K * FP.exp (- r * maturity) * N (- d2) - S * N (- d1))%fv.

Definition calculateGreeks (params : Parameters) (marketData : MarketData.t)
  : result (@StdMap.t string fval) :=
  let S : fval := spotPrice_ params in
  let K : fval := strike_ params in
  let maturity : fval := maturity_ params in
  let isCall := isCall_ params in
  r <- MarketData.getRiskFreeRate marketData (maturity_ params) ;;
  sigma <- MarketData.getVolatility marketData (strike_ params)
                                     (maturity_ params) ;;
  let d1_val := d1 S K r sigma maturity in
  let d2_val := d2 S K r sigma maturity in
  let discountFactor := FP.exp (- r * maturity)%fv in
  let n_prime := N_prime d1_val in
  let greeks : @StdMap.t string fval := StdMap.empty in
  let greeks :=
    StdMap.insert "delta"%string
      (if isCall then N d1_val else N d1_val - 1)%fv greeks in
  let greeks :=
    StdMap.insert "gamma"%string
      (n_prime / (S * sigma * FP.sqrt maturity))%fv greeks in
  let greeks :=
    StdMap.insert "vega"%string
      (S * FP.sqrt maturity * n_prime * 0.01)%fv greeks in
  let theta : fval :=
    if isCall then
      ((- (S * sigma * n_prime) / (2 * FP.sqrt maturity)
        - r * K * discountFactor * N d2_val) / 365)%fv
    else
      ((- (S * sigma * n_prime) / (2 * FP.sqrt maturity)
        + r * K * discountFactor * N (- d2_val)) / 365)%fv in
  let greeks := StdMap.insert "theta"%string theta greeks in
  let greeks :=
    if isCall then
      StdMap.insert "rho"%string
        (K * maturity * discountFactor * N d2_val * 0.01)%fv greeks
    else
      StdMap.insert "rho"%string
        (- K * maturity * discountFactor * N (- d2_val) * 0.01)%fv greeks in
  Ret greeks.

(** The engine as a [PricingEngine]: its table of virtual members. *)
Definition make : PricingEngine :=
  mkPricingEngine calculatePrice calculateGreeks.

End BlackScholesEngine.

(* ================================================================== *)
(** * EuropeanStockOption *)

Module EuropeanStockOption.

Record t : Type := mk {
  params_ : Parameters;
  pricingEngine_ : option PricingEngine;  (** [std::shared_ptr], or null *)
  marketData_ : MarketData.t
}.

Definition getParameters (o : t) : Parameters := params_ o.

Definition validate (o : t) : result unit :=
  if strike_ (params_ o) <=? 0
  then Throw (InvalidArgument "Strike price must be positive")
  else if maturity_ (params_ o) <=? 0
  then Throw (InvalidArgument "Time to maturity must be positive")
  else if spotPrice_ (params_ o) <=? 0
  then Throw (InvalidArgument "Stock spot price must be positive")
  else if notional_ (params_ o) <=? 0
  then Throw (InvalidArgument "Contract notional must be positive")
  else Ret tt.

(** The constructor: the members are initialised, then [validate()] runs;
    an exception leaves no object. *)
Definition new (params : Parameters) : result t :=
  let this := mk params None MarketData.empty in
  _ <- validate this ;;
  Ret this.

Definition price (o : t) : result fval :=
  match pricingEngine_ o with
  | None => Throw EngineNotSet
  | Some engine =>
      p <- calculatePrice engine (getParameters o) (marketData_ o) ;;
      Ret (p * notional_ (params_ o))%fv
  end.

Definition greeks (o : t) : result (@StdMap.t string fval) :=
  match pricingEngine_ o with
  | None => Throw EngineNotSet
  | Some engine => calculateGreeks engine (getParameters o) (marketData_ o)
  end.

Definition updateMarketData (market : MarketData.t) (o : t) : t :=
  mk (params_ o) (pricingEngine_ o) market.

Definition setPricingEngine (engine : option PricingEngine) (o : t) : t :=
  mk (params_ o) engine (marketData_ o).

(** What a caller can do with an option it holds. *)
Inductive call : Type :=
| UpdateMarketData (market : MarketData.t)
| SetPricingEngine (engine : option PricingEngine).

Definition step (o : t) (c : call) : t :=
  match c with
  | UpdateMarketData market => updateMarketData market o
  | SetPricingEngine engine => setPricingEngine engine o
  end.

End EuropeanStockOption.

(* ================================================================== *)
(** * What the specification says *)

(** The formulas of the specification, written as it writes them, over the
    real numbers. *)
Module Spec.

(** [d1 = (ln(S/K) + (r + sigma^2/2) T) / (sigma sqrt(T))] *)
Definition d1 (S K r sigma T : R) : R :=
  (ln (S / K) + (r + sigma ^ 2 / 2) * T) / (sigma * sqrt T).

(** [d2 = d1 - sigma sqrt(T)] *)
Definition d2 (S K r sigma T : R) : R :=
  d1 S K r sigma T - sigma * sqrt T.

(** [N(x) = 0.5 (1 + erf(x / sqrt 2))] *)
Definition N (x : R) : R := 0.5 * (1 + erf (x / sqrt 2)).

(** [call = S N(d1) - K e^(-rT) N(d2)] *)
Definition call (S K r sigma T : R) : R :=
  S * N (d1 S K r sigma T) - K * exp (- (r * T)) * N (d2 S K r sigma T).

(** [put = K e^(-rT) N(-d2) - S N(-d1)] *)
Definition put (S K r sigma T : R) : R :=
  K * exp (- (r * T)) * N (- d2 S K r sigma T) - S * N (- d1 S K r sigma T).

(** [rate = r0 + (time-t0)/(t1-t0) * (r1-r0)] *)
Definition linear (t0 r0 t1 r1 time : R) : R :=
  r0 + (time - t0) / (t1 - t0) * (r1 - r0).

(** [x] falls outside the recorded min/max range of an axis [v]: it is
    below every recorded value or above every recorded value. *)
Definition outside (v : list R) (x : R) : Prop :=
  (forall a, In a v -> x < a) \/ (forall a, In a v -> a < x).

(** The five names of the Greeks. *)
Definition greek_names : list string :=
  ["delta"; "gamma"; "vega"; "theta"; "rho"]%string.

End Spec.

(** ** Invariants of [MarketData] *)

Module Inv.

(** The two vectors are ascending without duplicates and hold exactly the
    strikes, resp. the maturities, of the keys of the surface. *)
Record axes (md : MarketData.t) : Prop := mk_axes {
  strikes_sorted : StronglySorted Rlt (MarketData.strikes_ md);
  maturities_sorted : StronglySorted Rlt (MarketData.maturities_ md);
  strikes_keys : forall k,
    In k (MarketData.strikes_ md) <->
    exists t, In (k, t) (StdMap.keys (MarketData.vol_surface_ md));
  maturities_keys : forall t,
    In t (MarketData.maturities_ md) <->
    exists k, In (k, t) (StdMap.keys (MarketData.vol_surface_ md))
}.

(** [axes], and the class invariant of the two maps. *)
Record wf (md : MarketData.t) : Prop := mk_wf {
  wf_axes : axes md;
  wf_curve : StdMap.sorted (MarketData.yield_curve_ md);
  wf_surface : StdMap.sorted (MarketData.vol_surface_ md)
}.

End Inv.

(** The option has valid parameters: what [validate()] checks. *)
Definition valid_parameters (p : Parameters) : Prop :=
  0 < strike_ p /\ 0 < maturity_ p /\ 0 < spotPrice_ p /\ 0 < notional_ p.

(** Put-call parity as a statement about [calculatePrice] for one spot,
    strike and maturity, one market snapshot and its rate and volatility. *)
Definition put_call_parity
  (S K T : R) (md : MarketData.t) (r : R) : Prop :=
  forall notional : R,
  exists c p : fval,
    BlackScholesEngine.calculatePrice (mkParameters notional K T S true) md
      = Ret c /\
    BlackScholesEngine.calculatePrice (mkParameters notional K T S false) md
      = Ret p /\
    (c - p)%fv = Fin (S - K * exp (- (r * T))).

(** ** Market data of the test suite *)

Module Examples.
Import MarketData.

(** "Bilinear Interpolation": the 2x2 grid. *)
Definition grid : MarketData.t :=
  run [AddVolatility 100 1 0.20; AddVolatility 100 2 0.25;
       AddVolatility 150 1 0.22; AddVolatility 150 2 0.28].

(** The grid without its corner [(100, 1)]. *)
Definition sparse_grid : MarketData.t :=
  run [AddVolatility 100 2 0.25;
       AddVolatility 150 1 0.22; AddVolatility 150 2 0.28].

(** "Rate Interpolation": two points of the yield curve. *)
Definition two_rates : MarketData.t :=
  run [AddRiskFreeRate 0.5 0.02; AddRiskFreeRate 1 0.03].

(** "Update Overwrites": the same time twice. *)
Definition overwritten : MarketData.t :=
  run [AddRiskFreeRate 1 0.03; AddRiskFreeRate 1 0.04].

(** "BlackScholesEngine Pricing": 5% at one year, 20% at (100, 1). *)
Definition market : MarketData.t :=
  run [AddRiskFreeRate 1 0.05; AddVolatility 100 1 0.20].

(** The at-the-money call and put of the pricing tests. *)
Definition call_option : Parameters := mkParameters 1 100 1 100 true.
Definition put_option : Parameters := mkParameters 1 100 1 100 false.

End Examples.

(* ================================================================== *)
(** * The collaborators: configuration, historical volatility, the CLI *)

(** Outcomes of the collaborators, whose exceptions are not those of the
    core. *)
Inductive outcome (E A : Type) : Type :=
| Returns (a : A)
| Throws (e : E).

Arguments Returns {E A} a.
Arguments Throws {E A} e.

Module ConfigManager.

(** A value of the parsed configuration: a JSON string, or anything else. *)
Inductive json : Type :=
| JString (s : string)
| JOther.

Inductive exn : Type :=
| TypeError
    (** [nlohmann::json::type_error], thrown by [get<std::string>()] on a
        value that is not a string *)
| KeyNotFound (what : string)
    (** [std::runtime_error(what)] *).

(** The member [apiKeys]: [std::map<std::string, std::string>]. *)
Definition t : Type := @StdMap.t string string.

(** The manager before any [loadConfig]. *)
Definition empty : t := StdMap.empty.

(** The loop of [loadConfig] over [config["api_keys"].items()], the items
    of the parsed file being given: [apiKeys[key] = value.get<std::string>()]
    for each item in turn.  The right-hand side is evaluated first, so an
    item that is not a string throws before its key is touched. *)
Fixpoint loadConfig (items : list (string * json)) (apiKeys : t)
  : outcome exn unit * t :=
  match items with
  | [] => (Returns tt, apiKeys)
  | (key, value) :: rest =>
      match value with
      | JString s => loadConfig rest (StdMap.insert key s apiKeys)
      | JOther => (Throws TypeError, apiKeys)
      end
  end.

Definition getApiKey (service : string) (apiKeys : t) : outcome exn string :=
  match StdMap.find service apiKeys with
  | Some key => Returns key
  | None =>
      Throws (KeyNotFound ("API key not found for service: " ++ service))
  end.

End ConfigManager.

Module DataFetcher.

(** [DataFetcher::StockData] *)
Record StockData : Type := mkStockData {
  spotPrice : R;
  volatility : R;
  riskFreeRate : R
}.

Inductive exn : Type :=
| NotEnoughPriceData
    (** [std::runtime_error("Not enough price data to calculate
        volatility")] *).

(** [DataFetcher::getApiKey] and [DataFetcher::getFredApiKey], on the
    manager's keys. *)
Definition getApiKey (apiKeys : ConfigManager.t)
  : outcome ConfigManager.exn string :=
  ConfigManager.getApiKey "alpha_vantage" apiKeys.

Definition getFredApiKey (apiKeys : ConfigManager.t)
  : outcome ConfigManager.exn string :=
  ConfigManager.getApiKey "fred" apiKeys.

(** The first loop of [calculateHistoricalVolatility]:
    [log(prices[i] / prices[i-1])] for [i = 1 .. size-1]. *)
Fixpoint logReturns (prices : list R) : list fval :=
  match prices with
  | previous :: ((price :: _) as rest) =>
      FP.log (price / previous)%fv :: logReturns rest
  | _ => []
  end.

(** [std::pow(x, 2)] *)
Definition pow2 : fval -> fval := FP.lift1 (fun x => x ^ 2).

(** The parameter [days] is declared and never read. *)
Definition calculateHistoricalVolatility (prices : list R) (days : Z)
  : outcome exn fval :=
  if Nat.ltb (length prices) 2 then Throws NotEnoughPriceData
  else
    let logReturns := logReturns prices in
    let sum := fold_left (fun sum ret => (sum + ret)%fv) logReturns (Fin 0) in
    let mean := (sum / INR (length logReturns))%fv in
    let variance :=
      fold_left (fun variance ret => (variance + pow2 (ret - mean))%fv)
                logReturns (Fin 0) in
    let variance := (variance / INR (length logReturns - 1))%fv in
    Returns (FP.sqrt (variance * 252)%fv).

End DataFetcher.

(** The computation of [main], the values read from the fetcher and from the
    user being given: lines 66 to 91, from the market set-up to the Greeks.
    Whatever is thrown is caught by [main], which then returns 1. *)
Module Main.

Definition price_option
  (stockData : DataFetcher.StockData) (strike maturity notional : R)
  (isCall : bool) : result (fval * @StdMap.t string fval) :=
  let market := MarketData.empty in
  let added :=
    MarketData.addRiskFreeRate maturity (DataFetcher.riskFreeRate stockData)
                               market in
  _ <- fst added ;;
  let market := snd added in
  let added :=
    MarketData.addVolatility strike maturity (DataFetcher.volatility stockData)
                             market in
  _ <- fst added ;;
  let market := snd added in
  let params :=
    mkParameters notional strike maturity (DataFetcher.spotPrice stockData)
                 isCall in
  option <- EuropeanStockOption.new params ;;
  let option :=
    EuropeanStockOption.setPricingEngine (Some BlackScholesEngine.make)
                                         option in
  let option := EuropeanStockOption.updateMarketData market option in
  _ <- EuropeanStockOption.validate option ;;
  price <- EuropeanStockOption.price option ;;
  greeks <- EuropeanStockOption.greeks option ;;
  Ret (price, greeks).

(** The value [main] returns. *)
Definition exit_code {A : Type} (run : result A) : Z :=
  match run with
  | Ret _ => 0%Z
  | Throw _ => 1%Z
  end.

End Main.

(** ** Further invariants of [MarketData] *)


(* ================================================================== *)
(** * Facts about comparisons and computed numbers *)

Lemma Rltb_true (x y : R) : x < y -> (x <? y) = true.
Proof. intro Hlt. unfold Rltb. destruct (Rlt_dec x y); tauto. Qed.

Lemma Rltb_false (x y : R) : ~ x < y -> (x <? y) = false.
Proof. intro Hlt. unfold Rltb. destruct (Rlt_dec x y); tauto. Qed.

Lemma Rleb_true (x y : R) : x <= y -> (x <=? y) = true.
Proof. intro Hle. unfold Rleb. destruct (Rle_dec x y); tauto. Qed.

Lemma Rleb_false (x y : R) : ~ x <= y -> (x <=? y) = false.
Proof. intro Hle. unfold Rleb. destruct (Rle_dec x y); tauto. Qed.

Lemma Reqb_true (x y : R) : x = y -> (x =? y) = true.
Proof. intro He. unfold Reqb. destruct (Req_dec_T x y); tauto. Qed.

Lemma Reqb_false (x y : R) : x <> y -> (x =? y) = false.
Proof. intro He. unfold Reqb. destruct (Req_dec_T x y); tauto. Qed.

Lemma Reqb_spec (x y : R) : (x =? y) = true <-> x = y.
Proof. unfold Reqb. destruct (Req_dec_T x y); split; auto; discriminate. Qed.

Lemma div_Fin (x y : R) : y <> 0 -> (Fin x / Fin y)%fv = Fin (x / y).
Proof. intro Hy. unfold FP.div. destruct (Req_dec_T y 0); tauto. Qed.

Lemma sqrt_Fin (x : R) : 0 <= x -> FP.sqrt (Fin x) = Fin (sqrt x).
Proof. intro Hx. unfold FP.sqrt. destruct (Rlt_dec x 0); [lra|reflexivity]. Qed.

Lemma log_Fin (x : R) : 0 < x -> FP.log (Fin x) = Fin (ln x).
Proof.
  intro Hx. unfold FP.log.
  destruct (Rlt_dec x 0); [lra|]. destruct (Req_dec_T x 0); [lra|reflexivity].
Qed.

Lemma epsilon_pos : 0 < MarketData.epsilon.
Proof.
  unfold MarketData.epsilon. apply Rinv_0_lt_compat, pow_lt. lra.
Qed.

(* ================================================================== *)
(** * Facts about [std::map] *)

Module StdMapFacts.
Section Facts.
Context {K V : Type} `{Less K}.
Implicit Types (k : K) (v : V) (m : @StdMap.t K V).

Ltac cases :=
  repeat match goal with
  | |- context [less_dec ?a ?b] => destruct (less_dec a b)
  | Hl : less ?a ?a |- _ => exfalso; exact (less_irrefl _ Hl)
  | H1 : less ?a ?b, H2 : less ?b ?a |- _ =>
      exfalso; exact (less_asym _ _ H1 H2)
  | H1 : less ?a ?b, H2 : ~ less ?a ?b |- _ => contradiction
  end.

Lemma not_less_eq k k' : ~ less k k' -> ~ less k' k -> k = k'.
Proof. intros H1 H2. destruct (less_total k k') as [Hl|[He|Hl]]; tauto. Qed.

Lemma find_insert_eq k v m : StdMap.find k (StdMap.insert k v m) = Some v.
Proof.
  induction m as [|[k' v'] tl IH]; simpl; cases; simpl; cases; auto.
Qed.

Lemma find_insert_neq k k' v m :
  k' <> k -> StdMap.find k' (StdMap.insert k v m) = StdMap.find k' m.
Proof.
  intro Hne. induction m as [|[k0 v0] tl IH]; simpl.
  - cases; auto. elim Hne. now apply not_less_eq.
  - destruct (less_dec k0 k) as [Hl|Hl]; simpl.
    + now rewrite IH.
    + destruct (less_dec k k0) as [Hg|Hg]; simpl.
      * destruct (less_dec k k') as [H1|H1].
        { reflexivity. }
        destruct (less_dec k' k) as [H2|H2].
        { destruct (less_dec k0 k') as [H3|H3].
          - exfalso.
            exact (less_asym _ _ (less_trans _ _ _ Hg H3) H2).
          - destruct (less_dec k' k0) as [H4|H4]; auto.
            elim H4. exact (less_trans _ _ _ H2 Hg). }
        elim Hne. now apply not_less_eq.
      * assert (He : k = k0) by now apply not_less_eq.
        subst k0.
        destruct (less_dec k k') as [H1|H1]; auto.
        destruct (less_dec k' k) as [H2|H2]; auto.
        elim Hne. now apply not_less_eq.
Qed.

Lemma keys_insert k v m x :
  In x (StdMap.keys (StdMap.insert k v m)) <-> x = k \/ In x (StdMap.keys m).
Proof.
  induction m as [|[k' v'] tl IH]; simpl.
  - intuition.
  - destruct (less_dec k' k) as [Hl|Hl]; simpl.
    + rewrite IH. intuition.
    + destruct (less_dec k k') as [Hg|Hg]; simpl.
      * intuition.
      * assert (He : k = k') by now apply not_less_eq.
        subst k'. intuition.
Qed.

Lemma Forall_keys_insert (P : K -> Prop) k v m :
  P k -> Forall P (StdMap.keys m) ->
  Forall P (StdMap.keys (StdMap.insert k v m)).
Proof.
  intros Hk Hm. apply Forall_forall. intros x Hx.
  apply keys_insert in Hx. destruct Hx as [->|Hx]; auto.
  rewrite Forall_forall in Hm. auto.
Qed.

Lemma sorted_insert k v m :
  StdMap.sorted m -> StdMap.sorted (StdMap.insert k v m).
Proof.
  unfold StdMap.sorted.
  induction m as [|[k' v'] tl IH]; simpl; intro Hs.
  - repeat constructor.
  - inversion Hs as [|? ? Hs' Hall]; subst.
    destruct (less_dec k' k) as [Hl|Hl]; simpl.
    + constructor; auto. now apply Forall_keys_insert.
    + destruct (less_dec k k') as [Hg|Hg]; simpl.
      * constructor; auto. constructor; auto.
        eapply Forall_impl; [|exact Hall].
        intros a Ha. exact (less_trans _ _ _ Hg Ha).
      * constructor; auto.
Qed.

Lemma find_Some_keys k v m :
  StdMap.find k m = Some v -> In k (StdMap.keys m).
Proof.
  induction m as [|[k' v'] tl IH]; simpl; [discriminate|].
  destruct (less_dec k' k) as [Hl|Hl]; auto.
  destruct (less_dec k k') as [Hg|Hg]; [discriminate|].
  intros _. left. symmetry. now apply not_less_eq.
Qed.

Lemma keys_find k m :
  StdMap.sorted m -> In k (StdMap.keys m) ->
  exists v, StdMap.find k m = Some v.
Proof.
  unfold StdMap.sorted.
  induction m as [|[k' v'] tl IH]; simpl; intros Hs Hin; [contradiction|].
  inversion Hs as [|? ? Hs' Hall]; subst.
  destruct Hin as [->|Hin].
  - cases. eauto.
  - assert (Hl : less k' k) by (rewrite Forall_forall in Hall; auto).
    cases. auto.
Qed.

(** [upper_bound] skips the entries whose key is not greater. *)
Lemma upper_bound_app k (pre suf : @StdMap.t K V) :
  Forall (fun k' => ~ less k k') (StdMap.keys pre) ->
  StdMap.upper_bound k (pre ++ suf)
  = (length pre + StdMap.upper_bound k suf)%nat.
Proof.
  induction pre as [|[k' v'] tl IH]; simpl; intro Hall; auto.
  inversion Hall; subst. cases. now rewrite IH.
Qed.

Lemma upper_bound_end k m :
  StdMap.upper_bound k m = length m <->
  Forall (fun k' => ~ less k k') (StdMap.keys m).
Proof.
  induction m as [|[k' v'] tl IH]; simpl.
  - split; auto.
  - destruct (less_dec k k') as [Hl|Hl].
    + split; [discriminate|]. intro Hall. inversion Hall; subst. tauto.
    + split.
      * intro He. constructor; auto. apply IH. lia.
      * intro Hall. inversion Hall; subst. f_equal. now apply IH.
Qed.

End Facts.
End StdMapFacts.

(* ================================================================== *)
(** * Facts about the sorted vectors *)

Section VectorFacts.
Implicit Types (x a : R) (v : list R).

Lemma lower_bound_app x (pre suf : list R) :
  Forall (fun a => a < x) pre ->
  StdVector.lower_bound (pre ++ suf) x
  = (length pre + StdVector.lower_bound suf x)%nat.
Proof.
  induction pre as [|a tl IH]; simpl; intro Hall; auto.
  inversion Hall; subst.
  destruct (Rlt_dec a x); [|contradiction]. now rewrite IH.
Qed.

Lemma insert_if_absent_nil x : MarketData.insert_if_absent x [] = [x].
Proof. reflexivity. Qed.

Lemma insert_if_absent_lt x a v :
  a < x ->
  MarketData.insert_if_absent x (a :: v)
  = a :: MarketData.insert_if_absent x v.
Proof.
  intro Hlt.
  unfold MarketData.insert_if_absent, StdVector.insert_at, MarketData.elem.
  simpl. destruct (Rlt_dec a x); [|contradiction]. simpl.
  destruct (Nat.eqb _ _ || negb _); reflexivity.
Qed.

Lemma insert_if_absent_ge x a v :
  ~ a < x ->
  MarketData.insert_if_absent x (a :: v)
  = if a =? x then a :: v else x :: a :: v.
Proof.
  intro Hge.
  unfold MarketData.insert_if_absent, StdVector.insert_at, MarketData.elem.
  simpl. destruct (Rlt_dec a x); [contradiction|]. simpl.
  destruct (a =? x); reflexivity.
Qed.

(** Insert-if-absent: the vector gains [x] and nothing else. *)
Lemma In_insert_if_absent x v y :
  In y (MarketData.insert_if_absent x v) <-> y = x \/ In y v.
Proof.
  induction v as [|a tl IH].
  - rewrite insert_if_absent_nil. simpl. intuition.
  - destruct (Rlt_dec a x) as [Hlt|Hge].
    + rewrite insert_if_absent_lt by assumption. simpl. rewrite IH. tauto.
    + rewrite insert_if_absent_ge by assumption.
      destruct (a =? x) eqn:He.
      * apply Reqb_spec in He. subst a. simpl. intuition.
      * simpl. intuition.
Qed.

Lemma sorted_insert_if_absent x v :
  StronglySorted Rlt v -> StronglySorted Rlt (MarketData.insert_if_absent x v).
Proof.
  induction v as [|a tl IH]; intro Hs.
  - rewrite insert_if_absent_nil. repeat constructor.
  - inversion Hs as [|? ? Hs' Hall]; subst.
    destruct (Rlt_dec a x) as [Hlt|Hge].
    + rewrite insert_if_absent_lt by assumption.
      constructor; auto.
      apply Forall_forall. intros y Hy. apply In_insert_if_absent in Hy.
      destruct Hy as [->|Hy]; auto. rewrite Forall_forall in Hall. auto.
    + rewrite insert_if_absent_ge by assumption.
      destruct (a =? x) eqn:He; auto.
      assert (Hne : a <> x).
      { intro Heq. apply Reqb_spec in Heq. congruence. }
      constructor; auto. constructor; [lra|].
      eapply Forall_impl; [|exact Hall]. simpl. intros; lra.
Qed.

(** A sorted vector: the first element is the least, the last the
    greatest. *)
Lemma sorted_front v a :
  StronglySorted Rlt v -> In a v -> MarketData.elem v 0 <= a.
Proof.
  intros Hs Hin. destruct v as [|b tl]; [contradiction|].
  inversion Hs as [|? ? _ Hall]; subst. unfold MarketData.elem. simpl.
  destruct Hin as [->|Hin]; [lra|].
  rewrite Forall_forall in Hall. left. auto.
Qed.

Lemma sorted_back v a :
  StronglySorted Rlt v -> In a v ->
  a <= MarketData.elem v (pred (length v)).
Proof.
  revert a. induction v as [|b tl IH]; intros a Hs Hin; [contradiction|].
  inversion Hs as [|? ? Hs' Hall]; subst.
  destruct tl as [|c tl'].
  - destruct Hin as [->|[]]. unfold MarketData.elem. simpl. lra.
  - change (MarketData.elem (b :: c :: tl') (pred (length (b :: c :: tl'))))
      with (MarketData.elem (c :: tl') (pred (length (c :: tl')))).
    destruct Hin as [Heq|Hin]; auto.
    subst a.
    assert (Hbc : b < c) by (inversion Hall; auto).
    assert (Hc : c <= MarketData.elem (c :: tl') (pred (length (c :: tl'))))
      by (apply IH; simpl; auto).
    lra.
Qed.

Lemma elem_In v i : (i < length v)%nat -> In (MarketData.elem v i) v.
Proof. intro Hi. unfold MarketData.elem. now apply nth_In. Qed.

(** The bracket of a query strictly inside two neighbours, or on the upper
    one. *)
Lemma bracket_between (pre post : list R) k0 k1 x :
  StronglySorted Rlt (pre ++ k0 :: k1 :: post) ->
  k0 < x -> x <= k1 ->
  MarketData.bracket (pre ++ k0 :: k1 :: post) x = (k0, k1).
Proof.
  intros Hs H0 H1. unfold MarketData.bracket.
  assert (Hpre : Forall (fun a => a < x) pre).
  { apply Forall_forall. intros a Ha.
    induction pre as [|b tl IH]; [contradiction|].
    simpl in Hs. inversion Hs as [|? ? Hs' Hall]; subst.
    destruct Ha as [->|Ha]; auto.
    rewrite Forall_forall in Hall.
    assert (a < k0) by (apply Hall, in_or_app; right; left; reflexivity).
    lra. }
  assert (Hlb : StdVector.lower_bound (pre ++ k0 :: k1 :: post) x
                = S (length pre)).
  { rewrite lower_bound_app by assumption. simpl.
    destruct (Rlt_dec k0 x); [|contradiction].
    destruct (Rlt_dec k1 x); [lra|]. lia. }
  rewrite Hlb.
  assert (Hlen : Nat.eqb (S (length pre)) (length (pre ++ k0 :: k1 :: post))
                 = false).
  { apply Nat.eqb_neq. rewrite length_app. simpl. lia. }
  rewrite Hlen. cbn [Nat.eqb pred]. unfold MarketData.elem.
  rewrite !app_nth2 by lia.
  replace (length pre - length pre)%nat with O by lia.
  replace (S (length pre) - length pre)%nat with 1%nat by lia.
  reflexivity.
Qed.

(** The bracket of a query on the first element collapses. *)
Lemma bracket_front a v :
  MarketData.bracket (a :: v) a = (a, a).
Proof.
  unfold MarketData.bracket. simpl.
  destruct (Rlt_dec a a); [lra|]. reflexivity.
Qed.

End VectorFacts.

(* ================================================================== *)
(** * MarketData: the add operations *)

Section AddFacts.
Import MarketData.

Lemma addRiskFreeRate_invalid time rate md :
  time < 0 \/ rate < 0 ->
  addRiskFreeRate time rate md
  = (Throw (InvalidArgument "Invalid time/rate"), md).
Proof.
  intro Hbad. unfold addRiskFreeRate.
  destruct Hbad as [Hbad|Hbad].
  - now rewrite (Rltb_true _ _ Hbad).
  - rewrite (Rltb_true _ _ Hbad). now rewrite orb_true_r.
Qed.

Lemma addRiskFreeRate_valid time rate md :
  ~ (time < 0 \/ rate < 0) ->
  addRiskFreeRate time rate md
  = (Ret tt, mk (StdMap.insert time rate (yield_curve_ md))
                (vol_surface_ md) (strikes_ md) (maturities_ md)).
Proof.
  intro Hok. unfold addRiskFreeRate.
  rewrite !Rltb_false by tauto. reflexivity.
Qed.

Lemma addVolatility_invalid strike maturity volatility md :
  strike <= 0 \/ maturity < 0 \/ volatility < 0 ->
  addVolatility strike maturity volatility md
  = (Throw (InvalidArgument "Invalid strike/maturity/volatility"), md).
Proof.
  intro Hbad. unfold addVolatility.
  destruct Hbad as [Hbad|[Hbad|Hbad]].
  - now rewrite (Rleb_true _ _ Hbad).
  - rewrite (Rltb_true _ _ Hbad). now rewrite orb_true_r.
  - rewrite (Rltb_true _ _ Hbad). now rewrite orb_true_r.
Qed.

Lemma addVolatility_valid strike maturity volatility md :
  ~ (strike <= 0 \/ maturity < 0 \/ volatility < 0) ->
  addVolatility strike maturity volatility md
  = (Ret tt,
     mk (yield_curve_ md)
        (StdMap.insert (strike, maturity) volatility (vol_surface_ md))
        (insert_if_absent strike (strikes_ md))
        (insert_if_absent maturity (maturities_ md))).
Proof.
  intro Hok. unfold addVolatility.
  rewrite Rleb_false, !Rltb_false by tauto. reflexivity.
Qed.

Lemma addRiskFreeRate_cases time rate :
  {time < 0 \/ rate < 0} + {~ (time < 0 \/ rate < 0)}.
Proof.
  destruct (Rlt_dec time 0); [left; tauto|].
  destruct (Rlt_dec rate 0); [left; tauto|]. right; tauto.
Qed.

Lemma addVolatility_cases strike maturity volatility :
  {strike <= 0 \/ maturity < 0 \/ volatility < 0}
  + {~ (strike <= 0 \/ maturity < 0 \/ volatility < 0)}.
Proof.
  destruct (Rle_dec strike 0); [left; tauto|].
  destruct (Rlt_dec maturity 0); [left; tauto|].
  destruct (Rlt_dec volatility 0); [left; tauto|]. right; tauto.
Qed.

Lemma wf_empty : Inv.wf empty.
Proof.
  repeat constructor; simpl; try tauto; intros [x []].
Qed.

Lemma wf_addRiskFreeRate time rate md :
  Inv.wf md -> Inv.wf (snd (addRiskFreeRate time rate md)).
Proof.
  intros [[Hs Hm Hsk Hmk] Hc Hv].
  destruct (addRiskFreeRate_cases time rate) as [Hbad|Hok].
  - rewrite addRiskFreeRate_invalid by assumption. simpl.
    constructor; [constructor|..]; assumption.
  - rewrite addRiskFreeRate_valid by assumption. simpl.
    constructor; [constructor|..]; simpl; try assumption.
    now apply StdMapFacts.sorted_insert.
Qed.

Lemma wf_addVolatility strike maturity volatility md :
  Inv.wf md -> Inv.wf (snd (addVolatility strike maturity volatility md)).
Proof.
  intros [[Hs Hm Hsk Hmk] Hc Hv].
  destruct (addVolatility_cases strike maturity volatility) as [Hbad|Hok].
  - rewrite addVolatility_invalid by assumption. simpl.
    constructor; [constructor|..]; assumption.
  - rewrite addVolatility_valid by assumption. simpl.
    constructor; simpl; auto; [|now apply StdMapFacts.sorted_insert].
    constructor; simpl.
    + now apply sorted_insert_if_absent.
    + now apply sorted_insert_if_absent.
    + intro k. rewrite In_insert_if_absent, Hsk. split.
      * intros [->|[t Ht]].
        -- exists maturity. apply StdMapFacts.keys_insert. now left.
        -- exists t. apply StdMapFacts.keys_insert. now right.
      * intros [t Ht]. apply StdMapFacts.keys_insert in Ht.
        destruct Ht as [Ht|Ht]; [left; congruence|right; eauto].
    + intro t. rewrite In_insert_if_absent, Hmk. split.
      * intros [->|[k Hk]].
        -- exists strike. apply StdMapFacts.keys_insert. now left.
        -- exists k. apply StdMapFacts.keys_insert. now right.
      * intros [k Hk]. apply StdMapFacts.keys_insert in Hk.
        destruct Hk as [Hk|Hk]; [left; congruence|right; eauto].
Qed.

Lemma wf_step md c : Inv.wf md -> Inv.wf (step md c).
Proof.
  intro Hwf. destruct c; simpl; auto.
  - now apply wf_addRiskFreeRate.
  - now apply wf_addVolatility.
Qed.

Lemma wf_fold cs : forall md, Inv.wf md -> Inv.wf (fold_left step cs md).
Proof.
  induction cs as [|c cs IH]; simpl; intros md Hwf; auto.
  apply IH. now apply wf_step.
Qed.

Lemma wf_run cs : Inv.wf (run cs).
Proof. apply wf_fold, wf_empty. Qed.

(** A value that is present is not inserted again. *)
Lemma insert_if_absent_present x v :
  StronglySorted Rlt v -> In x v -> insert_if_absent x v = v.
Proof.
  induction v as [|a tl IH]; intros Hs Hin; [contradiction|].
  inversion Hs as [|? ? Hs' Hall]; subst.
  destruct (Rlt_dec a x) as [Hlt|Hge].
  - rewrite insert_if_absent_lt by assumption. f_equal. apply IH; auto.
    destruct Hin as [->|Hin]; [lra|assumption].
  - rewrite insert_if_absent_ge by assumption.
    destruct Hin as [->|Hin].
    + now rewrite Reqb_true.
    + rewrite Forall_forall in Hall. apply Hall in Hin. lra.
Qed.

End AddFacts.

(* ================================================================== *)
(** * MarketData: the yield curve *)

Section RateFacts.
Import MarketData.

Lemma sorted_app_before {A : Type} (lt : A -> A -> Prop) (l1 l2 : list A) x :
  StronglySorted lt (l1 ++ x :: l2) -> Forall (fun a => lt a x) l1.
Proof.
  induction l1 as [|a tl IH]; simpl; intro Hs; [constructor|].
  inversion Hs as [|? ? Hs' Hall]; subst. constructor; auto.
  rewrite Forall_forall in Hall. apply Hall, in_or_app. right. now left.
Qed.

Lemma getRiskFreeRate_empty md time :
  yield_curve_ md = [] -> getRiskFreeRate md time = Throw EmptyCurve.
Proof. intro Hc. unfold getRiskFreeRate. now rewrite Hc. Qed.

Lemma getRiskFreeRate_single md t0 r0 time :
  yield_curve_ md = [(t0, r0)] -> getRiskFreeRate md time = Ret (Fin r0).
Proof. intro Hc. unfold getRiskFreeRate. now rewrite Hc. Qed.

Lemma getRiskFreeRate_below md t0 r0 rest time :
  yield_curve_ md = (t0, r0) :: rest -> time < t0 ->
  getRiskFreeRate md time = Ret (Fin r0).
Proof.
  intros Hc Hlt. unfold getRiskFreeRate. rewrite Hc. simpl.
  destruct (Rlt_dec time t0); [|contradiction]. simpl.
  destruct rest; reflexivity.
Qed.

Lemma getRiskFreeRate_above md pre tn rn time :
  yield_curve_ md = pre ++ [(tn, rn)] ->
  Forall (fun k => ~ time < k) (StdMap.keys (pre ++ [(tn, rn)])) ->
  getRiskFreeRate md time = Ret (Fin rn).
Proof.
  intros Hc Hall. unfold getRiskFreeRate. rewrite Hc.
  assert (Hub : StdMap.upper_bound time (pre ++ [(tn, rn)])
                = length (pre ++ [(tn, rn)]))
    by (apply StdMapFacts.upper_bound_end; exact Hall).
  rewrite Hub. rewrite length_app. simpl length.
  replace (length pre + 1)%nat with (S (length pre)) by lia.
  assert (Hlast : deref (pre ++ [(tn, rn)]) (length pre) = (tn, rn)).
  { unfold deref. rewrite app_nth2 by lia.
    now replace (length pre - length pre)%nat with O by lia. }
  cbn [Nat.eqb pred].
  destruct pre as [|p pre']; [reflexivity|].
  simpl length. cbn [Nat.eqb]. rewrite Nat.eqb_refl.
  simpl length in Hlast. now rewrite Hlast.
Qed.

Lemma getRiskFreeRate_between md pre t0 r0 t1 r1 post time :
  yield_curve_ md = pre ++ (t0, r0) :: (t1, r1) :: post ->
  StdMap.sorted (yield_curve_ md) ->
  t0 <= time -> time < t1 ->
  getRiskFreeRate md time
  = if t1 - t0 <? epsilon then Ret (Fin r0)
    else Ret (Fin (Spec.linear t0 r0 t1 r1 time)).
Proof.
  intros Hc Hs H0 H1. unfold getRiskFreeRate. rewrite Hc in *.
  set (curve := pre ++ (t0, r0) :: (t1, r1) :: post) in *.
  assert (Hlen : length curve = S (S (length pre + length post))).
  { unfold curve. rewrite length_app. simpl. lia. }
  assert (Hub : StdMap.upper_bound time curve = S (length pre)).
  { unfold curve.
    change (pre ++ (t0, r0) :: (t1, r1) :: post)
      with (pre ++ [(t0, r0)] ++ (t1, r1) :: post).
    rewrite app_assoc, StdMapFacts.upper_bound_app.
    - rewrite length_app. simpl.
      destruct (Rlt_dec time t1); [lia|contradiction].
    - unfold StdMap.sorted, StdMap.keys, curve in Hs.
      rewrite map_app in Hs. simpl in Hs.
      apply sorted_app_before in Hs.
      unfold StdMap.keys. rewrite map_app. apply Forall_app. split.
      + eapply Forall_impl; [|exact Hs]. simpl. intros a Ha. lra.
      + constructor; [simpl; lra|constructor]. }
  assert (Hlo : deref curve (length pre) = (t0, r0)).
  { unfold deref, curve. rewrite app_nth2 by lia.
    now replace (length pre - length pre)%nat with O by lia. }
  assert (Hup : deref curve (S (length pre)) = (t1, r1)).
  { unfold deref, curve. rewrite app_nth2 by lia.
    now replace (S (length pre) - length pre)%nat with 1%nat by lia. }
  rewrite Hub, Hlen. cbn [Nat.eqb pred].
  replace (Nat.eqb (length pre) (S (length pre + length post))) with false
    by (symmetry; apply Nat.eqb_neq; lia).
  destruct (length pre + length post)%nat eqn:Hn;
    rewrite Hlo, Hup; cbn [fst snd];
    (destruct (t1 - t0 <? epsilon) eqn:Heps; [reflexivity|]);
    (assert (Hd : t1 - t0 <> 0);
     [ intro Hz; rewrite Hz in Heps;
       rewrite (Rltb_true _ _ epsilon_pos) in Heps; discriminate
     | cbn [FP.sub FP.lift2]; rewrite div_Fin by exact Hd;
       reflexivity ]).
Qed.

(** A query at a stored time returns the stored rate. *)
Lemma getRiskFreeRate_knot md time rate :
  StdMap.sorted (yield_curve_ md) ->
  StdMap.find time (yield_curve_ md) = Some rate ->
  getRiskFreeRate md time = Ret (Fin rate).
Proof.
  intros Hs Hf.
  assert (Hsplit : exists pre post,
             yield_curve_ md = pre ++ (time, rate) :: post).
  { clear Hs. induction (yield_curve_ md) as [|[k v] tl IH];
      simpl in Hf; [discriminate|].
    destruct (Rlt_dec k time) as [Hl|Hl].
    - destruct (IH Hf) as (pre & post & ->).
      exists ((k, v) :: pre), post. reflexivity.
    - destruct (Rlt_dec time k) as [Hg|Hg]; [discriminate|].
      injection Hf as ->. assert (k = time) by lra. subst k.
      exists [], tl. reflexivity. }
  destruct Hsplit as (pre & post & Hc).
  destruct post as [|[t1 r1] post'].
  - apply getRiskFreeRate_above with (pre := pre) (tn := time); auto.
    rewrite Hc in Hs. unfold StdMap.sorted, StdMap.keys in Hs.
    unfold StdMap.keys. rewrite map_app in *. simpl in *.
    apply Forall_app. split.
    + apply sorted_app_before in Hs.
      eapply Forall_impl; [|exact Hs]. simpl. intros; lra.
    + constructor; [lra|constructor].
  - assert (Hlt : time < t1).
    { rewrite Hc in Hs. unfold StdMap.sorted, StdMap.keys in Hs.
      rewrite map_app in Hs. simpl in Hs.
      change (map fst pre ++ time :: t1 :: map fst post')
        with (map fst pre ++ [time] ++ t1 :: map fst post') in Hs.
      rewrite app_assoc in Hs. apply sorted_app_before in Hs.
      apply Forall_app in Hs. destruct Hs as [_ Hs].
      now inversion Hs. }
    rewrite (getRiskFreeRate_between md pre time rate t1 r1 post' time);
      auto; [|lra].
    destruct (t1 - time <? epsilon); [reflexivity|].
    f_equal. f_equal. unfold Spec.linear.
    replace (time - time) with 0 by ring.
    unfold Rdiv. ring.
Qed.

End RateFacts.

(* ================================================================== *)
(** * MarketData: the volatility surface *)

Section VolFacts.
Import MarketData.

Lemma get_vol_stored md k t v :
  StdMap.find (k, t) (vol_surface_ md) = Some v -> get_vol md k t = Ret v.
Proof. intro Hf. unfold get_vol, StdMap.at_. now rewrite Hf. Qed.

Lemma get_vol_missing md k t :
  StdMap.find (k, t) (vol_surface_ md) = None ->
  get_vol md k t = Throw (MissingDataPoint k t).
Proof. intro Hf. unfold get_vol, StdMap.at_. now rewrite Hf. Qed.

Lemma getVolatility_exact md strike maturity v :
  StdMap.find (strike, maturity) (vol_surface_ md) = Some v ->
  getVolatility md strike maturity = Ret (Fin v).
Proof. intro Hf. unfold getVolatility. now rewrite Hf. Qed.

(** On a surface with one strike and one maturity, that grid point is
    stored. *)
Lemma single_point_stored md k0 t0 :
  Inv.wf md -> strikes_ md = [k0] -> maturities_ md = [t0] ->
  exists v, StdMap.find (k0, t0) (vol_surface_ md) = Some v.
Proof.
  intros [[_ _ Hsk Hmk] _ Hv] Hs Hm.
  assert (Hin : In k0 (strikes_ md)) by (rewrite Hs; now left).
  apply Hsk in Hin. destruct Hin as [t Ht].
  assert (Ht' : In t (maturities_ md)) by (apply Hmk; eauto).
  rewrite Hm in Ht'. destruct Ht' as [<-|[]].
  now apply StdMapFacts.keys_find.
Qed.

Lemma getVolatility_single md strike maturity k0 t0 v :
  strikes_ md = [k0] -> maturities_ md = [t0] ->
  StdMap.find (strike, maturity) (vol_surface_ md) = None ->
  StdMap.find (k0, t0) (vol_surface_ md) = Some v ->
  getVolatility md strike maturity = Ret (Fin v).
Proof.
  intros Hs Hm Hf Hv. unfold getVolatility, StdMap.at_, elem.
  rewrite Hf, Hs, Hm. simpl. now rewrite Hv.
Qed.

Lemma getVolatility_uninitialized md strike maturity :
  StdMap.find (strike, maturity) (vol_surface_ md) = None ->
  strikes_ md = [] \/ maturities_ md = [] ->
  getVolatility md strike maturity = Throw UninitializedSurface.
Proof.
  intros Hf Hz. unfold getVolatility. rewrite Hf.
  destruct Hz as [Hz|Hz]; rewrite Hz; simpl.
  - reflexivity.
  - rewrite andb_false_r, orb_true_r. reflexivity.
Qed.

Lemma getVolatility_insufficient md strike maturity :
  StdMap.find (strike, maturity) (vol_surface_ md) = None ->
  strikes_ md <> [] -> maturities_ md <> [] ->
  ~ (length (strikes_ md) = 1%nat /\ length (maturities_ md) = 1%nat) ->
  (length (strikes_ md) < 2)%nat \/ (length (maturities_ md) < 2)%nat ->
  getVolatility md strike maturity = Throw InsufficientData.
Proof.
  intros Hf Hs Hm Hone Hfew. unfold getVolatility. rewrite Hf.
  destruct (strikes_ md) as [|k0 [|k1 ks]]; [congruence| |];
    destruct (maturities_ md) as [|t0 [|t1 ts]]; try congruence;
    simpl in *; try reflexivity; try lia.
Qed.

(** The conditions of the five guards that precede the bracketing, on a
    surface with two strikes and two maturities or more. *)
Lemma getVolatility_guards md strike maturity :
  StdMap.find (strike, maturity) (vol_surface_ md) = None ->
  (2 <= length (strikes_ md))%nat -> (2 <= length (maturities_ md))%nat ->
  getVolatility md strike maturity
  = let strikes := strikes_ md in
    let maturities := maturities_ md in
    if (strike <? elem strikes 0)
       || (elem strikes (pred (length strikes)) <? strike) then
      Throw (OutOfBounds Strike)
    else if (maturity <? elem maturities 0)
            || (elem maturities (pred (length maturities)) <? maturity) then
      Throw (OutOfBounds Maturity)
    else
      let '(k0, k1) := bracket strikes strike in
      let '(t0, t1) := bracket maturities maturity in
      if (k0 =? k1) && (t0 =? t1) then
        v <- StdMap.at_ (k0, t0) (vol_surface_ md) ;; Ret (Fin v)
      else
        let single_strike := k0 =? k1 in
        let single_maturity := t0 =? t1 in
        v00 <- get_vol md k0 t0 ;;
        v01 <- (if single_maturity then Ret v00 else get_vol md k0 t1) ;;
        v10 <- (if single_strike then Ret v00 else get_vol md k1 t0) ;;
        v11 <- (if single_strike || single_maturity then Ret v00
                else get_vol md k1 t1) ;;
        let x_ratio : fval := ((strike - k0) / (k1 - k0))%fv in
        let y_ratio : fval := ((maturity - t0) / (t1 - t0))%fv in
        Ret ((1 - x_ratio) * (1 - y_ratio) * v00 +
             (1 - x_ratio) * y_ratio * v01 +
             x_ratio * (1 - y_ratio) * v10 +
             x_ratio * y_ratio * v11)%fv.
Proof.
  intros Hf Hs Hm. unfold getVolatility. rewrite Hf.
  destruct (strikes_ md) as [|k0 [|k1 ks]]; simpl in Hs; try lia.
  destruct (maturities_ md) as [|t0 [|t1 ts]]; simpl in Hm; try lia.
  reflexivity.
Qed.

Lemma getVolatility_strike_out md strike maturity :
  StdMap.find (strike, maturity) (vol_surface_ md) = None ->
  (2 <= length (strikes_ md))%nat -> (2 <= length (maturities_ md))%nat ->
  strike < elem (strikes_ md) 0
  \/ elem (strikes_ md) (pred (length (strikes_ md))) < strike ->
  getVolatility md strike maturity = Throw (OutOfBounds Strike).
Proof.
  intros Hf Hs Hm Hout. rewrite getVolatility_guards by assumption.
  cbv zeta. destruct Hout as [Hout|Hout]; rewrite (Rltb_true _ _ Hout).
  - reflexivity.
  - now rewrite orb_true_r.
Qed.

Lemma getVolatility_maturity_out md strike maturity :
  StdMap.find (strike, maturity) (vol_surface_ md) = None ->
  (2 <= length (strikes_ md))%nat -> (2 <= length (maturities_ md))%nat ->
  elem (strikes_ md) 0 <= strike
  <= elem (strikes_ md) (pred (length (strikes_ md))) ->
  maturity < elem (maturities_ md) 0
  \/ elem (maturities_ md) (pred (length (maturities_ md))) < maturity ->
  getVolatility md strike maturity = Throw (OutOfBounds Maturity).
Proof.
  intros Hf Hs Hm Hin Hout. rewrite getVolatility_guards by assumption.
  cbv zeta. rewrite !(Rltb_false strike), !(Rltb_false _ strike) by lra.
  simpl. destruct Hout as [Hout|Hout]; rewrite (Rltb_true _ _ Hout).
  - reflexivity.
  - now rewrite orb_true_r.
Qed.

(** Past the guards. *)
Lemma getVolatility_bracketed md strike maturity k0 k1 t0 t1 :
  StdMap.find (strike, maturity) (vol_surface_ md) = None ->
  (2 <= length (strikes_ md))%nat -> (2 <= length (maturities_ md))%nat ->
  elem (strikes_ md) 0 <= strike
  <= elem (strikes_ md) (pred (length (strikes_ md))) ->
  elem (maturities_ md) 0 <= maturity
  <= elem (maturities_ md) (pred (length (maturities_ md))) ->
  bracket (strikes_ md) strike = (k0, k1) ->
  bracket (maturities_ md) maturity = (t0, t1) ->
  getVolatility md strike maturity
  = if (k0 =? k1) && (t0 =? t1) then
      v <- StdMap.at_ (k0, t0) (vol_surface_ md) ;; Ret (Fin v)
    else
      v00 <- get_vol md k0 t0 ;;
      v01 <- (if t0 =? t1 then Ret v00 else get_vol md k0 t1) ;;
      v10 <- (if k0 =? k1 then Ret v00 else get_vol md k1 t0) ;;
      v11 <- (if (k0 =? k1) || (t0 =? t1) then Ret v00
              else get_vol md k1 t1) ;;
      Ret ((1 - (strike - k0) / (k1 - k0))
           * (1 - (maturity - t0) / (t1 - t0)) * v00 +
           (1 - (strike - k0) / (k1 - k0))
           * ((maturity - t0) / (t1 - t0)) * v01 +
           (strike - k0) / (k1 - k0)
           * (1 - (maturity - t0) / (t1 - t0)) * v10 +
           (strike - k0) / (k1 - k0)
           * ((maturity - t0) / (t1 - t0)) * v11)%fv.
Proof.
  intros Hf Hs Hm Hk Ht Hbk Hbt. rewrite getVolatility_guards by assumption.
  cbv zeta. rewrite Hbk, Hbt.
  rewrite !(Rltb_false strike), !(Rltb_false _ strike) by lra.
  rewrite !(Rltb_false maturity), !(Rltb_false _ maturity) by lra.
  reflexivity.
Qed.

(** A number strictly between two neighbours of a sorted vector is not in
    the vector. *)
Lemma between_not_In (pre post : list R) k0 k1 x :
  StronglySorted Rlt (pre ++ k0 :: k1 :: post) ->
  k0 < x -> x < k1 -> ~ In x (pre ++ k0 :: k1 :: post).
Proof.
  intros Hs H0 H1 Hin.
  assert (Hpre : Forall (fun a => a < k0) pre)
    by (eapply sorted_app_before; exact Hs).
  assert (Hpost : Forall (Rlt k1) post).
  { clear Hpre Hin. induction pre as [|a tl IH]; simpl in Hs.
    - inversion Hs as [|? ? Hs' _]; subst. now inversion Hs'.
    - inversion Hs; auto. }
  apply in_app_or in Hin. rewrite Forall_forall in Hpre, Hpost.
  destruct Hin as [Hin|[<-|[<-|Hin]]]; try lra.
  - apply Hpre in Hin. lra.
  - apply Hpost in Hin. lra.
Qed.

(** A query whose strike or maturity is not recorded is not stored. *)
Lemma not_recorded_not_stored md strike maturity :
  Inv.wf md ->
  ~ In strike (strikes_ md) \/ ~ In maturity (maturities_ md) ->
  StdMap.find (strike, maturity) (vol_surface_ md) = None.
Proof.
  intros [[_ _ Hsk Hmk] _ _] Hnot.
  destruct (StdMap.find _ _) as [v|] eqn:Hf; [|reflexivity].
  apply StdMapFacts.find_Some_keys in Hf.
  destruct Hnot as [Hnot|Hnot]; elim Hnot.
  - apply Hsk. eauto.
  - apply Hmk. eauto.
Qed.

End VolFacts.

(* ================================================================== *)
(** * Evaluating on given numbers *)

Section MapEval.
Context {K V : Type} `{Less K}.
Implicit Types (k : K) (v : V) (m : @StdMap.t K V).

Lemma insert_nil k v : StdMap.insert k v [] = [(k, v)].
Proof. reflexivity. Qed.

Lemma insert_after k k' v v' m :
  less k' k ->
  StdMap.insert k v ((k', v') :: m) = (k', v') :: StdMap.insert k v m.
Proof. intro Hl. simpl. destruct (less_dec k' k); tauto. Qed.

Lemma insert_before k k' v v' m :
  less k k' -> StdMap.insert k v ((k', v') :: m) = (k, v) :: (k', v') :: m.
Proof.
  intro Hl. simpl. destruct (less_dec k' k) as [Hg|_].
  - elim (less_asym _ _ Hl Hg).
  - destruct (less_dec k k'); tauto.
Qed.

Lemma insert_here k v v' m :
  StdMap.insert k v ((k, v') :: m) = (k, v) :: m.
Proof.
  simpl. destruct (less_dec k k) as [Hl|_]; [elim (less_irrefl _ Hl)|].
  reflexivity.
Qed.

Lemma find_nil k : StdMap.find k ([] : @StdMap.t K V) = None.
Proof. reflexivity. Qed.

Lemma find_after k k' v' m :
  less k' k -> StdMap.find k ((k', v') :: m) = StdMap.find k m.
Proof. intro Hl. simpl. destruct (less_dec k' k); tauto. Qed.

Lemma find_before k k' v' m :
  less k k' -> StdMap.find k ((k', v') :: m) = None.
Proof.
  intro Hl. simpl. destruct (less_dec k' k) as [Hg|_].
  - elim (less_asym _ _ Hl Hg).
  - destruct (less_dec k k'); tauto.
Qed.

Lemma find_here k v m : StdMap.find k ((k, v) :: m) = Some v.
Proof.
  simpl. destruct (less_dec k k) as [Hl|_]; [elim (less_irrefl _ Hl)|].
  reflexivity.
Qed.

End MapEval.

(** [less] between given numbers or pairs of numbers. *)
Ltac solve_less :=
  cbn [less Less_R Less_pair]; unfold pair_less; cbn [fst snd less Less_R];
  first [lra | left; lra | right; split; lra].

(** Runs the add operations and the map operations on given numbers. *)
Ltac md_eval :=
  repeat first
    [ progress cbn [MarketData.run fold_left MarketData.step snd fst
                    MarketData.yield_curve_ MarketData.vol_surface_
                    MarketData.strikes_ MarketData.maturities_]
    | progress unfold StdMap.empty, MarketData.empty
    | rewrite addVolatility_valid by lra
    | rewrite addRiskFreeRate_valid by lra
    | rewrite insert_if_absent_nil
    | rewrite insert_if_absent_lt by lra
    | rewrite insert_if_absent_ge by lra
    | rewrite Reqb_true by lra
    | rewrite Reqb_false by lra
    | rewrite insert_nil
    | rewrite insert_here
    | rewrite insert_after by solve_less
    | rewrite insert_before by solve_less
    | rewrite find_nil
    | rewrite find_here
    | rewrite find_after by solve_less
    | rewrite find_before by solve_less ].

Section ExampleStates.
Import MarketData Examples.

Lemma grid_state :
  grid = mk []
           [((100, 1), 0.20); ((100, 2), 0.25);
            ((150, 1), 0.22); ((150, 2), 0.28)]
           [100; 150] [1; 2].
Proof. unfold grid. md_eval. reflexivity. Qed.

Lemma sparse_grid_state :
  sparse_grid
  = mk [] [((100, 2), 0.25); ((150, 1), 0.22); ((150, 2), 0.28)]
       [100; 150] [1; 2].
Proof. unfold sparse_grid. md_eval. reflexivity. Qed.

Lemma two_rates_state :
  two_rates = mk [(0.5, 0.02); (1, 0.03)] [] [] [].
Proof. unfold two_rates. md_eval. reflexivity. Qed.

Lemma overwritten_state : overwritten = mk [(1, 0.04)] [] [] [].
Proof. unfold overwritten. md_eval. reflexivity. Qed.

Lemma market_state :
  market = mk [(1, 0.05)] [((100, 1), 0.20)] [100] [1].
Proof. unfold market. md_eval. reflexivity. Qed.

Lemma wf_grid : Inv.wf grid.
Proof. apply wf_run. Qed.

Lemma wf_sparse_grid : Inv.wf sparse_grid.
Proof. apply wf_run. Qed.

Lemma wf_two_rates : Inv.wf two_rates.
Proof. apply wf_run. Qed.

Lemma wf_market : Inv.wf market.
Proof. apply wf_run. Qed.

End ExampleStates.

(* ================================================================== *)
(** * The invariant of MarketData *)

(** C7.  After every sequence of [addRiskFreeRate], [addVolatility],
    [getRiskFreeRate] and [getVolatility] calls on a new [MarketData],
    failed calls included, [strikes_] and [maturities_] are ascending and
    duplicate-free and hold exactly the strikes, resp. the maturities, of the
    keys of the surface.  [addVolatility] keeps them so by insert-if-absent:
    a successful call adds its strike and its maturity and nothing else, it
    leaves a vector alone when the value is already there, and the vectors
    it produces are the same whatever the maps hold, so the surface is not
    scanned. *)
Theorem axes_invariant (cs : list MarketData.call) :
  let md := MarketData.run cs in
  Inv.axes md /\
  forall strike maturity volatility : R,
    let md' := snd (MarketData.addVolatility strike maturity volatility md) in
    (fst (MarketData.addVolatility strike maturity volatility md) = Ret tt ->
     (forall k, In k (MarketData.strikes_ md') <->
                k = strike \/ In k (MarketData.strikes_ md)) /\
     (forall t, In t (MarketData.maturities_ md') <->
                t = maturity \/ In t (MarketData.maturities_ md)) /\
     (In strike (MarketData.strikes_ md) ->
      MarketData.strikes_ md' = MarketData.strikes_ md) /\
     (In maturity (MarketData.maturities_ md) ->
      MarketData.maturities_ md' = MarketData.maturities_ md)) /\
    forall curve surface,
      let other :=
        MarketData.mk curve surface
          (MarketData.strikes_ md) (MarketData.maturities_ md) in
      MarketData.strikes_
        (snd (MarketData.addVolatility strike maturity volatility other))
      = MarketData.strikes_ md' /\
      MarketData.maturities_
        (snd (MarketData.addVolatility strike maturity volatility other))
      = MarketData.maturities_ md'.
Proof.
  intro md. assert (Hwf : Inv.wf md) by apply wf_run.
  destruct Hwf as [Hax _ _]. split; [exact Hax|].
  intros strike maturity volatility md'. subst md'.
  destruct (addVolatility_cases strike maturity volatility) as [Hbad|Hok].
  - rewrite !addVolatility_invalid by assumption. simpl. split.
    + discriminate.
    + intros curve surface.
      rewrite addVolatility_invalid by assumption. simpl. auto.
  - rewrite !addVolatility_valid by assumption. simpl. split.
    + intros _. destruct Hax as [Hs Hm _ _]. repeat split.
      * apply In_insert_if_absent.
      * apply In_insert_if_absent.
      * apply In_insert_if_absent.
      * apply In_insert_if_absent.
      * now apply insert_if_absent_present.
      * now apply insert_if_absent_present.
    + intros curve surface.
      rewrite addVolatility_valid by assumption. simpl. auto.
Qed.

(** C7, on the test suite's grid: the four calls leave two strikes and two
    maturities. *)
Lemma axes_invariant_witness :
  Inv.axes Examples.grid /\
  MarketData.strikes_
    (snd (MarketData.addVolatility 100 1.5 0.3 Examples.grid))
  = MarketData.strikes_ Examples.grid.
Proof.
  pose proof (axes_invariant
                [MarketData.AddVolatility 100 1 0.20;
                 MarketData.AddVolatility 100 2 0.25;
                 MarketData.AddVolatility 150 1 0.22;
                 MarketData.AddVolatility 150 2 0.28]) as [Hax Hadd].
  split; [exact Hax|].
  destruct (Hadd 100 1.5 0.3) as [Hins _].
  apply Hins.
  - change (MarketData.run _) with Examples.grid.
    rewrite addVolatility_valid by lra. reflexivity.
  - change (MarketData.run _) with Examples.grid.
    rewrite grid_state. simpl. auto.
Defined.

(* ================================================================== *)
(** * Validation of the add operations *)

(** C8.  On every [MarketData] that calls have produced:
    [addRiskFreeRate] throws [std::invalid_argument] exactly when
    [time < 0] or [rate < 0], [addVolatility] exactly when [strike <= 0],
    [maturity < 0] or [volatility < 0]; a call that throws leaves the object
    as it was; a call that returns has stored its value at its key, over the
    value that was there, has left the other keys alone, and a query at the
    key returns the value.  The rate at 1.0 after [(1.0, 0.03)] and
    [(1.0, 0.04)] is 0.04. *)
Theorem add_validates_and_overwrites (cs : list MarketData.call) :
  let md := MarketData.run cs in
  (forall time rate : R,
     let out := MarketData.addRiskFreeRate time rate md in
     ((exists what, fst out = Throw (InvalidArgument what)) <->
      time < 0 \/ rate < 0) /\
     (fst out = Ret tt <-> ~ (time < 0 \/ rate < 0)) /\
     (fst out <> Ret tt -> snd out = md) /\
     (fst out = Ret tt ->
      StdMap.find time (MarketData.yield_curve_ (snd out)) = Some rate /\
      (forall t, t <> time ->
         StdMap.find t (MarketData.yield_curve_ (snd out))
         = StdMap.find t (MarketData.yield_curve_ md)) /\
      MarketData.getRiskFreeRate (snd out) time = Ret (Fin rate))) /\
  (forall strike maturity volatility : R,
     let out := MarketData.addVolatility strike maturity volatility md in
     ((exists what, fst out = Throw (InvalidArgument what)) <->
      strike <= 0 \/ maturity < 0 \/ volatility < 0) /\
     (fst out = Ret tt <->
      ~ (strike <= 0 \/ maturity < 0 \/ volatility < 0)) /\
     (fst out <> Ret tt -> snd out = md) /\
     (fst out = Ret tt ->
      StdMap.find (strike, maturity) (MarketData.vol_surface_ (snd out))
      = Some volatility /\
      (forall key, key <> (strike, maturity) ->
         StdMap.find key (MarketData.vol_surface_ (snd out))
         = StdMap.find key (MarketData.vol_surface_ md)) /\
      MarketData.getVolatility (snd out) strike maturity
      = Ret (Fin volatility))) /\
  MarketData.getRiskFreeRate Examples.overwritten 1 = Ret (Fin 0.04).
Proof.
  intro md. assert (Hwf : Inv.wf md) by apply wf_run.
  split; [|split].
  - intros time rate out. subst out.
    destruct (addRiskFreeRate_cases time rate) as [Hbad|Hok].
    + rewrite addRiskFreeRate_invalid by assumption. simpl.
      repeat split; try tauto; try discriminate. eauto.
    + pose proof (wf_addRiskFreeRate time rate md Hwf) as Hwf'.
      rewrite addRiskFreeRate_valid in * by assumption. simpl in *.
      repeat split; try tauto.
      * intros [what Hw]. discriminate.
      * apply StdMapFacts.find_insert_eq.
      * intros t Ht. now apply StdMapFacts.find_insert_neq.
      * apply getRiskFreeRate_knot; [apply Hwf'|].
        apply StdMapFacts.find_insert_eq.
  - intros strike maturity volatility out. subst out.
    destruct (addVolatility_cases strike maturity volatility) as [Hbad|Hok].
    + rewrite addVolatility_invalid by assumption. simpl.
      repeat split; try tauto; try discriminate. eauto.
    + rewrite addVolatility_valid by assumption. simpl.
      repeat split; try tauto.
      * intros [what Hw]. discriminate.
      * apply StdMapFacts.find_insert_eq.
      * intros key Hkey. now apply StdMapFacts.find_insert_neq.
      * apply getVolatility_exact. apply StdMapFacts.find_insert_eq.
  - apply getRiskFreeRate_single with (t0 := 1).
    now rewrite overwritten_state.
Qed.

(** C8, on the pricing tests' market: a negative rate is refused and
    changes nothing, and 6% at one year replaces the 5%. *)
Lemma add_validates_and_overwrites_witness :
  MarketData.addRiskFreeRate 1 (-0.01) Examples.market
  = (Throw (InvalidArgument "Invalid time/rate"), Examples.market) /\
  MarketData.getRiskFreeRate
    (snd (MarketData.addRiskFreeRate 1 0.06 Examples.market)) 1
  = Ret (Fin 0.06).
Proof.
  destruct (add_validates_and_overwrites
              [MarketData.AddRiskFreeRate 1 0.05;
               MarketData.AddVolatility 100 1 0.20]) as [Hrate _].
  change (MarketData.run _) with Examples.market in Hrate.
  split.
  - apply addRiskFreeRate_invalid. lra.
  - destruct (Hrate 1 0.06) as (_ & Hok & _ & Hset).
    apply Hset, Hok. lra.
Defined.

(* ================================================================== *)
(** * getRiskFreeRate *)

(** C2.  For every yield curve (a [std::map], so ascending in time) and
    every query time: an empty curve throws "Yield curve is empty"; a curve
    of one point returns its rate; on a longer curve a time before the first
    stored time returns the first rate, a time that no stored time exceeds
    returns the last rate, and a time bracketed by the neighbours [(t0, r0)]
    and [(t1, r1)] returns [r0 + (time-t0)/(t1-t0) * (r1-r0)], which at the
    midpoint is [(r0+r1)/2], unless [t1 - t0] is below the machine epsilon,
    when it returns [r0]. *)
Theorem getRiskFreeRate_cases (md : MarketData.t) (time : R) :
  StdMap.sorted (MarketData.yield_curve_ md) ->
  (MarketData.yield_curve_ md = [] ->
   MarketData.getRiskFreeRate md time = Throw EmptyCurve) /\
  (forall t0 r0,
     MarketData.yield_curve_ md = [(t0, r0)] ->
     MarketData.getRiskFreeRate md time = Ret (Fin r0)) /\
  (forall t0 r0 p rest,
     MarketData.yield_curve_ md = (t0, r0) :: p :: rest ->
     time < t0 ->
     MarketData.getRiskFreeRate md time = Ret (Fin r0)) /\
  (forall p pre tn rn,
     MarketData.yield_curve_ md = p :: pre ++ [(tn, rn)] ->
     (forall t, In t (StdMap.keys (MarketData.yield_curve_ md)) ->
                ~ time < t) ->
     MarketData.getRiskFreeRate md time = Ret (Fin rn)) /\
  (forall pre t0 r0 t1 r1 post,
     MarketData.yield_curve_ md = pre ++ (t0, r0) :: (t1, r1) :: post ->
     t0 <= time < t1 ->
     (t1 - t0 < MarketData.epsilon ->
      MarketData.getRiskFreeRate md time = Ret (Fin r0)) /\
     (~ t1 - t0 < MarketData.epsilon ->
      MarketData.getRiskFreeRate md time
      = Ret (Fin (r0 + (time - t0) / (t1 - t0) * (r1 - r0))) /\
      (time = (t0 + t1) / 2 ->
       MarketData.getRiskFreeRate md time = Ret (Fin ((r0 + r1) / 2))))).
Proof.
  intro Hs. repeat split.
  - apply getRiskFreeRate_empty.
  - intros t0 r0 Hc. now apply getRiskFreeRate_single with (t0 := t0).
  - intros t0 r0 p rest Hc Hlt.
    now apply getRiskFreeRate_below with (t0 := t0) (rest := p :: rest).
  - intros p pre tn rn Hc Hall.
    apply getRiskFreeRate_above with (pre := p :: pre) (tn := tn);
      [exact Hc|].
    change ((p :: pre) ++ [(tn, rn)]) with (p :: pre ++ [(tn, rn)]).
    rewrite <- Hc. apply Forall_forall. exact Hall.
  - intro Heps.
    rewrite (getRiskFreeRate_between md pre t0 r0 t1 r1 post time);
      try tauto.
    now rewrite Rltb_true.
  - rewrite (getRiskFreeRate_between md pre t0 r0 t1 r1 post time);
      try tauto.
    now rewrite Rltb_false.
  - intro Hmid.
    rewrite (getRiskFreeRate_between md pre t0 r0 t1 r1 post time);
      try tauto.
    rewrite Rltb_false by assumption. do 2 f_equal.
    unfold Spec.linear. subst time.
    assert (Hd : t1 - t0 <> 0).
    { pose proof epsilon_pos. lra. }
    field. exact Hd.
Qed.

(** C2, on the test suite's curve [(0.5, 0.02), (1, 0.03)]: the rate at
    0.75 is 0.025, at 0.25 it is 0.02 and at 2 it is 0.03. *)
Lemma getRiskFreeRate_cases_witness :
  MarketData.getRiskFreeRate Examples.two_rates 0.75 = Ret (Fin 0.025) /\
  MarketData.getRiskFreeRate Examples.two_rates 0.25 = Ret (Fin 0.02) /\
  MarketData.getRiskFreeRate Examples.two_rates 2 = Ret (Fin 0.03).
Proof.
  assert (Hs : StdMap.sorted (MarketData.yield_curve_ Examples.two_rates))
    by apply wf_two_rates.
  assert (Hc : MarketData.yield_curve_ Examples.two_rates
               = [(0.5, 0.02); (1, 0.03)])
    by (now rewrite two_rates_state).
  assert (Heps : ~ 1 - 0.5 < MarketData.epsilon).
  { unfold MarketData.epsilon.
    assert (Hp : / 2 ^ 52 <= / 2 ^ 1).
    { apply Rinv_le_contravar; [lra|]. apply Rle_pow; [lra|lia]. }
    simpl in Hp. lra. }
  split; [|split].
  - destruct (getRiskFreeRate_cases Examples.two_rates 0.75 Hs)
      as (_ & _ & _ & _ & Hbetween).
    destruct (Hbetween [] 0.5 0.02 1 0.03 [] Hc) as [_ Hlin]; [lra|].
    destruct (Hlin Heps) as [_ Hmid].
    replace 0.025 with ((0.02 + 0.03) / 2) by lra.
    apply Hmid. lra.
  - destruct (getRiskFreeRate_cases Examples.two_rates 0.25 Hs)
      as (_ & _ & Hbelow & _).
    apply (Hbelow 0.5 0.02 (1, 0.03) [] Hc). lra.
  - destruct (getRiskFreeRate_cases Examples.two_rates 2 Hs)
      as (_ & _ & _ & Habove & _).
    apply (Habove (0.5, 0.02) [] 1 0.03 Hc).
    rewrite Hc. simpl. intros t [<-|[<-|[]]]; lra.
Defined.

(* ================================================================== *)
(** * getVolatility: what comes before the interpolation *)

Section GuardFacts.
Import MarketData.

Lemma outside_front_back v x :
  StronglySorted Rlt v -> v <> [] ->
  (Spec.outside v x <->
   x < elem v 0 \/ elem v (pred (length v)) < x).
Proof.
  intros Hs Hne.
  assert (Hlen : (0 < length v)%nat)
    by (destruct v; [congruence|simpl; lia]).
  unfold Spec.outside. split.
  - intros [Hlo|Hhi].
    + left. apply Hlo, elem_In. exact Hlen.
    + right. apply Hhi, elem_In. lia.
  - intros [Hlo|Hhi].
    + left. intros a Ha. pose proof (sorted_front v a Hs Ha). lra.
    + right. intros a Ha. pose proof (sorted_back v a Hs Ha). lra.
Qed.

(** With one strike and one maturity the surface holds one entry. *)
Lemma single_surface md k0 t0 :
  Inv.wf md -> strikes_ md = [k0] -> maturities_ md = [t0] ->
  exists v, vol_surface_ md = [((k0, t0), v)].
Proof.
  intros Hwf Hs Hm.
  destruct (single_point_stored md k0 t0 Hwf Hs Hm) as [v Hv].
  destruct Hwf as [[_ _ Hsk Hmk] _ Hsorted].
  assert (Hkeys : forall key, In key (StdMap.keys (vol_surface_ md)) ->
                              key = (k0, t0)).
  { intros [k t] Hin.
    assert (Hk : In k (strikes_ md)) by (apply Hsk; eauto).
    assert (Ht : In t (maturities_ md)) by (apply Hmk; eauto).
    rewrite Hs in Hk. rewrite Hm in Ht.
    destruct Hk as [<-|[]]. destruct Ht as [<-|[]]. reflexivity. }
  destruct (vol_surface_ md) as [|[key1 v1] [|[key2 v2] tl]].
  - discriminate.
  - assert (key1 = (k0, t0)) by (apply Hkeys; now left). subst key1.
    rewrite find_here in Hv. injection Hv as ->. eauto.
  - exfalso.
    assert (H1 : key1 = (k0, t0)) by (apply Hkeys; now left).
    assert (H2 : key2 = (k0, t0)) by (apply Hkeys; right; now left).
    subst. unfold StdMap.sorted in Hsorted. simpl in Hsorted.
    inversion Hsorted as [|? ? _ Hall]; subst.
    inversion Hall as [|? ? Hlt _]; subst.
    exact (pair_less_irrefl _ Hlt).
Qed.

End GuardFacts.

(** C6.  For every well-formed [MarketData] and every query: a stored key
    returns its value; otherwise a surface with one strike and one maturity
    returns its only value, whatever the query; otherwise the query throws
    "Volatility surface not initialized" when an axis is empty,
    "Insufficient data for interpolation" when no axis is empty and one has
    fewer than two values, and "Strike out of bounds", resp. "Maturity out
    of bounds", when both axes have two values or more and the strike,
    resp. the maturity, is outside the recorded range. *)
Theorem getVolatility_guards_spec
  (md : MarketData.t) (strike maturity : R) :
  Inv.wf md ->
  (forall v,
     StdMap.find (strike, maturity) (MarketData.vol_surface_ md) = Some v ->
     MarketData.getVolatility md strike maturity = Ret (Fin v)) /\
  (StdMap.find (strike, maturity) (MarketData.vol_surface_ md) = None ->
   (forall k0 t0,
      MarketData.strikes_ md = [k0] -> MarketData.maturities_ md = [t0] ->
      exists v,
        MarketData.vol_surface_ md = [((k0, t0), v)] /\
        MarketData.getVolatility md strike maturity = Ret (Fin v)) /\
   (~ (length (MarketData.strikes_ md) = 1%nat /\
       length (MarketData.maturities_ md) = 1%nat) ->
    (MarketData.strikes_ md = [] \/ MarketData.maturities_ md = [] ->
     MarketData.getVolatility md strike maturity
     = Throw UninitializedSurface) /\
    (MarketData.strikes_ md <> [] -> MarketData.maturities_ md <> [] ->
     ((length (MarketData.strikes_ md) < 2)%nat \/
      (length (MarketData.maturities_ md) < 2)%nat ->
      MarketData.getVolatility md strike maturity = Throw InsufficientData) /\
     ((2 <= length (MarketData.strikes_ md))%nat ->
      (2 <= length (MarketData.maturities_ md))%nat ->
      (Spec.outside (MarketData.strikes_ md) strike ->
       MarketData.getVolatility md strike maturity
       = Throw (OutOfBounds Strike)) /\
      (~ Spec.outside (MarketData.strikes_ md) strike ->
       Spec.outside (MarketData.maturities_ md) maturity ->
       MarketData.getVolatility md strike maturity
       = Throw (OutOfBounds Maturity)))))).
Proof.
  intro Hwf. split.
  - intros v Hf. now apply getVolatility_exact.
  - intro Hf. split; [|intro Hone; split; [|intros Hs Hm; split]].
    + intros k0 t0 Hs Hm.
      destruct (single_surface md k0 t0 Hwf Hs Hm) as [v Hv].
      exists v. split; [exact Hv|].
      apply getVolatility_single with (k0 := k0) (t0 := t0); auto.
      rewrite Hv. apply find_here.
    + now apply getVolatility_uninitialized.
    + now apply getVolatility_insufficient.
    + intros Hls Hlm.
      destruct Hwf as [[Hss Hms _ _] _ _]. split.
      * intro Hout. apply getVolatility_strike_out; auto.
        now apply outside_front_back.
      * intros Hin Hout.
        rewrite outside_front_back in Hin by assumption.
        apply getVolatility_maturity_out; auto; [lra|].
        now apply outside_front_back.
Qed.

(** C6, on the test suite's data: the exact hit [(100, 1)] of the grid, the
    single-point surface queried at [(120, 1.5)], and the strike 90 below
    the grid. *)
Lemma getVolatility_guards_spec_witness :
  MarketData.getVolatility Examples.grid 100 1 = Ret (Fin 0.20) /\
  MarketData.getVolatility Examples.market 120 1.5 = Ret (Fin 0.20) /\
  MarketData.getVolatility Examples.grid 90 1.5 = Throw (OutOfBounds Strike).
Proof.
  split; [|split].
  - destruct (getVolatility_guards_spec Examples.grid 100 1 wf_grid)
      as [Hexact _].
    apply Hexact. rewrite grid_state. md_eval. reflexivity.
  - destruct (getVolatility_guards_spec Examples.market 120 1.5 wf_market)
      as [_ Hrest].
    destruct Hrest as [Hsingle _].
    { rewrite market_state. md_eval. reflexivity. }
    destruct (Hsingle 100 1) as (v & Hv & Hget);
      try (rewrite market_state; reflexivity).
    rewrite Hget. rewrite market_state in Hv. simpl in Hv.
    injection Hv as <-. reflexivity.
  - destruct (getVolatility_guards_spec Examples.grid 90 1.5 wf_grid)
      as [_ Hrest].
    destruct Hrest as [_ Hmany].
    { rewrite grid_state. md_eval. reflexivity. }
    destruct Hmany as [_ Hmany].
    { rewrite grid_state. simpl. lia. }
    destruct Hmany as [_ Hbounds];
      try (rewrite grid_state; simpl; discriminate).
    destruct Hbounds as [Hstrike _];
      try (rewrite grid_state; simpl; lia).
    apply Hstrike. left. rewrite grid_state. simpl.
    intros a [<-|[<-|[]]]; lra.
Defined.

(* ================================================================== *)
(** * getVolatility: the interpolation *)

Section InterpolationFacts.
Import MarketData.

Lemma app_two_length (pre post : list R) a b :
  (2 <= length (pre ++ a :: b :: post))%nat.
Proof. rewrite length_app. simpl. lia. Qed.

Lemma between_in_range (pre post : list R) k0 k1 x :
  StronglySorted Rlt (pre ++ k0 :: k1 :: post) ->
  k0 <= x -> x <= k1 ->
  elem (pre ++ k0 :: k1 :: post) 0 <= x
  <= elem (pre ++ k0 :: k1 :: post)
          (pred (length (pre ++ k0 :: k1 :: post))).
Proof.
  intros Hs H0 H1.
  assert (Hin0 : In k0 (pre ++ k0 :: k1 :: post))
    by (apply in_or_app; right; now left).
  assert (Hin1 : In k1 (pre ++ k0 :: k1 :: post))
    by (apply in_or_app; right; right; now left).
  pose proof (sorted_front _ _ Hs Hin0).
  pose proof (sorted_back _ _ Hs Hin1). lra.
Qed.

(** The weights with a zero denominator. *)
Lemma div_collapsed (x k : R) : x = k -> ((x - k) / (k - k))%fv = NaN.
Proof.
  intros ->. cbn [FP.sub FP.lift2]. unfold FP.div.
  destruct (Req_dec_T (k - k) 0) as [_|Hn]; [reflexivity|].
  elim Hn. ring.
Qed.

(** A query on the first strike and strictly between two maturities,
    not stored itself: the strike bracket collapses, the weight along the
    strikes is [0/0], and the result is not a number. *)
Lemma getVolatility_first_strike md k0 k1 rest pre t0 t1 post maturity
      v00 v01 :
  Inv.wf md ->
  strikes_ md = k0 :: k1 :: rest ->
  maturities_ md = pre ++ t0 :: t1 :: post ->
  t0 < maturity < t1 ->
  StdMap.find (k0, t0) (vol_surface_ md) = Some v00 ->
  StdMap.find (k0, t1) (vol_surface_ md) = Some v01 ->
  getVolatility md k0 maturity = Ret NaN.
Proof.
  intros Hwf Hs Hm Hmat H00 H01.
  pose proof Hwf as [[Hss Hms _ _] _ _].
  assert (Hf : StdMap.find (k0, maturity) (vol_surface_ md) = None).
  { apply not_recorded_not_stored; auto. right. rewrite Hm.
    rewrite Hm in Hms. apply between_not_In; tauto. }
  assert (Hfront : elem (strikes_ md) 0 = k0) by (now rewrite Hs).
  assert (Hback : k0 <= elem (strikes_ md) (pred (length (strikes_ md)))).
  { apply sorted_back; auto. rewrite Hs. now left. }
  rewrite (getVolatility_bracketed md k0 maturity k0 k0 t0 t1); auto.
  - assert (Hne : t0 <> t1) by lra.
    rewrite Reqb_true by reflexivity. rewrite (Reqb_false _ _ Hne).
    cbn [andb orb]. rewrite (get_vol_stored _ _ _ _ H00).
    cbn [bind]. rewrite (get_vol_stored _ _ _ _ H01). cbn [bind].
    rewrite div_collapsed by reflexivity. reflexivity.
  - rewrite Hs. simpl. lia.
  - rewrite Hm. apply app_two_length.
  - rewrite Hfront. lra.
  - rewrite Hm in *. apply between_in_range; auto; lra.
  - rewrite Hs. apply bracket_front.
  - rewrite Hm in *. apply bracket_between; auto; lra.
Qed.

End InterpolationFacts.

(** C3.  For every well-formed [MarketData] and every query strictly
    between the neighbouring strikes [k0 < k1] and the neighbouring
    maturities [t0 < t1]: when the four corners are stored the result is
    [(1-x)(1-y) v00 + (1-x) y v01 + x (1-y) v10 + x y v11] with
    [x = (strike-k0)/(k1-k0)] and [y = (maturity-t0)/(t1-t0)]; when one of
    them is not stored the query throws "Missing volatility point" at a
    corner that is not stored. *)
Theorem getVolatility_bilinear
  (md : MarketData.t) (pre_k post_k pre_t post_t : list R)
  (k0 k1 t0 t1 strike maturity : R) :
  Inv.wf md ->
  MarketData.strikes_ md = pre_k ++ k0 :: k1 :: post_k ->
  MarketData.maturities_ md = pre_t ++ t0 :: t1 :: post_t ->
  k0 < strike < k1 ->
  t0 < maturity < t1 ->
  (forall v00 v01 v10 v11,
     StdMap.find (k0, t0) (MarketData.vol_surface_ md) = Some v00 ->
     StdMap.find (k0, t1) (MarketData.vol_surface_ md) = Some v01 ->
     StdMap.find (k1, t0) (MarketData.vol_surface_ md) = Some v10 ->
     StdMap.find (k1, t1) (MarketData.vol_surface_ md) = Some v11 ->
     let x := (strike - k0) / (k1 - k0) in
     let y := (maturity - t0) / (t1 - t0) in
     MarketData.getVolatility md strike maturity
     = Ret (Fin ((1 - x) * (1 - y) * v00 + (1 - x) * y * v01
                 + x * (1 - y) * v10 + x * y * v11))) /\
  (forall k t,
     In (k, t) [(k0, t0); (k0, t1); (k1, t0); (k1, t1)] ->
     StdMap.find (k, t) (MarketData.vol_surface_ md) = None ->
     exists k' t',
       In (k', t') [(k0, t0); (k0, t1); (k1, t0); (k1, t1)] /\
       StdMap.find (k', t') (MarketData.vol_surface_ md) = None /\
       MarketData.getVolatility md strike maturity
       = Throw (MissingDataPoint k' t')).
Proof.
  intros Hwf Hs Hm Hk Ht.
  pose proof Hwf as [[Hss Hms _ _] _ _].
  assert (Hf : StdMap.find (strike, maturity) (MarketData.vol_surface_ md)
               = None).
  { apply not_recorded_not_stored; auto. left. rewrite Hs.
    rewrite Hs in Hss. apply between_not_In; tauto. }
  assert (Hget :
    MarketData.getVolatility md strike maturity
    = (v00 <- MarketData.get_vol md k0 t0 ;;
       v01 <- MarketData.get_vol md k0 t1 ;;
       v10 <- MarketData.get_vol md k1 t0 ;;
       v11 <- MarketData.get_vol md k1 t1 ;;
       Ret ((1 - (strike - k0) / (k1 - k0))
            * (1 - (maturity - t0) / (t1 - t0)) * v00 +
            (1 - (strike - k0) / (k1 - k0))
            * ((maturity - t0) / (t1 - t0)) * v01 +
            (strike - k0) / (k1 - k0)
            * (1 - (maturity - t0) / (t1 - t0)) * v10 +
            (strike - k0) / (k1 - k0)
            * ((maturity - t0) / (t1 - t0)) * v11)%fv)).
  { rewrite (getVolatility_bracketed md strike maturity k0 k1 t0 t1); auto.
    - rewrite (Reqb_false k0 k1), (Reqb_false t0 t1) by lra. reflexivity.
    - rewrite Hs. apply app_two_length.
    - rewrite Hm. apply app_two_length.
    - rewrite Hs in *. apply between_in_range; auto; lra.
    - rewrite Hm in *. apply between_in_range; auto; lra.
    - rewrite Hs in *. apply bracket_between; auto; lra.
    - rewrite Hm in *. apply bracket_between; auto; lra. }
  split.
  - intros v00 v01 v10 v11 H00 H01 H10 H11 x y. rewrite Hget.
    rewrite (get_vol_stored _ _ _ _ H00), (get_vol_stored _ _ _ _ H01),
      (get_vol_stored _ _ _ _ H10), (get_vol_stored _ _ _ _ H11).
    cbn [bind FP.sub FP.lift2].
    rewrite !div_Fin by lra. reflexivity.
  - intros k t Hin Hnone. rewrite Hget.
    destruct (StdMap.find (k0, t0) (MarketData.vol_surface_ md))
      as [v00|] eqn:H00.
    2:{ exists k0, t0. rewrite (get_vol_missing _ _ _ H00). simpl. auto. }
    destruct (StdMap.find (k0, t1) (MarketData.vol_surface_ md))
      as [v01|] eqn:H01.
    2:{ exists k0, t1. rewrite (get_vol_stored _ _ _ _ H00).
        rewrite (get_vol_missing _ _ _ H01). simpl. auto. }
    destruct (StdMap.find (k1, t0) (MarketData.vol_surface_ md))
      as [v10|] eqn:H10.
    2:{ exists k1, t0. rewrite (get_vol_stored _ _ _ _ H00).
        rewrite (get_vol_stored _ _ _ _ H01).
        rewrite (get_vol_missing _ _ _ H10). simpl. auto. }
    destruct (StdMap.find (k1, t1) (MarketData.vol_surface_ md))
      as [v11|] eqn:H11.
    2:{ exists k1, t1. rewrite (get_vol_stored _ _ _ _ H00).
        rewrite (get_vol_stored _ _ _ _ H01).
        rewrite (get_vol_stored _ _ _ _ H10).
        rewrite (get_vol_missing _ _ _ H11). simpl. auto 6. }
    exfalso. simpl in Hin.
    destruct Hin as [He|[He|[He|[He|[]]]]];
      injection He as <- <-; congruence.
Qed.

(** C3, on the test suite's grid: [getVolatility(125, 1.5)] is 0.2375, and
    without the corner [(100, 1)] the query throws. *)
Lemma getVolatility_bilinear_witness :
  MarketData.getVolatility Examples.grid 125 1.5 = Ret (Fin 0.2375) /\
  MarketData.getVolatility Examples.sparse_grid 125 1.5
  = Throw (MissingDataPoint 100 1).
Proof.
  split.
  - destruct (getVolatility_bilinear Examples.grid [] [] [] []
                100 150 1 2 125 1.5 wf_grid) as [Hfull _];
      try (rewrite grid_state; reflexivity); try lra.
    rewrite (Hfull 0.20 0.25 0.22 0.28);
      try (rewrite grid_state; md_eval; reflexivity).
    do 2 f_equal. lra.
  - destruct (getVolatility_bilinear Examples.sparse_grid [] [] [] []
                100 150 1 2 125 1.5 wf_sparse_grid) as [_ Hmissing];
      try (rewrite sparse_grid_state; reflexivity); try lra.
    destruct (Hmissing 100 1) as (k & t & Hin & Hnone & Hget).
    + simpl. auto.
    + rewrite sparse_grid_state. md_eval. reflexivity.
    + rewrite Hget. rewrite sparse_grid_state in Hnone.
      simpl in Hin.
      destruct Hin as [He|[He|[He|[He|[]]]]]; injection He as <- <-;
        try reflexivity; exfalso; revert Hnone; md_eval; discriminate.
Defined.

(* ================================================================== *)
(** * getVolatility on a boundary of the grid *)

(** C5.  What the code does on the test suite's grid at a boundary of the
    strike axis.  At the smallest strike, [getVolatility(100, 1.5)], the
    bracket collapses to [(100, 100)], the weight along the strikes is
    [(100-100)/(100-100)], and the result is not a number (not the 0.225
    that interpolation along the maturities gives).  At the largest strike
    the bracket does not collapse: it is [(100, 150)], and on the grid
    without the corner [(100, 1)] the query [getVolatility(150, 1.5)]
    throws "Missing volatility point" although [(150, 1)] and [(150, 2)]
    are stored.  When both brackets collapse, as for [getVolatility(100, 1)]
    on the grid without [(100, 1)], the grid point looked up is the query
    itself, which is not stored, and [at] throws [std::out_of_range]. *)
Theorem getVolatility_boundary_strike :
  MarketData.bracket (MarketData.strikes_ Examples.grid) 100 = (100, 100) /\
  MarketData.getVolatility Examples.grid 100 1.5 = Ret NaN /\
  MarketData.bracket (MarketData.strikes_ Examples.grid) 150 = (100, 150) /\
  MarketData.getVolatility Examples.sparse_grid 150 1.5
  = Throw (MissingDataPoint 100 1) /\
  MarketData.getVolatility Examples.sparse_grid 100 1 = Throw OutOfRange.
Proof.
  split; [|split; [|split; [|split]]].
  - rewrite grid_state. apply bracket_front.
  - apply (getVolatility_first_strike Examples.grid 100 150 [] [] 1 2 []
             1.5 0.20 0.25 wf_grid);
      try (rewrite grid_state; md_eval; reflexivity); lra.
  - rewrite grid_state. apply (bracket_between [] []).
    + repeat constructor; lra.
    + lra.
    + lra.
  - assert (Hf : StdMap.find (150, 1.5)
                   (MarketData.vol_surface_ Examples.sparse_grid) = None)
      by (rewrite sparse_grid_state; md_eval; reflexivity).
    rewrite (getVolatility_bracketed Examples.sparse_grid 150 1.5
               100 150 1 2 Hf);
      try (rewrite sparse_grid_state; simpl; lia);
      try (rewrite sparse_grid_state; unfold MarketData.elem; simpl; lra).
    + rewrite (Reqb_false 100 150), (Reqb_false 1 2) by lra.
      cbn [andb]. rewrite get_vol_missing; [reflexivity|].
      rewrite sparse_grid_state. md_eval. reflexivity.
    + rewrite sparse_grid_state. apply (bracket_between [] []).
      * repeat constructor; lra.
      * lra.
      * lra.
    + rewrite sparse_grid_state. apply (bracket_between [] []).
      * repeat constructor; lra.
      * lra.
      * lra.
  - assert (Hf : StdMap.find (100, 1)
                   (MarketData.vol_surface_ Examples.sparse_grid) = None)
      by (rewrite sparse_grid_state; md_eval; reflexivity).
    rewrite (getVolatility_bracketed Examples.sparse_grid 100 1
               100 100 1 1 Hf);
      try (rewrite sparse_grid_state; simpl; lia);
      try (rewrite sparse_grid_state; unfold MarketData.elem; simpl; lra);
      try (rewrite sparse_grid_state; apply bracket_front).
    rewrite !Reqb_true by reflexivity. cbn [andb].
    unfold StdMap.at_. now rewrite Hf.
Qed.

(* ================================================================== *)
(** * BlackScholesEngine *)

Section BlackScholesFacts.
Import BlackScholesEngine.

Lemma sqrt_2_neq_0 : sqrt 2 <> 0.
Proof. pose proof (sqrt_lt_R0 2). lra. Qed.

Lemma N_Fin (x : R) : N (Fin x) = Fin (Spec.N x).
Proof.
  unfold N. rewrite sqrt_Fin by lra.
  rewrite div_Fin by apply sqrt_2_neq_0. reflexivity.
Qed.

Lemma d1_Fin (S K r sigma T : R) :
  0 < S -> 0 < K -> 0 < T -> 0 < sigma ->
  d1 (Fin S) (Fin K) (Fin r) (Fin sigma) (Fin T)
  = Fin (Spec.d1 S K r sigma T).
Proof.
  intros HS HK HT Hsigma. unfold d1.
  assert (Hq : 0 < S / K) by (apply Rdiv_lt_0_compat; assumption).
  assert (Hsq : 0 < sqrt T) by (apply sqrt_lt_R0; assumption).
  assert (Hden : sigma * sqrt T <> 0).
  { apply Rmult_integral_contrapositive_currified; lra. }
  rewrite div_Fin by lra. rewrite log_Fin by assumption.
  rewrite sqrt_Fin by lra. cbn [FP.add FP.mul FP.lift2].
  rewrite div_Fin by assumption. unfold Spec.d1.
  replace (0.5 * sigma * sigma) with (sigma ^ 2 / 2) by (simpl; lra).
  reflexivity.
Qed.

Lemma d2_Fin (S K r sigma T : R) :
  0 < S -> 0 < K -> 0 < T -> 0 < sigma ->
  d2 (Fin S) (Fin K) (Fin r) (Fin sigma) (Fin T)
  = Fin (Spec.d2 S K r sigma T).
Proof.
  intros HS HK HT Hsigma. unfold d2. rewrite d1_Fin by assumption.
  rewrite sqrt_Fin by lra. reflexivity.
Qed.

(** The price on valid parameters and a finite rate and volatility. *)
Lemma calculatePrice_value (p : Parameters) (md : MarketData.t)
      (r sigma : R) :
  0 < spotPrice_ p -> 0 < strike_ p -> 0 < maturity_ p ->
  MarketData.getRiskFreeRate md (maturity_ p) = Ret (Fin r) ->
  MarketData.getVolatility md (strike_ p) (maturity_ p) = Ret (Fin sigma) ->
  0 < sigma ->
  calculatePrice p md
  = Ret (Fin (if isCall_ p
              then Spec.call (spotPrice_ p) (strike_ p) r sigma (maturity_ p)
              else Spec.put (spotPrice_ p) (strike_ p) r sigma
                            (maturity_ p))).
Proof.
  intros HS HK HT Hr Hv Hsigma. unfold calculatePrice.
  rewrite Hr, Hv. cbn [bind].
  rewrite d1_Fin, d2_Fin by assumption.
  destruct (isCall_ p).
  - rewrite !N_Fin. cbn [FP.opp FP.lift1 FP.mul FP.sub FP.lift2 FP.exp].
    unfold Spec.call.
    replace (- r * maturity_ p) with (- (r * maturity_ p)) by ring.
    reflexivity.
  - cbn [FP.opp FP.lift1]. rewrite !N_Fin.
    cbn [FP.mul FP.sub FP.lift2 FP.exp FP.lift1].
    unfold Spec.put.
    replace (- r * maturity_ p) with (- (r * maturity_ p)) by ring.
    reflexivity.
Qed.

Lemma N_opp (x : R) : Spec.N (- x) = 1 - Spec.N x.
Proof.
  unfold Spec.N.
  replace (- x / sqrt 2) with (- (x / sqrt 2))
    by (field; apply sqrt_2_neq_0).
  rewrite erf_opp. lra.
Qed.

Lemma call_minus_put (S K r sigma T : R) :
  Spec.call S K r sigma T - Spec.put S K r sigma T
  = S - K * exp (- (r * T)).
Proof. unfold Spec.call, Spec.put. rewrite !N_opp. ring. Qed.

(** At zero maturity and spot equal to strike [d1] is [0/0]. *)
Lemma d1_at_expiry (S r sigma : R) :
  0 < S -> d1 (Fin S) (Fin S) (Fin r) (Fin sigma) (Fin 0) = NaN.
Proof.
  intro HS. unfold d1. rewrite div_Fin by lra.
  assert (Hone : S / S = 1) by (field; lra).
  rewrite Hone, log_Fin by lra. rewrite sqrt_Fin by lra.
  cbn [FP.add FP.mul FP.lift2]. rewrite ln_1, sqrt_0.
  unfold FP.div.
  destruct (Req_dec_T (sigma * 0) 0) as [_|Hn]; [|elim Hn; ring].
  destruct (Req_dec_T (0 + (r + 0.5 * sigma * sigma) * 0) 0) as [_|Hn];
    [reflexivity|elim Hn; ring].
Qed.

Lemma calculatePrice_at_expiry (notional S r sigma : R) (isCall : bool)
      (md : MarketData.t) :
  0 < S ->
  MarketData.getRiskFreeRate md 0 = Ret (Fin r) ->
  MarketData.getVolatility md S 0 = Ret (Fin sigma) ->
  calculatePrice (mkParameters notional S 0 S isCall) md = Ret NaN.
Proof.
  intros HS Hr Hv. unfold calculatePrice. cbn [spotPrice_ strike_ maturity_].
  rewrite Hr, Hv. cbn [bind isCall_]. unfold d2.
  rewrite d1_at_expiry by assumption.
  destruct isCall; reflexivity.
Qed.

End BlackScholesFacts.

Section MarketExample.
Import MarketData Examples.

Lemma market_rate (time : R) : getRiskFreeRate market time = Ret (Fin 0.05).
Proof.
  apply getRiskFreeRate_single with (t0 := 1). now rewrite market_state.
Qed.

Lemma market_volatility (strike maturity : R) :
  getVolatility market strike maturity = Ret (Fin 0.20).
Proof.
  destruct (StdMap.find (strike, maturity) (vol_surface_ market))
    as [v|] eqn:Hf.
  - rewrite (getVolatility_exact _ _ _ _ Hf).
    rewrite market_state in Hf. simpl in Hf.
    destruct (pair_less_dec (100, 1) (strike, maturity));
      [discriminate|].
    destruct (pair_less_dec (strike, maturity) (100, 1));
      [discriminate|]. now injection Hf as <-.
  - apply getVolatility_single with (k0 := 100) (t0 := 1); auto;
      rewrite market_state; md_eval; reflexivity.
Qed.

End MarketExample.

(** C1.  For every instrument whose spot [S], strike [K] and maturity [T]
    are positive and every market snapshot whose [getRiskFreeRate(T)]
    returns [r] and whose [getVolatility(K, T)] returns [sigma > 0],
    [calculatePrice] returns [S N(d1) - K e^(-rT) N(d2)] for a call and
    [K e^(-rT) N(-d2) - S N(-d1)] for a put, with [d1], [d2] and [N] as the
    specification defines them. *)
Theorem calculatePrice_formula
  (p : Parameters) (md : MarketData.t) (r sigma : R) :
  0 < spotPrice_ p -> 0 < strike_ p -> 0 < maturity_ p ->
  MarketData.getRiskFreeRate md (maturity_ p) = Ret (Fin r) ->
  MarketData.getVolatility md (strike_ p) (maturity_ p) = Ret (Fin sigma) ->
  0 < sigma ->
  let S := spotPrice_ p in
  let K := strike_ p in
  let T := maturity_ p in
  let d1 := (ln (S / K) + (r + sigma ^ 2 / 2) * T) / (sigma * sqrt T) in
  let d2 := d1 - sigma * sqrt T in
  let N := fun x => 0.5 * (1 + erf (x / sqrt 2)) in
  BlackScholesEngine.calculatePrice p md
  = Ret (Fin (if isCall_ p
              then S * N d1 - K * exp (- (r * T)) * N d2
              else K * exp (- (r * T)) * N (- d2) - S * N (- d1))).
Proof.
  intros HS HK HT Hr Hv Hsigma S K T d1 d2 N.
  now rewrite (calculatePrice_value p md r sigma).
Qed.

(** C1, on the pricing tests' market: the at-the-money call and put at
    [S = K = 100], [T = 1], [r = 0.05], [sigma = 0.20]. *)
Lemma calculatePrice_formula_witness :
  BlackScholesEngine.calculatePrice Examples.call_option Examples.market
  = Ret (Fin (Spec.call 100 100 0.05 0.20 1)) /\
  BlackScholesEngine.calculatePrice Examples.put_option Examples.market
  = Ret (Fin (Spec.put 100 100 0.05 0.20 1)).
Proof.
  split.
  - apply (calculatePrice_formula Examples.call_option Examples.market
             0.05 0.20); simpl; try lra.
    + apply market_rate.
    + apply market_volatility.
  - apply (calculatePrice_formula Examples.put_option Examples.market
             0.05 0.20); simpl; try lra.
    + apply market_rate.
    + apply market_volatility.
Defined.

(* ================================================================== *)
(** * Put-call parity *)

(** C4 as stated fails.  On the pricing tests' market the rate at maturity
    0 is 0.05 and the volatility at [(100, 0)] is 0.20, both by flat
    extrapolation from the one stored point; for spot 100, strike 100 and
    maturity 0 the engine computes [d1 = 0/0], so the call and the put
    prices are not numbers and their difference is not [100 - 100 e^0]. *)
Lemma put_call_parity_counterexample :
  MarketData.getRiskFreeRate Examples.market 0 = Ret (Fin 0.05) /\
  MarketData.getVolatility Examples.market 100 0 = Ret (Fin 0.20) /\
  0 < 0.20 /\
  BlackScholesEngine.calculatePrice (mkParameters 1 100 0 100 true)
    Examples.market = Ret NaN /\
  BlackScholesEngine.calculatePrice (mkParameters 1 100 0 100 false)
    Examples.market = Ret NaN /\
  ~ put_call_parity 100 100 0 Examples.market 0.05.
Proof.
  assert (Hprice : forall isCall,
    BlackScholesEngine.calculatePrice (mkParameters 1 100 0 100 isCall)
      Examples.market = Ret NaN).
  { intro isCall.
    apply calculatePrice_at_expiry with (r := 0.05) (sigma := 0.20).
    - lra.
    - apply market_rate.
    - apply market_volatility. }
  repeat split.
  - apply market_rate.
  - apply market_volatility.
  - lra.
  - apply Hprice.
  - apply Hprice.
  - intro Hparity. destruct (Hparity 1) as (c & p & Hc & Hp & Hdiff).
    rewrite Hprice in Hc. injection Hc as <-. discriminate.
Qed.

(** C4, amended.  For every spot [S > 0], strike [K > 0] and maturity
    [T > 0] and every market snapshot whose rate at [T] is [r] and whose
    volatility at [(K, T)] is [sigma > 0], the prices of the call and of the
    put that differ in [isCall] only are numbers, and their difference is
    [S - K e^(-rT)]. *)
Theorem put_call_parity_valid
  (S K T : R) (md : MarketData.t) (r sigma : R) :
  0 < S -> 0 < K -> 0 < T ->
  MarketData.getRiskFreeRate md T = Ret (Fin r) ->
  MarketData.getVolatility md K T = Ret (Fin sigma) ->
  0 < sigma ->
  put_call_parity S K T md r.
Proof.
  intros HS HK HT Hr Hv Hsigma notional.
  exists (Fin (Spec.call S K r sigma T)), (Fin (Spec.put S K r sigma T)).
  split; [|split].
  - now rewrite (calculatePrice_value (mkParameters notional K T S true)
                   md r sigma).
  - now rewrite (calculatePrice_value (mkParameters notional K T S false)
                   md r sigma).
  - cbn [FP.sub FP.lift2]. f_equal. apply call_minus_put.
Qed.

(** C4 amended, on the pricing tests' market at [S = K = 100], [T = 1]. *)
Lemma put_call_parity_valid_witness :
  put_call_parity 100 100 1 Examples.market 0.05.
Proof.
  apply (put_call_parity_valid 100 100 1 Examples.market 0.05 0.20);
    try lra.
  - apply market_rate.
  - apply market_volatility.
Defined.

(* ================================================================== *)
(** * The Greeks *)

Section GreeksFacts.

Lemma greeks_keys (delta gamma vega theta rho : fval) :
  StdMap.keys
    (StdMap.insert "rho"%string rho
       (StdMap.insert "theta"%string theta
          (StdMap.insert "vega"%string vega
             (StdMap.insert "gamma"%string gamma
                (StdMap.insert "delta"%string delta StdMap.empty)))))
  = ["delta"; "gamma"; "rho"; "theta"; "vega"]%string.
Proof. reflexivity. Qed.

End GreeksFacts.

(** C10.  Whenever [calculateGreeks] returns, for a call and for a put, the
    keys of the map it returns are "delta", "gamma", "rho", "theta" and
    "vega" (in the order of iteration): the five names of the Greeks, each
    once, and no other key.  It returns whenever [getRiskFreeRate] and
    [getVolatility] do. *)
Theorem calculateGreeks_keys (p : Parameters) (md : MarketData.t) :
  (forall greeks,
     BlackScholesEngine.calculateGreeks p md = Ret greeks ->
     StdMap.keys greeks = ["delta"; "gamma"; "rho"; "theta"; "vega"]%string /\
     (forall name, In name (StdMap.keys greeks) <-> In name Spec.greek_names)
     /\ NoDup (StdMap.keys greeks)) /\
  (forall r sigma,
     MarketData.getRiskFreeRate md (maturity_ p) = Ret r ->
     MarketData.getVolatility md (strike_ p) (maturity_ p) = Ret sigma ->
     exists greeks, BlackScholesEngine.calculateGreeks p md = Ret greeks).
Proof.
  split.
  - intros greeks. unfold BlackScholesEngine.calculateGreeks.
    destruct (MarketData.getRiskFreeRate md (maturity_ p)) as [r|e];
      [|discriminate].
    destruct (MarketData.getVolatility md (strike_ p) (maturity_ p))
      as [sigma|e]; [|discriminate].
    cbn [bind]. cbv zeta. intro Hret.
    assert (Hkeys : StdMap.keys greeks
                    = ["delta"; "gamma"; "rho"; "theta"; "vega"]%string).
    { destruct (isCall_ p); injection Hret as <-; apply greeks_keys. }
    rewrite Hkeys. split; [reflexivity|]. split.
    + intro name. unfold Spec.greek_names. simpl. tauto.
    + repeat constructor; simpl; intuition discriminate.
  - intros r sigma Hr Hv. unfold BlackScholesEngine.calculateGreeks.
    rewrite Hr, Hv. cbn [bind]. cbv zeta.
    destruct (isCall_ p); eauto.
Qed.

(** C10, on the pricing tests' market: the Greeks of the at-the-money call
    and of the put. *)
Lemma calculateGreeks_keys_witness :
  (exists greeks,
     BlackScholesEngine.calculateGreeks Examples.call_option Examples.market
     = Ret greeks /\
     StdMap.keys greeks = ["delta"; "gamma"; "rho"; "theta"; "vega"]%string)
  /\
  (exists greeks,
     BlackScholesEngine.calculateGreeks Examples.put_option Examples.market
     = Ret greeks /\
     StdMap.keys greeks = ["delta"; "gamma"; "rho"; "theta"; "vega"]%string).
Proof.
  split.
  - destruct (calculateGreeks_keys Examples.call_option Examples.market)
      as [Hkeys Hreturns].
    destruct (Hreturns (Fin 0.05) (Fin 0.20)) as [greeks Hg].
    + apply market_rate.
    + apply market_volatility.
    + exists greeks. split; [exact Hg|]. now apply Hkeys.
  - destruct (calculateGreeks_keys Examples.put_option Examples.market)
      as [Hkeys Hreturns].
    destruct (Hreturns (Fin 0.05) (Fin 0.20)) as [greeks Hg].
    + apply market_rate.
    + apply market_volatility.
    + exists greeks. split; [exact Hg|]. now apply Hkeys.
Defined.

(* ================================================================== *)
(** * EuropeanStockOption *)

Section OptionFacts.
Import EuropeanStockOption.

Lemma getRiskFreeRate_error md time e :
  MarketData.getRiskFreeRate md time = Throw e -> e = EmptyCurve.
Proof.
  unfold MarketData.getRiskFreeRate.
  repeat match goal with
         | |- context [if ?b then _ else _] => destruct b
         end; intro He; try discriminate; now injection He.
Qed.

Lemma at_error {K V : Type} `{Less K} (k : K) (m : @StdMap.t K V) e :
  StdMap.at_ k m = Throw e -> e = OutOfRange.
Proof.
  unfold StdMap.at_. destruct (StdMap.find k m); intro He;
    [discriminate|now injection He].
Qed.

Lemma get_vol_error md k t e :
  MarketData.get_vol md k t = Throw e -> e = MissingDataPoint k t.
Proof.
  unfold MarketData.get_vol.
  destruct (StdMap.at_ (k, t) (MarketData.vol_surface_ md)) as [v|e'] eqn:Ha;
    [discriminate|].
  apply at_error in Ha. subst e'. intro He. now injection He.
Qed.

Lemma bind_error {A B : Type} (c : result A) (k : A -> result B) e :
  bind c k = Throw e ->
  c = Throw e \/ exists a, c = Ret a /\ k a = Throw e.
Proof.
  destruct c as [a|e']; simpl; intro He; [right; eauto|left].
  now injection He as ->.
Qed.

(** The market data never throws "Pricing engine not set". *)
Lemma getVolatility_error md strike maturity :
  MarketData.getVolatility md strike maturity <> Throw EngineNotSet.
Proof.
  unfold MarketData.getVolatility.
  destruct (StdMap.find _ _); [discriminate|].
  cbv zeta.
  destruct (MarketData.bracket (MarketData.strikes_ md) strike) as [k0 k1].
  destruct (MarketData.bracket (MarketData.maturities_ md) maturity)
    as [t0 t1].
  repeat match goal with
         | |- context [if ?b then _ else _] => destruct b
         end; try discriminate;
    intro He;
    repeat match goal with
           | He : bind _ _ = Throw _ |- _ =>
               apply bind_error in He; destruct He as [He|(? & _ & He)]
           | He : StdMap.at_ _ _ = Throw _ |- _ =>
               apply at_error in He; discriminate
           | He : MarketData.get_vol _ _ _ = Throw _ |- _ =>
               apply get_vol_error in He; discriminate
           | He : Ret _ = Throw _ |- _ => discriminate
           end.
Qed.

Lemma calculatePrice_error p md :
  BlackScholesEngine.calculatePrice p md <> Throw EngineNotSet.
Proof.
  unfold BlackScholesEngine.calculatePrice. intro He.
  apply bind_error in He. destruct He as [He|(r & _ & He)].
  - apply getRiskFreeRate_error in He. discriminate.
  - apply bind_error in He. destruct He as [He|(sigma & _ & He)].
    + now apply getVolatility_error in He.
    + cbv zeta in He. destruct (isCall_ p); discriminate.
Qed.

Lemma calculateGreeks_error p md :
  BlackScholesEngine.calculateGreeks p md <> Throw EngineNotSet.
Proof.
  unfold BlackScholesEngine.calculateGreeks. intro He.
  apply bind_error in He. destruct He as [He|(r & _ & He)].
  - apply getRiskFreeRate_error in He. discriminate.
  - apply bind_error in He. destruct He as [He|(sigma & _ & He)].
    + now apply getVolatility_error in He.
    + cbv zeta in He. destruct (isCall_ p); discriminate.
Qed.

Lemma validate_valid o :
  valid_parameters (params_ o) -> validate o = Ret tt.
Proof.
  intros (H1 & H2 & H3 & H4). unfold validate.
  rewrite !Rleb_false by lra. reflexivity.
Qed.

Lemma new_valid params o :
  new params = Ret o ->
  valid_parameters params /\ o = mk params None MarketData.empty.
Proof.
  unfold new, validate, valid_parameters. cbn [params_].
  destruct (Rle_dec (strike_ params) 0) as [H1|H1];
    [rewrite Rleb_true by assumption; discriminate|].
  destruct (Rle_dec (maturity_ params) 0) as [H2|H2];
    [rewrite (Rleb_false _ _ H1), Rleb_true by assumption; discriminate|].
  destruct (Rle_dec (spotPrice_ params) 0) as [H3|H3];
    [rewrite (Rleb_false _ _ H1), (Rleb_false _ _ H2), Rleb_true
       by assumption; discriminate|].
  destruct (Rle_dec (notional_ params) 0) as [H4|H4];
    [rewrite (Rleb_false _ _ H1), (Rleb_false _ _ H2),
       (Rleb_false _ _ H3), Rleb_true by assumption; discriminate|].
  rewrite !Rleb_false by assumption. cbn [bind].
  intro Hret. injection Hret as <-. split; [lra|reflexivity].
Qed.

Lemma step_params o c : params_ (step o c) = params_ o.
Proof. destruct c; reflexivity. Qed.

Lemma fold_step_params cs : forall o,
  params_ (fold_left step cs o) = params_ o.
Proof.
  induction cs as [|c cs IH]; simpl; intro o; auto.
  now rewrite IH, step_params.
Qed.

End OptionFacts.

(** C9.  Construction throws [std::invalid_argument] with the message of the
    first of strike, maturity, spot price and notional that is not positive
    (a strike of -100 gives "Strike price must be positive") and returns an
    option otherwise; so every option that exists, whatever engines and
    market data it was given since, has valid parameters.  On such an
    option, without an engine [price()] and [greeks()] throw "Pricing
    engine not set"; with an engine [price()] is the engine's
    [calculatePrice] times the notional and [greeks()] is the engine's
    [calculateGreeks], so a "Pricing engine not set" could only be the
    engine's own, and [BlackScholesEngine] throws none. *)
Theorem option_validates_and_delegates :
  (forall params : Parameters,
     (strike_ params <= 0 ->
      EuropeanStockOption.new params
      = Throw (InvalidArgument "Strike price must be positive")) /\
     (0 < strike_ params -> maturity_ params <= 0 ->
      EuropeanStockOption.new params
      = Throw (InvalidArgument "Time to maturity must be positive")) /\
     (0 < strike_ params -> 0 < maturity_ params -> spotPrice_ params <= 0 ->
      EuropeanStockOption.new params
      = Throw (InvalidArgument "Stock spot price must be positive")) /\
     (0 < strike_ params -> 0 < maturity_ params -> 0 < spotPrice_ params ->
      notional_ params <= 0 ->
      EuropeanStockOption.new params
      = Throw (InvalidArgument "Contract notional must be positive")) /\
     (valid_parameters params ->
      EuropeanStockOption.new params
      = Ret (EuropeanStockOption.mk params None MarketData.empty))) /\
  EuropeanStockOption.new (mkParameters 1 (-100) 1 100 true)
  = Throw (InvalidArgument "Strike price must be positive") /\
  (forall (params : Parameters) (o : EuropeanStockOption.t)
          (cs : list EuropeanStockOption.call),
     EuropeanStockOption.new params = Ret o ->
     let o' := fold_left EuropeanStockOption.step cs o in
     let p := EuropeanStockOption.getParameters o' in
     let md := EuropeanStockOption.marketData_ o' in
     valid_parameters p /\
     EuropeanStockOption.validate o' = Ret tt /\
     (EuropeanStockOption.pricingEngine_ o' = None ->
      EuropeanStockOption.price o' = Throw EngineNotSet /\
      EuropeanStockOption.greeks o' = Throw EngineNotSet) /\
     (forall engine,
        EuropeanStockOption.pricingEngine_ o' = Some engine ->
        EuropeanStockOption.price o'
        = (unit_price <- calculatePrice engine p md ;;
           Ret (unit_price * notional_ p)%fv) /\
        EuropeanStockOption.greeks o' = calculateGreeks engine p md /\
        (EuropeanStockOption.price o' = Throw EngineNotSet <->
         calculatePrice engine p md = Throw EngineNotSet) /\
        (EuropeanStockOption.greeks o' = Throw EngineNotSet <->
         calculateGreeks engine p md = Throw EngineNotSet)) /\
     (EuropeanStockOption.pricingEngine_ o' = Some BlackScholesEngine.make ->
      EuropeanStockOption.price o' <> Throw EngineNotSet /\
      EuropeanStockOption.greeks o' <> Throw EngineNotSet)).
Proof.
  split; [|split].
  - intro params. unfold EuropeanStockOption.new, EuropeanStockOption.validate.
    cbn [EuropeanStockOption.params_]. repeat split.
    + intro H1. now rewrite Rleb_true.
    + intros H1 H2. now rewrite Rleb_false, Rleb_true by lra.
    + intros H1 H2 H3. now rewrite !Rleb_false, Rleb_true by lra.
    + intros H1 H2 H3 H4. now rewrite !Rleb_false, Rleb_true by lra.
    + intros (H1 & H2 & H3 & H4). now rewrite !Rleb_false by lra.
  - unfold EuropeanStockOption.new, EuropeanStockOption.validate.
    cbn [EuropeanStockOption.params_ strike_]. now rewrite Rleb_true by lra.
  - intros params o cs Hnew o' p md.
    apply new_valid in Hnew. destruct Hnew as [Hvalid ->].
    assert (Hp : p = params).
    { subst p o'. unfold EuropeanStockOption.getParameters.
      now rewrite fold_step_params. }
    split; [now rewrite Hp|]. split.
    { apply validate_valid. fold (EuropeanStockOption.getParameters o').
      fold p. now rewrite Hp. }
    split; [|split].
    + intro Hnone. unfold EuropeanStockOption.price, EuropeanStockOption.greeks.
      now rewrite Hnone.
    + intros engine Hsome.
      unfold EuropeanStockOption.price, EuropeanStockOption.greeks.
      rewrite Hsome. fold p md. repeat split; auto.
      * intro He. apply bind_error in He.
        destruct He as [He|(a & _ & He)]; [exact He|discriminate].
      * intro He. now rewrite He.
    + intro Hbs.
      unfold EuropeanStockOption.price, EuropeanStockOption.greeks.
      rewrite Hbs. cbn [calculatePrice calculateGreeks BlackScholesEngine.make].
      split.
      * intro He. apply bind_error in He.
        destruct He as [He|(a & _ & He)]; [|discriminate].
        now apply calculatePrice_error in He.
      * apply calculateGreeks_error.
Qed.

(** C9, on the option of the pricing workflow test: notional 1, strike 100,
    maturity 1, spot 100, call.  Before an engine is set [price()] throws;
    with the Black-Scholes engine and the test's market it is the
    Black-Scholes call price times 1. *)
Lemma option_validates_and_delegates_witness :
  exists o,
    EuropeanStockOption.new Examples.call_option = Ret o /\
    EuropeanStockOption.price o = Throw EngineNotSet /\
    EuropeanStockOption.price
      (EuropeanStockOption.updateMarketData Examples.market
         (EuropeanStockOption.setPricingEngine
            (Some BlackScholesEngine.make) o))
    = Ret (Fin (Spec.call 100 100 0.05 0.20 1 * 1)).
Proof.
  destruct option_validates_and_delegates as (Hnew & _ & Hlive).
  destruct (Hnew Examples.call_option) as (_ & _ & _ & _ & Hok).
  assert (Hvalid : valid_parameters Examples.call_option)
    by (unfold valid_parameters; simpl; lra).
  specialize (Hok Hvalid).
  exists (EuropeanStockOption.mk Examples.call_option None MarketData.empty).
  split; [exact Hok|]. split.
  - destruct (Hlive _ _ [] Hok) as (_ & _ & Hnone & _).
    now apply Hnone.
  - destruct (Hlive _ _
                [EuropeanStockOption.SetPricingEngine
                   (Some BlackScholesEngine.make);
                 EuropeanStockOption.UpdateMarketData Examples.market]
                Hok) as (_ & _ & _ & Hsome & _).
    destruct (Hsome BlackScholesEngine.make eq_refl) as (Hprice & _).
    simpl in Hprice. simpl. rewrite Hprice.
    rewrite (calculatePrice_value Examples.call_option Examples.market
               0.05 0.20); simpl; try lra.
    + reflexivity.
    + apply market_rate.
    + apply market_volatility.
Defined.

(* ================================================================== *)
(** * Further facts about [MarketData] *)

(** ** The yield curve: positions of a query, bounds, stored values *)

Section CurveBounds.
Import MarketData.

Lemma curve_position (curve : list (R * R)) (time : R) :
  curve <> [] ->
  (exists t0 r0 rest, curve = (t0, r0) :: rest /\ time < t0) \/
  (exists pre tn rn,
     curve = pre ++ [(tn, rn)] /\
     Forall (fun k => ~ time < k) (StdMap.keys curve)) \/
  (exists pre t0 r0 t1 r1 post,
     curve = pre ++ (t0, r0) :: (t1, r1) :: post /\ t0 <= time < t1).
Proof.
  induction curve as [|[a ra] tl IH]; intro Hne; [congruence|].
  destruct (Rlt_dec time a) as [Hlt|Hge].
  - left. eauto.
  - right. destruct tl as [|[b rb] tl'].
    + left. exists [], a, ra. split; [reflexivity|].
      constructor; [exact Hge|constructor].
    + destruct IH as [(t0 & r0 & rest & He & Hlt)|
                      [(pre & tn & rn & He & Hall)|
                       (pre & t0 & r0 & t1 & r1 & post & He & Hin)]];
        try discriminate.
      * right. exists [], a, ra, t0, r0, rest. rewrite He. split; [reflexivity|lra].
      * left. exists ((a, ra) :: pre), tn, rn. rewrite He. split; [reflexivity|].
        constructor; [exact Hge|]. rewrite <- He. exact Hall.
      * right. exists ((a, ra) :: pre), t0, r0, t1, r1, post.
        rewrite He. split; [reflexivity|exact Hin].
Qed.

Lemma interpolation_between (t0 r0 t1 r1 time : R) :
  t0 <= time < t1 ->
  Rmin r0 r1 <= r0 + (time - t0) / (t1 - t0) * (r1 - r0) <= Rmax r0 r1.
Proof.
  intro Hin.
  assert (Hd : 0 < t1 - t0) by lra.
  set (alpha := (time - t0) / (t1 - t0)).
  assert (Ha0 : 0 <= alpha).
  { unfold alpha, Rdiv. apply Rmult_le_pos; [lra|].
    left. now apply Rinv_0_lt_compat. }
  assert (Ha1 : alpha <= 1).
  { unfold alpha. apply (Rmult_le_reg_r (t1 - t0)); [exact Hd|].
    unfold Rdiv. rewrite Rmult_assoc, Rinv_l by lra. lra. }
  unfold Rmin, Rmax. destruct (Rle_dec r0 r1); split; nra.
Qed.

End CurveBounds.

Section CurveTheorems.
Import MarketData.

Lemma In_snd {A B : Type} (p : A * B) (l : list (A * B)) :
  In p l -> In (snd p) (map snd l).
Proof. intro Hin. now apply in_map. Qed.

Lemma getRiskFreeRate_bounded md time :
  StdMap.sorted (yield_curve_ md) -> yield_curve_ md <> [] ->
  exists r lo hi,
    getRiskFreeRate md time = Ret (Fin r) /\
    In lo (map snd (yield_curve_ md)) /\
    In hi (map snd (yield_curve_ md)) /\
    lo <= r <= hi.
Proof.
  intros Hs Hne.
  destruct (curve_position (yield_curve_ md) time Hne)
    as [(t0 & r0 & rest & He & Hlt)|
        [(pre & tn & rn & He & Hall)|
         (pre & t0 & r0 & t1 & r1 & post & He & Hin)]].
  - exists r0, r0, r0. rewrite (getRiskFreeRate_below md t0 r0 rest time He Hlt).
    rewrite He. simpl. repeat split; auto; lra.
  - exists rn, rn, rn.
    rewrite (getRiskFreeRate_above md pre tn rn time He) by (now rewrite <- He).
    assert (Hi : In rn (map snd (yield_curve_ md))).
    { rewrite He, map_app. apply in_or_app. right. now left. }
    repeat split; auto; lra.
  - assert (H0 : In r0 (map snd (yield_curve_ md))).
    { rewrite He, map_app. apply in_or_app. right. now left. }
    assert (H1 : In r1 (map snd (yield_curve_ md))).
    { rewrite He, map_app. apply in_or_app. right. right. now left. }
    rewrite (getRiskFreeRate_between md pre t0 r0 t1 r1 post time He Hs)
      by tauto.
    destruct (t1 - t0 <? epsilon).
    + exists r0, r0, r0. repeat split; auto; lra.
    + exists (Spec.linear t0 r0 t1 r1 time), (Rmin r0 r1), (Rmax r0 r1).
      split; [reflexivity|]. split; [|split].
      * unfold Rmin. destruct (Rle_dec r0 r1); assumption.
      * unfold Rmax. destruct (Rle_dec r0 r1); assumption.
      * apply interpolation_between. exact Hin.
Qed.

End CurveTheorems.

Section StoredValid.
Import MarketData.






End StoredValid.

(** ** The volatility surface: brackets and the cases of a query *)

Section Brackets.
Import MarketData.

Lemma vector_position (v : list R) (x : R) :
  v <> [] ->
  elem v 0 <= x <= elem v (pred (length v)) ->
  x = elem v 0 \/
  exists pre k0 k1 post, v = pre ++ k0 :: k1 :: post /\ k0 < x <= k1.
Proof.
  induction v as [|a tl IH]; intros Hne Hin; [congruence|].
  unfold elem in Hin. simpl in Hin.
  destruct (Req_dec_T x a) as [He|Hneq]; [left; exact He|].
  right. destruct tl as [|b tl'].
  - simpl in Hin. lra.
  - destruct (Rle_dec x b) as [Hle|Hgt].
    + exists [], a, b, tl'. split; [reflexivity|lra].
    + destruct IH as [He|(pre & k0 & k1 & post & He & Hk)].
      * discriminate.
      * unfold elem. simpl. simpl in Hin. lra.
      * unfold elem in He. simpl in He. lra.
      * exists (a :: pre), k0, k1, post. rewrite He. split; [reflexivity|exact Hk].
Qed.

Lemma bracket_spec (v : list R) (x : R) :
  StronglySorted Rlt v -> v <> [] ->
  elem v 0 <= x <= elem v (pred (length v)) ->
  (x = elem v 0 /\ bracket v x = (x, x)) \/
  (exists pre k0 k1 post,
     v = pre ++ k0 :: k1 :: post /\ k0 < x <= k1 /\ bracket v x = (k0, k1)).
Proof.
  intros Hs Hne Hin.
  destruct (vector_position v x Hne Hin)
    as [He|(pre & k0 & k1 & post & He & Hk)].
  - left. split; [exact He|].
    destruct v as [|a tl]; [congruence|].
    unfold elem in He. simpl in He. subst a. apply bracket_front.
  - right. exists pre, k0, k1, post. split; [exact He|]. split; [exact Hk|].
    rewrite He in *. apply bracket_between; tauto.
Qed.

End Brackets.

Section Classification.
Import MarketData.

(** What a query past the guards computes, by the position of its strike
    and of its maturity on their axes. *)
Lemma getVolatility_in_range md strike maturity :
  Inv.wf md ->
  StdMap.find (strike, maturity) (vol_surface_ md) = None ->
  (2 <= length (strikes_ md))%nat -> (2 <= length (maturities_ md))%nat ->
  elem (strikes_ md) 0 <= strike
  <= elem (strikes_ md) (pred (length (strikes_ md))) ->
  elem (maturities_ md) 0 <= maturity
  <= elem (maturities_ md) (pred (length (maturities_ md))) ->
  (strike = elem (strikes_ md) 0 /\ maturity = elem (maturities_ md) 0 /\
   getVolatility md strike maturity = Throw OutOfRange) \/
  (strike = elem (strikes_ md) 0 /\
   exists pre t0 t1 post,
     maturities_ md = pre ++ t0 :: t1 :: post /\ t0 < maturity <= t1 /\
     getVolatility md strike maturity
     = (v00 <- get_vol md strike t0 ;;
        v01 <- get_vol md strike t1 ;; Ret NaN)) \/
  (maturity = elem (maturities_ md) 0 /\
   exists pre k0 k1 post,
     strikes_ md = pre ++ k0 :: k1 :: post /\ k0 < strike <= k1 /\
     getVolatility md strike maturity
     = (v00 <- get_vol md k0 maturity ;;
        v10 <- get_vol md k1 maturity ;; Ret NaN)) \/
  (exists pre_k k0 k1 post_k pre_t t0 t1 post_t,
     strikes_ md = pre_k ++ k0 :: k1 :: post_k /\ k0 < strike <= k1 /\
     maturities_ md = pre_t ++ t0 :: t1 :: post_t /\ t0 < maturity <= t1 /\
     getVolatility md strike maturity
     = (v00 <- get_vol md k0 t0 ;;
        v01 <- get_vol md k0 t1 ;;
        v10 <- get_vol md k1 t0 ;;
        v11 <- get_vol md k1 t1 ;;
        let x := (strike - k0) / (k1 - k0) in
        let y := (maturity - t0) / (t1 - t0) in
        Ret (Fin ((1 - x) * (1 - y) * v00 + (1 - x) * y * v01
                  + x * (1 - y) * v10 + x * y * v11)))).
Proof.
  intros Hwf Hf Hls Hlm Hk Ht.
  pose proof Hwf as [[Hss Hms _ _] _ _].
  assert (Hsne : strikes_ md <> []) by (destruct (strikes_ md); simpl in *; [lia|discriminate]).
  assert (Hmne : maturities_ md <> []) by (destruct (maturities_ md); simpl in *; [lia|discriminate]).
  destruct (bracket_spec _ _ Hss Hsne Hk)
    as [[Hk0 Hbk]|(pre_k & k0 & k1 & post_k & Hke & Hkin & Hbk)];
    destruct (bracket_spec _ _ Hms Hmne Ht)
      as [[Ht0 Hbt]|(pre_t & t0 & t1 & post_t & Hte & Htin & Hbt)].
  - left. split; [exact Hk0|]. split; [exact Ht0|].
    rewrite (getVolatility_bracketed md strike maturity _ _ _ _
               Hf Hls Hlm Hk Ht Hbk Hbt).
    rewrite !Reqb_true by reflexivity. cbn [andb].
    unfold StdMap.at_. now rewrite Hf.
  - right; left. split; [exact Hk0|].
    exists pre_t, t0, t1, post_t. split; [exact Hte|]. split; [exact Htin|].
    rewrite (getVolatility_bracketed md strike maturity _ _ _ _
               Hf Hls Hlm Hk Ht Hbk Hbt).
    rewrite (Reqb_true strike strike) by reflexivity.
    rewrite (Reqb_false t0 t1) by lra.
    cbn [andb orb].
    destruct (get_vol md strike t0) as [v00|e]; [|reflexivity]. cbn [bind].
    destruct (get_vol md strike t1) as [v01|e]; [|reflexivity]. cbn [bind].
    rewrite div_collapsed by reflexivity. reflexivity.
  - right; right; left. split; [exact Ht0|].
    exists pre_k, k0, k1, post_k. split; [exact Hke|]. split; [exact Hkin|].
    rewrite (getVolatility_bracketed md strike maturity _ _ _ _
               Hf Hls Hlm Hk Ht Hbk Hbt).
    rewrite (Reqb_true maturity maturity) by reflexivity.
    rewrite (Reqb_false k0 k1) by lra.
    cbn [andb orb].
    destruct (get_vol md k0 maturity) as [v00|e]; [|reflexivity]. cbn [bind].
    destruct (get_vol md k1 maturity) as [v10|e]; [|reflexivity]. cbn [bind].
    rewrite (div_collapsed maturity maturity) by reflexivity.
    cbn [FP.sub FP.lift2]. rewrite div_Fin by lra. reflexivity.
  - right; right; right.
    exists pre_k, k0, k1, post_k, pre_t, t0, t1, post_t.
    repeat (split; [assumption|]).
    rewrite (getVolatility_bracketed md strike maturity _ _ _ _
               Hf Hls Hlm Hk Ht Hbk Hbt).
    rewrite (Reqb_false k0 k1), (Reqb_false t0 t1) by lra.
    cbn [andb orb].
    destruct (get_vol md k0 t0) as [v00|e]; [|reflexivity]. cbn [bind].
    destruct (get_vol md k0 t1) as [v01|e]; [|reflexivity]. cbn [bind].
    destruct (get_vol md k1 t0) as [v10|e]; [|reflexivity]. cbn [bind].
    destruct (get_vol md k1 t1) as [v11|e]; [|reflexivity]. cbn [bind].
    cbn [FP.sub FP.lift2]. rewrite !div_Fin by lra. reflexivity.
Qed.

End Classification.

Section Derived.
Import MarketData.

Lemma bilinear_bounds (x y v00 v01 v10 v11 lo hi : R) :
  0 <= x <= 1 -> 0 <= y <= 1 ->
  lo <= v00 <= hi -> lo <= v01 <= hi -> lo <= v10 <= hi -> lo <= v11 <= hi ->
  lo <= (1 - x) * (1 - y) * v00 + (1 - x) * y * v01
        + x * (1 - y) * v10 + x * y * v11 <= hi.
Proof.
  intros Hx Hy H00 H01 H10 H11.
  assert (L1 : 0 <= (1 - x) * (1 - y) * (v00 - lo))
    by (apply Rmult_le_pos; [apply Rmult_le_pos|]; lra).
  assert (L2 : 0 <= (1 - x) * y * (v01 - lo))
    by (apply Rmult_le_pos; [apply Rmult_le_pos|]; lra).
  assert (L3 : 0 <= x * (1 - y) * (v10 - lo))
    by (apply Rmult_le_pos; [apply Rmult_le_pos|]; lra).
  assert (L4 : 0 <= x * y * (v11 - lo))
    by (apply Rmult_le_pos; [apply Rmult_le_pos|]; lra).
  assert (U1 : 0 <= (1 - x) * (1 - y) * (hi - v00))
    by (apply Rmult_le_pos; [apply Rmult_le_pos|]; lra).
  assert (U2 : 0 <= (1 - x) * y * (hi - v01))
    by (apply Rmult_le_pos; [apply Rmult_le_pos|]; lra).
  assert (U3 : 0 <= x * (1 - y) * (hi - v10))
    by (apply Rmult_le_pos; [apply Rmult_le_pos|]; lra).
  assert (U4 : 0 <= x * y * (hi - v11))
    by (apply Rmult_le_pos; [apply Rmult_le_pos|]; lra).
  split; lra.
Qed.

Lemma ratio_unit (a b x : R) : a < x <= b -> 0 <= (x - a) / (b - a) <= 1.
Proof.
  intro Hin. assert (Hd : 0 < b - a) by lra.
  split.
  - unfold Rdiv. apply Rmult_le_pos; [lra|]. left. now apply Rinv_0_lt_compat.
  - apply (Rmult_le_reg_r (b - a)); [exact Hd|].
    unfold Rdiv. rewrite Rmult_assoc, Rinv_l by lra. lra.
Qed.



(** The guards, as a case distinction. *)
Lemma getVolatility_before_range md strike maturity :
  Inv.wf md ->
  (exists v, StdMap.find (strike, maturity) (vol_surface_ md) = Some v /\
             getVolatility md strike maturity = Ret (Fin v)) \/
  (StdMap.find (strike, maturity) (vol_surface_ md) = None /\
   ((exists k0 t0 v,
       strikes_ md = [k0] /\ maturities_ md = [t0] /\
       StdMap.find (k0, t0) (vol_surface_ md) = Some v /\
       getVolatility md strike maturity = Ret (Fin v)) \/
    getVolatility md strike maturity = Throw UninitializedSurface \/
    getVolatility md strike maturity = Throw InsufficientData \/
    (exists axis, getVolatility md strike maturity = Throw (OutOfBounds axis)) \/
    ((2 <= length (strikes_ md))%nat /\ (2 <= length (maturities_ md))%nat /\
     elem (strikes_ md) 0 <= strike
     <= elem (strikes_ md) (pred (length (strikes_ md))) /\
     elem (maturities_ md) 0 <= maturity
     <= elem (maturities_ md) (pred (length (maturities_ md)))))).
Proof.
  intro Hwf.
  destruct (StdMap.find (strike, maturity) (vol_surface_ md)) as [v|] eqn:Hf.
  - left. exists v. split; [reflexivity|]. now apply getVolatility_exact.
  - right. split; [reflexivity|].
    destruct (strikes_ md) as [|k0 [|k1 ks]] eqn:Hs.
    + right; left. apply getVolatility_uninitialized; auto.
    + destruct (maturities_ md) as [|t0 [|t1 ts]] eqn:Hm.
      * right; left. apply getVolatility_uninitialized; auto.
      * left. destruct (single_point_stored md k0 t0 Hwf Hs Hm) as [v Hv].
        exists k0, t0, v. repeat split; auto.
        now apply getVolatility_single with (k0 := k0) (t0 := t0).
      * right; right; left. apply getVolatility_insufficient;
          rewrite ?Hs, ?Hm; simpl; auto; try discriminate; try lia.
    + destruct (maturities_ md) as [|t0 [|t1 ts]] eqn:Hm.
      * right; left. apply getVolatility_uninitialized; auto.
      * right; right; left. apply getVolatility_insufficient;
          rewrite ?Hs, ?Hm; simpl; auto; try discriminate; try lia.
      * assert (Hls : (2 <= length (strikes_ md))%nat)
          by (rewrite Hs; simpl; lia).
        assert (Hlm : (2 <= length (maturities_ md))%nat)
          by (rewrite Hm; simpl; lia).
        rewrite <- Hs, <- Hm.
        destruct (Rlt_dec strike (elem (strikes_ md) 0)) as [H1|H1].
        { right; right; right; left. exists Strike.
          apply getVolatility_strike_out; auto. }
        destruct (Rlt_dec (elem (strikes_ md) (pred (length (strikes_ md))))
                          strike) as [H2|H2].
        { right; right; right; left. exists Strike.
          apply getVolatility_strike_out; auto. }
        destruct (Rlt_dec maturity (elem (maturities_ md) 0)) as [H3|H3].
        { right; right; right; left. exists Maturity.
          apply getVolatility_maturity_out; auto. lra. }
        destruct (Rlt_dec
                    (elem (maturities_ md) (pred (length (maturities_ md))))
                    maturity) as [H4|H4].
        { right; right; right; left. exists Maturity.
          apply getVolatility_maturity_out; auto. lra. }
        right; right; right; right. repeat split; auto; lra.
Qed.

End Derived.

(** ** What a volatility query can return or throw *)

Section VolOutcomes.
Import MarketData.



(** A sequence of [get_vol] calls that ends in a value does not throw
    [std::out_of_range]. *)
Ltac no_out_of_range :=
  repeat match goal with
         | He : bind _ _ = Throw _ |- _ =>
             apply bind_error in He; destruct He as [He|(? & _ & He)]
         | He : get_vol _ _ _ = Throw _ |- _ =>
             apply get_vol_error in He; discriminate
         | He : Ret _ = Throw _ |- _ => discriminate
         | He : _ = Throw _ |- _ => progress cbv zeta in He
         end.

(** [std::out_of_range] escapes exactly at the first grid corner. *)
Lemma getVolatility_out_of_range md strike maturity :
  Inv.wf md ->
  (getVolatility md strike maturity = Throw OutOfRange <->
   StdMap.find (strike, maturity) (vol_surface_ md) = None /\
   (2 <= length (strikes_ md))%nat /\ (2 <= length (maturities_ md))%nat /\
   strike = elem (strikes_ md) 0 /\ maturity = elem (maturities_ md) 0).
Proof.
  intro Hwf. split.
  - intro Hthrow.
    destruct (getVolatility_before_range md strike maturity Hwf)
      as [(x & Hf & Hg)|[Hf [(k0 & t0 & x & _ & _ & Hx & Hg)|
                             [Hg|[Hg|[[a Hg]|(Hls & Hlm & Hk & Ht)]]]]]];
      try congruence.
    destruct (getVolatility_in_range md strike maturity Hwf Hf Hls Hlm Hk Ht)
      as [(Hk0 & Ht0 & Hg)|
          [(Hk0 & pre & t0 & t1 & post & _ & _ & Hg)|
           [(Ht0 & pre & k0 & k1 & post & _ & _ & Hg)|
            (pre_k & k0 & k1 & post_k & pre_t & t0 & t1 & post_t &
             _ & Hkin & _ & Htin & Hg)]]].
    + tauto.
    + exfalso. rewrite Hg in Hthrow.
      no_out_of_range.
    + exfalso. rewrite Hg in Hthrow.
      no_out_of_range.
    + exfalso. rewrite Hg in Hthrow.
      no_out_of_range.
  - intros (Hf & Hls & Hlm & Hk0 & Ht0).
    pose proof Hwf as [[Hss Hms _ _] _ _].
    assert (Hk : elem (strikes_ md) 0 <= strike
                 <= elem (strikes_ md) (pred (length (strikes_ md)))).
    { split; [lra|]. rewrite Hk0. apply sorted_back; auto.
      apply elem_In. lia. }
    assert (Ht : elem (maturities_ md) 0 <= maturity
                 <= elem (maturities_ md) (pred (length (maturities_ md)))).
    { split; [lra|]. rewrite Ht0. apply sorted_back; auto.
      apply elem_In. lia. }
    assert (Hbk : bracket (strikes_ md) strike = (strike, strike)).
    { rewrite Hk0. destruct (strikes_ md) as [|a tl]; [simpl in Hls; lia|].
      unfold elem. simpl. apply bracket_front. }
    assert (Hbt : bracket (maturities_ md) maturity = (maturity, maturity)).
    { rewrite Ht0. destruct (maturities_ md) as [|a tl]; [simpl in Hlm; lia|].
      unfold elem. simpl. apply bracket_front. }
    rewrite (getVolatility_bracketed md strike maturity _ _ _ _
               Hf Hls Hlm Hk Ht Hbk Hbt).
    rewrite !Reqb_true by reflexivity. cbn [andb].
    unfold StdMap.at_. now rewrite Hf.
Qed.

End VolOutcomes.

(** ** Queries on grid lines; maps and vectors as canonical forms *)

Section MoreVol.
Import MarketData.

Lemma front_le_split (pre post : list R) k0 k1 :
  StronglySorted Rlt (pre ++ k0 :: k1 :: post) ->
  elem (pre ++ k0 :: k1 :: post) 0 <= k0.
Proof.
  intro Hs. apply sorted_front; auto. apply in_or_app. right. now left.
Qed.

(** A query on the first maturity and between two strikes. *)
Lemma getVolatility_first_maturity md t0 t1 rest pre k0 k1 post strike
      v00 v10 :
  Inv.wf md ->
  maturities_ md = t0 :: t1 :: rest ->
  strikes_ md = pre ++ k0 :: k1 :: post ->
  k0 < strike <= k1 ->
  StdMap.find (strike, t0) (vol_surface_ md) = None ->
  StdMap.find (k0, t0) (vol_surface_ md) = Some v00 ->
  StdMap.find (k1, t0) (vol_surface_ md) = Some v10 ->
  getVolatility md strike t0 = Ret NaN.
Proof.
  intros Hwf Hm Hs Hk Hf H00 H10.
  pose proof Hwf as [[Hss Hms _ _] _ _].
  assert (Hfront : elem (maturities_ md) 0 = t0) by (now rewrite Hm).
  assert (Hback : t0 <= elem (maturities_ md) (pred (length (maturities_ md)))).
  { apply sorted_back; auto. rewrite Hm. now left. }
  rewrite (getVolatility_bracketed md strike t0 k0 k1 t0 t0); auto.
  - rewrite (Reqb_true t0 t0) by reflexivity.
    rewrite (Reqb_false k0 k1) by lra.
    cbn [andb orb]. rewrite (get_vol_stored _ _ _ _ H00). cbn [bind].
    rewrite (get_vol_stored _ _ _ _ H10). cbn [bind].
    rewrite (div_collapsed t0 t0) by reflexivity.
    cbn [FP.sub FP.lift2]. rewrite div_Fin by lra. reflexivity.
  - rewrite Hs. apply app_two_length.
  - rewrite Hm. simpl. lia.
  - rewrite Hs in *. apply between_in_range; auto; lra.
  - rewrite Hfront. lra.
  - rewrite Hs in *. apply bracket_between; auto; lra.
  - rewrite Hm. apply bracket_front.
Qed.

(** The same on the first strike, the maturity being allowed to sit on the
    upper neighbour. *)
Lemma getVolatility_first_strike_le md k0 k1 rest pre t0 t1 post maturity
      v00 v01 :
  Inv.wf md ->
  strikes_ md = k0 :: k1 :: rest ->
  maturities_ md = pre ++ t0 :: t1 :: post ->
  t0 < maturity <= t1 ->
  StdMap.find (k0, maturity) (vol_surface_ md) = None ->
  StdMap.find (k0, t0) (vol_surface_ md) = Some v00 ->
  StdMap.find (k0, t1) (vol_surface_ md) = Some v01 ->
  getVolatility md k0 maturity = Ret NaN.
Proof.
  intros Hwf Hs Hm Hmat Hf H00 H01.
  pose proof Hwf as [[Hss Hms _ _] _ _].
  assert (Hfront : elem (strikes_ md) 0 = k0) by (now rewrite Hs).
  assert (Hback : k0 <= elem (strikes_ md) (pred (length (strikes_ md)))).
  { apply sorted_back; auto. rewrite Hs. now left. }
  rewrite (getVolatility_bracketed md k0 maturity k0 k0 t0 t1); auto.
  - rewrite (Reqb_true k0 k0) by reflexivity.
    rewrite (Reqb_false t0 t1) by lra.
    cbn [andb orb]. rewrite (get_vol_stored _ _ _ _ H00). cbn [bind].
    rewrite (get_vol_stored _ _ _ _ H01). cbn [bind].
    rewrite div_collapsed by reflexivity. reflexivity.
  - rewrite Hs. simpl. lia.
  - rewrite Hm. apply app_two_length.
  - rewrite Hfront. lra.
  - rewrite Hm in *. apply between_in_range; auto; lra.
  - rewrite Hs. apply bracket_front.
  - rewrite Hm in *. apply bracket_between; auto; lra.
Qed.

(** The interpolation proper, with the query allowed on the upper
    neighbours. *)
Lemma getVolatility_interpolated md pre_k k0 k1 post_k pre_t t0 t1 post_t
      strike maturity v00 v01 v10 v11 :
  Inv.wf md ->
  strikes_ md = pre_k ++ k0 :: k1 :: post_k ->
  maturities_ md = pre_t ++ t0 :: t1 :: post_t ->
  k0 < strike <= k1 -> t0 < maturity <= t1 ->
  StdMap.find (strike, maturity) (vol_surface_ md) = None ->
  StdMap.find (k0, t0) (vol_surface_ md) = Some v00 ->
  StdMap.find (k0, t1) (vol_surface_ md) = Some v01 ->
  StdMap.find (k1, t0) (vol_surface_ md) = Some v10 ->
  StdMap.find (k1, t1) (vol_surface_ md) = Some v11 ->
  getVolatility md strike maturity
  = Ret (Fin (let x := (strike - k0) / (k1 - k0) in
              let y := (maturity - t0) / (t1 - t0) in
              (1 - x) * (1 - y) * v00 + (1 - x) * y * v01
              + x * (1 - y) * v10 + x * y * v11)).
Proof.
  intros Hwf Hs Hm Hk Ht Hf H00 H01 H10 H11.
  pose proof Hwf as [[Hss Hms _ _] _ _].
  rewrite (getVolatility_bracketed md strike maturity k0 k1 t0 t1); auto.
  - rewrite (Reqb_false k0 k1), (Reqb_false t0 t1) by lra.
    cbn [andb orb].
    rewrite (get_vol_stored _ _ _ _ H00), (get_vol_stored _ _ _ _ H01),
      (get_vol_stored _ _ _ _ H10), (get_vol_stored _ _ _ _ H11).
    cbn [bind FP.sub FP.lift2]. rewrite !div_Fin by lra. reflexivity.
  - rewrite Hs. apply app_two_length.
  - rewrite Hm. apply app_two_length.
  - rewrite Hs in *. apply between_in_range; auto; lra.
  - rewrite Hm in *. apply between_in_range; auto; lra.
  - rewrite Hs in *. apply bracket_between; auto; lra.
  - rewrite Hm in *. apply bracket_between; auto; lra.
Qed.

(** The corner [(k0, t0)] is looked up first, whatever its weight. *)
Lemma getVolatility_first_corner_missing md pre_k k0 k1 post_k
      pre_t t0 t1 post_t strike maturity :
  Inv.wf md ->
  strikes_ md = pre_k ++ k0 :: k1 :: post_k ->
  maturities_ md = pre_t ++ t0 :: t1 :: post_t ->
  k0 < strike <= k1 -> t0 < maturity <= t1 ->
  StdMap.find (strike, maturity) (vol_surface_ md) = None ->
  StdMap.find (k0, t0) (vol_surface_ md) = None ->
  getVolatility md strike maturity = Throw (MissingDataPoint k0 t0).
Proof.
  intros Hwf Hs Hm Hk Ht Hf H00.
  pose proof Hwf as [[Hss Hms _ _] _ _].
  rewrite (getVolatility_bracketed md strike maturity k0 k1 t0 t1); auto.
  - rewrite (Reqb_false k0 k1), (Reqb_false t0 t1) by lra.
    cbn [andb orb]. now rewrite (get_vol_missing _ _ _ H00).
  - rewrite Hs. apply app_two_length.
  - rewrite Hm. apply app_two_length.
  - rewrite Hs in *. apply between_in_range; auto; lra.
  - rewrite Hm in *. apply between_in_range; auto; lra.
  - rewrite Hs in *. apply bracket_between; auto; lra.
  - rewrite Hm in *. apply bracket_between; auto; lra.
Qed.

End MoreVol.

Section Canonical.
Context {K V : Type} `{Less K}.
Implicit Types (k : K) (v : V) (m : @StdMap.t K V).

Lemma find_below k m :
  Forall (less k) (StdMap.keys m) -> StdMap.find k m = None.
Proof.
  destruct m as [|[k' v'] tl]; simpl; intro Hall; [reflexivity|].
  inversion Hall as [|? ? Hl _]; subst.
  destruct (less_dec k' k) as [Hg|_]; [elim (less_asym _ _ Hl Hg)|].
  destruct (less_dec k k'); tauto.
Qed.

(** Two maps with the same lookups are the same map. *)
Lemma sorted_map_ext m1 : forall m2,
  StdMap.sorted m1 -> StdMap.sorted m2 ->
  (forall k, StdMap.find k m1 = StdMap.find k m2) -> m1 = m2.
Proof.
  unfold StdMap.sorted.
  induction m1 as [|[k1 v1] t1 IH]; intros [|[k2 v2] t2] Hs1 Hs2 Hext.
  - reflexivity.
  - specialize (Hext k2). rewrite find_here in Hext. discriminate.
  - specialize (Hext k1). rewrite find_here in Hext. discriminate.
  - simpl in Hs1, Hs2.
    inversion Hs1 as [|? ? Hs1' Hall1]; subst.
    inversion Hs2 as [|? ? Hs2' Hall2]; subst.
    assert (Hk : k1 = k2).
    { destruct (less_total k1 k2) as [Hl|[He|Hl]]; [|exact He|].
      - specialize (Hext k1). rewrite find_here, find_before in Hext by exact Hl.
        discriminate.
      - specialize (Hext k2). rewrite find_here, find_before in Hext by exact Hl.
        discriminate. }
    subst k2.
    assert (Hv : v1 = v2).
    { specialize (Hext k1). rewrite !find_here in Hext. congruence. }
    subst v2. f_equal. apply IH; auto.
    intro k. destruct (less_dec k1 k) as [Hl|Hl].
    + specialize (Hext k). now rewrite !find_after in Hext by exact Hl.
    + assert (Hb : forall t : @StdMap.t K V, Forall (less k1) (StdMap.keys t) ->
                             Forall (less k) (StdMap.keys t)).
      { intros t Hall. destruct (less_total k k1) as [Hlt|[He|Hgt]].
        - eapply Forall_impl; [|exact Hall].
          intros a Ha. exact (less_trans _ _ _ Hlt Ha).
        - now subst k.
        - contradiction. }
      rewrite !find_below; auto.
Qed.

Lemma insert_insert_same k v v' m :
  StdMap.sorted m ->
  StdMap.insert k v (StdMap.insert k v' m) = StdMap.insert k v m.
Proof.
  intro Hs. apply sorted_map_ext.
  - now apply StdMapFacts.sorted_insert, StdMapFacts.sorted_insert.
  - now apply StdMapFacts.sorted_insert.
  - intro k0. destruct (less_total k0 k) as [Hl|[He|Hl]].
    + assert (k0 <> k) by (intros ->; exact (less_irrefl _ Hl)).
      now rewrite !StdMapFacts.find_insert_neq.
    + subst k0. now rewrite !StdMapFacts.find_insert_eq.
    + assert (k0 <> k) by (intros ->; exact (less_irrefl _ Hl)).
      now rewrite !StdMapFacts.find_insert_neq.
Qed.

Lemma key_eq_dec k k' : k = k' \/ k <> k'.
Proof.
  destruct (less_total k k') as [Hl|[He|Hl]]; auto;
    right; intros ->; exact (less_irrefl _ Hl).
Qed.

Lemma insert_insert_comm k1 v1 k2 v2 m :
  StdMap.sorted m -> k1 <> k2 ->
  StdMap.insert k1 v1 (StdMap.insert k2 v2 m)
  = StdMap.insert k2 v2 (StdMap.insert k1 v1 m).
Proof.
  intros Hs Hne. apply sorted_map_ext.
  - now apply StdMapFacts.sorted_insert, StdMapFacts.sorted_insert.
  - now apply StdMapFacts.sorted_insert, StdMapFacts.sorted_insert.
  - intro k. destruct (key_eq_dec k k1) as [->|H1].
    + rewrite StdMapFacts.find_insert_eq.
      rewrite StdMapFacts.find_insert_neq by exact Hne.
      now rewrite StdMapFacts.find_insert_eq.
    + rewrite (StdMapFacts.find_insert_neq k1 k) by exact H1.
      destruct (key_eq_dec k k2) as [->|H2].
      * now rewrite !StdMapFacts.find_insert_eq.
      * now rewrite !StdMapFacts.find_insert_neq.
Qed.

End Canonical.

Section VectorCanonical.
Import MarketData.

Lemma sorted_vector_ext (v1 : list R) : forall v2,
  StronglySorted Rlt v1 -> StronglySorted Rlt v2 ->
  (forall x, In x v1 <-> In x v2) -> v1 = v2.
Proof.
  induction v1 as [|a t1 IH]; intros [|b t2] Hs1 Hs2 Hext.
  - reflexivity.
  - destruct (proj2 (Hext b)); now left.
  - destruct (proj1 (Hext a)); now left.
  - inversion Hs1 as [|? ? Hs1' Hall1]; subst.
    inversion Hs2 as [|? ? Hs2' Hall2]; subst.
    rewrite Forall_forall in Hall1, Hall2.
    assert (Hab : a = b).
    { destruct (proj1 (Hext a) (or_introl eq_refl)) as [Hb|Hb]; [auto|].
      destruct (proj2 (Hext b) (or_introl eq_refl)) as [Ha|Ha]; [auto|].
      apply Hall2 in Hb. apply Hall1 in Ha. lra. }
    subst b. f_equal. apply IH; auto.
    intro x. split; intro Hin.
    + destruct (proj1 (Hext x) (or_intror Hin)) as [Hx|Hx]; [|exact Hx].
      subst x. apply Hall1 in Hin. lra.
    + destruct (proj2 (Hext x) (or_intror Hin)) as [Hx|Hx]; [|exact Hx].
      subst x. apply Hall2 in Hin. lra.
Qed.

Lemma insert_if_absent_comm x y v :
  StronglySorted Rlt v ->
  insert_if_absent x (insert_if_absent y v)
  = insert_if_absent y (insert_if_absent x v).
Proof.
  intro Hs. apply sorted_vector_ext.
  - now apply sorted_insert_if_absent, sorted_insert_if_absent.
  - now apply sorted_insert_if_absent, sorted_insert_if_absent.
  - intro z. rewrite !In_insert_if_absent. tauto.
Qed.

Lemma insert_if_absent_twice x v :
  StronglySorted Rlt v ->
  insert_if_absent x (insert_if_absent x v) = insert_if_absent x v.
Proof.
  intro Hs. apply insert_if_absent_present.
  - now apply sorted_insert_if_absent.
  - apply In_insert_if_absent. now left.
Qed.

End VectorCanonical.

(* ================================================================== *)
(** * [MarketData]: queries after any sequence of calls *)

(** X1.  On a yield curve that is not empty [getRiskFreeRate] returns, for
    every time, a finite rate that lies between two of the stored rates: it
    neither throws nor extrapolates beyond what is stored. *)
Theorem rate_within_stored_rates (md : MarketData.t) (time : R) :
  StdMap.sorted (MarketData.yield_curve_ md) ->
  MarketData.yield_curve_ md <> [] ->
  exists r lo hi,
    MarketData.getRiskFreeRate md time = Ret (Fin r) /\
    In lo (map snd (MarketData.yield_curve_ md)) /\
    In hi (map snd (MarketData.yield_curve_ md)) /\
    lo <= r <= hi.
Proof. apply getRiskFreeRate_bounded. Qed.

(** X1, on the test suite's two-point curve at 0.6. *)
Lemma rate_within_stored_rates_witness :
  exists r,
    MarketData.getRiskFreeRate Examples.two_rates 0.6 = Ret (Fin r) /\
    0.02 <= r <= 0.03.
Proof.
  destruct (rate_within_stored_rates Examples.two_rates 0.6)
    as (r & lo & hi & Hr & Hlo & Hhi & Hin).
  - apply wf_two_rates.
  - rewrite two_rates_state. discriminate.
  - exists r. split; [exact Hr|].
    rewrite two_rates_state in Hlo, Hhi. simpl in Hlo, Hhi.
    destruct Hlo as [<-|[<-|[]]]; destruct Hhi as [<-|[<-|[]]]; lra.
Defined.





(** X5.  A query that lies between two neighbouring strikes and two
    neighbouring maturities (the upper neighbours included) and whose four
    corners are stored returns a number between the least and the greatest
    of the four corner values. *)
Theorem volatility_within_corners
  (md : MarketData.t) (pre_k post_k pre_t post_t : list R)
  (k0 k1 t0 t1 strike maturity v00 v01 v10 v11 lo hi : R) :
  Inv.wf md ->
  MarketData.strikes_ md = pre_k ++ k0 :: k1 :: post_k ->
  MarketData.maturities_ md = pre_t ++ t0 :: t1 :: post_t ->
  k0 < strike <= k1 -> t0 < maturity <= t1 ->
  StdMap.find (strike, maturity) (MarketData.vol_surface_ md) = None ->
  StdMap.find (k0, t0) (MarketData.vol_surface_ md) = Some v00 ->
  StdMap.find (k0, t1) (MarketData.vol_surface_ md) = Some v01 ->
  StdMap.find (k1, t0) (MarketData.vol_surface_ md) = Some v10 ->
  StdMap.find (k1, t1) (MarketData.vol_surface_ md) = Some v11 ->
  lo <= v00 <= hi -> lo <= v01 <= hi -> lo <= v10 <= hi -> lo <= v11 <= hi ->
  exists v,
    MarketData.getVolatility md strike maturity = Ret (Fin v) /\
    lo <= v <= hi.
Proof.
  intros Hwf Hs Hm Hk Ht Hf H00 H01 H10 H11 B00 B01 B10 B11.
  eexists. split.
  - apply (getVolatility_interpolated md pre_k k0 k1 post_k pre_t t0 t1 post_t
             strike maturity v00 v01 v10 v11); assumption.
  - cbv zeta. apply bilinear_bounds; try assumption;
      apply ratio_unit; assumption.
Qed.

(** X5, on the test suite's grid: the value at [(125, 1.5)] is between
    0.20 and 0.28. *)
Lemma volatility_within_corners_witness :
  exists v,
    MarketData.getVolatility Examples.grid 125 1.5 = Ret (Fin v) /\
    0.20 <= v <= 0.28.
Proof.
  apply (volatility_within_corners Examples.grid [] [] [] []
           100 150 1 2 125 1.5 0.20 0.25 0.22 0.28 0.20 0.28 wf_grid);
    try (rewrite grid_state; md_eval; reflexivity); lra.
Defined.

(** X6.  A query that is not stored, whose strike is the smallest recorded
    strike and whose maturity lies above a recorded maturity [t0] and not
    above its upper neighbour [t1], returns not-a-number when [(k0, t0)] and
    [(k0, t1)] are stored: the weight along the strikes is [0/0].  The same
    holds with strikes and maturities exchanged. *)
Theorem volatility_nan_on_first_line (md : MarketData.t) :
  Inv.wf md ->
  (forall k0 k1 rest pre t0 t1 post maturity v00 v01,
     MarketData.strikes_ md = k0 :: k1 :: rest ->
     MarketData.maturities_ md = pre ++ t0 :: t1 :: post ->
     t0 < maturity <= t1 ->
     StdMap.find (k0, maturity) (MarketData.vol_surface_ md) = None ->
     StdMap.find (k0, t0) (MarketData.vol_surface_ md) = Some v00 ->
     StdMap.find (k0, t1) (MarketData.vol_surface_ md) = Some v01 ->
     MarketData.getVolatility md k0 maturity = Ret NaN) /\
  (forall t0 t1 rest pre k0 k1 post strike v00 v10,
     MarketData.maturities_ md = t0 :: t1 :: rest ->
     MarketData.strikes_ md = pre ++ k0 :: k1 :: post ->
     k0 < strike <= k1 ->
     StdMap.find (strike, t0) (MarketData.vol_surface_ md) = None ->
     StdMap.find (k0, t0) (MarketData.vol_surface_ md) = Some v00 ->
     StdMap.find (k1, t0) (MarketData.vol_surface_ md) = Some v10 ->
     MarketData.getVolatility md strike t0 = Ret NaN).
Proof.
  intro Hwf. split.
  - intros. eapply getVolatility_first_strike_le; eauto.
  - intros. eapply getVolatility_first_maturity; eauto.
Qed.

(** X6, on the test suite's grid: [(100, 1.5)] and [(125, 1)]. *)
Lemma volatility_nan_on_first_line_witness :
  MarketData.getVolatility Examples.grid 100 1.5 = Ret NaN /\
  MarketData.getVolatility Examples.grid 125 1 = Ret NaN.
Proof.
  destruct (volatility_nan_on_first_line Examples.grid wf_grid)
    as [Hstrike Hmaturity].
  split.
  - apply (Hstrike 100 150 [] [] 1 2 [] 1.5 0.20 0.25);
      try (rewrite grid_state; md_eval; reflexivity); lra.
  - apply (Hmaturity 1 2 [] [] 100 150 [] 125 0.20 0.22);
      try (rewrite grid_state; md_eval; reflexivity); lra.
Defined.

(* ================================================================== *)
(** * [MarketData]: grid lines, the escaping exception, order of adds *)

(** X7.  A query whose strike is a recorded strike [k1] other than the
    smallest, and whose maturity lies strictly between two neighbouring
    maturities, is bracketed by [k1] and the strike [k0] below it.  With the
    four corners stored it returns the linear interpolation along the
    maturities on the line of [k1]; the values on the line of [k0] have
    weight zero, but when [(k0, t0)] is not stored the query throws
    "Missing volatility point" at [(k0, t0)]. *)
Theorem volatility_on_later_grid_line
  (md : MarketData.t) (pre_k post_k pre_t post_t : list R)
  (k0 k1 t0 t1 maturity v10 v11 : R) :
  Inv.wf md ->
  MarketData.strikes_ md = pre_k ++ k0 :: k1 :: post_k ->
  MarketData.maturities_ md = pre_t ++ t0 :: t1 :: post_t ->
  t0 < maturity < t1 ->
  StdMap.find (k1, t0) (MarketData.vol_surface_ md) = Some v10 ->
  StdMap.find (k1, t1) (MarketData.vol_surface_ md) = Some v11 ->
  (forall v00 v01,
     StdMap.find (k0, t0) (MarketData.vol_surface_ md) = Some v00 ->
     StdMap.find (k0, t1) (MarketData.vol_surface_ md) = Some v01 ->
     MarketData.getVolatility md k1 maturity
     = Ret (Fin (v10 + (maturity - t0) / (t1 - t0) * (v11 - v10)))) /\
  (StdMap.find (k0, t0) (MarketData.vol_surface_ md) = None ->
   MarketData.getVolatility md k1 maturity
   = Throw (MissingDataPoint k0 t0)).
Proof.
  intros Hwf Hs Hm Ht H10 H11.
  pose proof Hwf as [[Hss Hms _ _] _ _].
  assert (Hk : k0 < k1 <= k1).
  { split; [|lra]. rewrite Hs in Hss. clear - Hss.
    induction pre_k as [|a tl IH]; simpl in Hss.
    - inversion Hss as [|? ? _ Hall]; subst. now inversion Hall.
    - inversion Hss; auto. }
  assert (Hf : StdMap.find (k1, maturity) (MarketData.vol_surface_ md) = None).
  { apply not_recorded_not_stored; auto. right. rewrite Hm.
    rewrite Hm in Hms. apply between_not_In; tauto. }
  split.
  - intros v00 v01 H00 H01.
    rewrite (getVolatility_interpolated md pre_k k0 k1 post_k pre_t t0 t1
               post_t k1 maturity v00 v01 v10 v11); auto; [|lra].
    do 2 f_equal. cbv zeta. field. lra.
  - intro H00.
    apply (getVolatility_first_corner_missing md pre_k k0 k1 post_k
             pre_t t0 t1 post_t); auto. lra.
Qed.

(** X7, on the test suite's grid and on the grid without [(100, 1)]: the
    query [(150, 1.5)]. *)
Lemma volatility_on_later_grid_line_witness :
  MarketData.getVolatility Examples.grid 150 1.5 = Ret (Fin 0.25) /\
  MarketData.getVolatility Examples.sparse_grid 150 1.5
  = Throw (MissingDataPoint 100 1).
Proof.
  split.
  - destruct (volatility_on_later_grid_line Examples.grid [] [] [] []
                100 150 1 2 1.5 0.22 0.28 wf_grid) as [Hline _];
      try (rewrite grid_state; md_eval; reflexivity); try lra.
    rewrite (Hline 0.20 0.25);
      try (rewrite grid_state; md_eval; reflexivity).
    do 2 f_equal. lra.
  - destruct (volatility_on_later_grid_line Examples.sparse_grid [] [] [] []
                100 150 1 2 1.5 0.22 0.28 wf_sparse_grid) as [_ Hmissing];
      try (rewrite sparse_grid_state; md_eval; reflexivity); try lra.
    apply Hmissing. rewrite sparse_grid_state. md_eval. reflexivity.
Defined.

(** X8.  [getVolatility] lets the [std::out_of_range] of [std::map::at]
    escape, unconverted, exactly when the query is the grid point of the
    smallest strike and the smallest maturity, that point is not stored, and
    both axes hold two values or more. *)
Theorem out_of_range_only_at_first_corner
  (md : MarketData.t) (strike maturity : R) :
  Inv.wf md ->
  (MarketData.getVolatility md strike maturity = Throw OutOfRange <->
   StdMap.find (strike, maturity) (MarketData.vol_surface_ md) = None /\
   (2 <= length (MarketData.strikes_ md))%nat /\
   (2 <= length (MarketData.maturities_ md))%nat /\
   strike = MarketData.elem (MarketData.strikes_ md) 0 /\
   maturity = MarketData.elem (MarketData.maturities_ md) 0).
Proof. apply getVolatility_out_of_range. Qed.

(** X8, on the grid without [(100, 1)]. *)
Lemma out_of_range_only_at_first_corner_witness :
  MarketData.getVolatility Examples.sparse_grid 100 1 = Throw OutOfRange.
Proof.
  apply (out_of_range_only_at_first_corner Examples.sparse_grid 100 1
           wf_sparse_grid).
  rewrite sparse_grid_state. md_eval.
  repeat split; simpl; auto.
Defined.

Section AddOrder.
Import MarketData.

Lemma md_eq (a b : MarketData.t) :
  yield_curve_ a = yield_curve_ b -> vol_surface_ a = vol_surface_ b ->
  strikes_ a = strikes_ b -> maturities_ a = maturities_ b -> a = b.
Proof. destruct a, b; simpl; intros; subst; reflexivity. Qed.

Lemma addVolatility_comm md k1 t1 v1 k2 t2 v2 :
  Inv.wf md -> (k1, t1) <> (k2, t2) ->
  snd (addVolatility k1 t1 v1 (snd (addVolatility k2 t2 v2 md)))
  = snd (addVolatility k2 t2 v2 (snd (addVolatility k1 t1 v1 md))).
Proof.
  intros [[Hs Hm _ _] _ Hv] Hne.
  destruct (addVolatility_cases k1 t1 v1) as [B1|O1];
    destruct (addVolatility_cases k2 t2 v2) as [B2|O2];
    rewrite ?(addVolatility_invalid k1 t1 v1) by assumption;
    rewrite ?(addVolatility_invalid k2 t2 v2) by assumption;
    rewrite ?(addVolatility_valid k1 t1 v1) by assumption;
    rewrite ?(addVolatility_valid k2 t2 v2) by assumption;
    cbn [snd];
    rewrite ?(addVolatility_invalid k1 t1 v1) by assumption;
    rewrite ?(addVolatility_invalid k2 t2 v2) by assumption;
    rewrite ?(addVolatility_valid k1 t1 v1) by assumption;
    rewrite ?(addVolatility_valid k2 t2 v2) by assumption;
    cbn [snd]; try reflexivity.
  apply md_eq; cbn [yield_curve_ vol_surface_ strikes_ maturities_].
  - reflexivity.
  - now apply insert_insert_comm.
  - now apply insert_if_absent_comm.
  - now apply insert_if_absent_comm.
Qed.

Lemma addRiskFreeRate_comm md t1 r1 t2 r2 :
  Inv.wf md -> t1 <> t2 ->
  snd (addRiskFreeRate t1 r1 (snd (addRiskFreeRate t2 r2 md)))
  = snd (addRiskFreeRate t2 r2 (snd (addRiskFreeRate t1 r1 md))).
Proof.
  intros [_ Hc _] Hne.
  destruct (addRiskFreeRate_cases t1 r1) as [B1|O1];
    destruct (addRiskFreeRate_cases t2 r2) as [B2|O2];
    rewrite ?(addRiskFreeRate_invalid t1 r1) by assumption;
    rewrite ?(addRiskFreeRate_invalid t2 r2) by assumption;
    rewrite ?(addRiskFreeRate_valid t1 r1) by assumption;
    rewrite ?(addRiskFreeRate_valid t2 r2) by assumption;
    cbn [snd];
    rewrite ?(addRiskFreeRate_invalid t1 r1) by assumption;
    rewrite ?(addRiskFreeRate_invalid t2 r2) by assumption;
    rewrite ?(addRiskFreeRate_valid t1 r1) by assumption;
    rewrite ?(addRiskFreeRate_valid t2 r2) by assumption;
    cbn [snd]; try reflexivity.
  apply md_eq; cbn [yield_curve_ vol_surface_ strikes_ maturities_];
    try reflexivity.
  now apply insert_insert_comm.
Qed.

Lemma add_rate_vol_comm md time rate k t v :
  snd (addRiskFreeRate time rate (snd (addVolatility k t v md)))
  = snd (addVolatility k t v (snd (addRiskFreeRate time rate md))).
Proof.
  destruct (addRiskFreeRate_cases time rate) as [B1|O1];
    destruct (addVolatility_cases k t v) as [B2|O2];
    rewrite ?(addRiskFreeRate_invalid time rate) by assumption;
    rewrite ?(addVolatility_invalid k t v) by assumption;
    rewrite ?(addRiskFreeRate_valid time rate) by assumption;
    rewrite ?(addVolatility_valid k t v) by assumption;
    cbn [snd];
    rewrite ?(addRiskFreeRate_invalid time rate) by assumption;
    rewrite ?(addVolatility_invalid k t v) by assumption;
    rewrite ?(addRiskFreeRate_valid time rate) by assumption;
    rewrite ?(addVolatility_valid k t v) by assumption;
    cbn [snd]; reflexivity.
Qed.

Lemma addVolatility_overwrite md k t v v' :
  Inv.wf md -> ~ (k <= 0 \/ t < 0 \/ v < 0) ->
  snd (addVolatility k t v (snd (addVolatility k t v' md)))
  = snd (addVolatility k t v md).
Proof.
  intros [[Hs Hm _ _] _ Hv] Hok.
  destruct (addVolatility_cases k t v') as [B|O].
  - now rewrite (addVolatility_invalid k t v') by assumption.
  - rewrite (addVolatility_valid k t v') by assumption. cbn [snd].
    rewrite !(addVolatility_valid k t v) by assumption. cbn [snd].
    apply md_eq; cbn [yield_curve_ vol_surface_ strikes_ maturities_].
    + reflexivity.
    + now apply insert_insert_same.
    + now apply insert_if_absent_twice.
    + now apply insert_if_absent_twice.
Qed.

Lemma addRiskFreeRate_overwrite md time rate rate' :
  Inv.wf md -> ~ (time < 0 \/ rate < 0) ->
  snd (addRiskFreeRate time rate (snd (addRiskFreeRate time rate' md)))
  = snd (addRiskFreeRate time rate md).
Proof.
  intros [_ Hc _] Hok.
  destruct (addRiskFreeRate_cases time rate') as [B|O].
  - now rewrite (addRiskFreeRate_invalid time rate') by assumption.
  - rewrite (addRiskFreeRate_valid time rate') by assumption. cbn [snd].
    rewrite !(addRiskFreeRate_valid time rate) by assumption. cbn [snd].
    apply md_eq; cbn [yield_curve_ vol_surface_ strikes_ maturities_];
      try reflexivity.
    now apply insert_insert_same.
Qed.

End AddOrder.

(** X9.  The object that add operations build does not depend on their
    order: after any sequence of calls, two [addVolatility] calls at
    different (strike, maturity) keys, two [addRiskFreeRate] calls at
    different times, and an [addRiskFreeRate] and an [addVolatility] call
    leave the same object in either order, rejected calls included. *)
Theorem adds_commute (cs : list MarketData.call) :
  let md := MarketData.run cs in
  (forall k1 t1 v1 k2 t2 v2,
     (k1, t1) <> (k2, t2) ->
     MarketData.run (cs ++ [MarketData.AddVolatility k2 t2 v2;
                            MarketData.AddVolatility k1 t1 v1])
     = MarketData.run (cs ++ [MarketData.AddVolatility k1 t1 v1;
                              MarketData.AddVolatility k2 t2 v2])) /\
  (forall t1 r1 t2 r2,
     t1 <> t2 ->
     MarketData.run (cs ++ [MarketData.AddRiskFreeRate t2 r2;
                            MarketData.AddRiskFreeRate t1 r1])
     = MarketData.run (cs ++ [MarketData.AddRiskFreeRate t1 r1;
                              MarketData.AddRiskFreeRate t2 r2])) /\
  (forall time rate k t v,
     MarketData.run (cs ++ [MarketData.AddVolatility k t v;
                            MarketData.AddRiskFreeRate time rate])
     = MarketData.run (cs ++ [MarketData.AddRiskFreeRate time rate;
                              MarketData.AddVolatility k t v])).
Proof.
  intro md. assert (Hwf : Inv.wf md) by apply wf_run.
  unfold MarketData.run. repeat split; intros;
    rewrite !fold_left_app; cbn [fold_left MarketData.step].
  - now apply addVolatility_comm.
  - now apply addRiskFreeRate_comm.
  - apply add_rate_vol_comm.
Qed.

(** X9: the test suite's grid built column by column is the grid built row
    by row. *)
Lemma adds_commute_witness :
  MarketData.run [MarketData.AddVolatility 100 1 0.20;
                  MarketData.AddVolatility 150 1 0.22;
                  MarketData.AddVolatility 100 2 0.25;
                  MarketData.AddVolatility 150 2 0.28]
  = Examples.grid.
Proof.
  destruct (adds_commute [MarketData.AddVolatility 100 1 0.20])
    as [Hvol _].
  specialize (Hvol 100 2 0.25 150 1 0.22).
  unfold Examples.grid, MarketData.run in *.
  change [MarketData.AddVolatility 100 1 0.20;
          MarketData.AddVolatility 150 1 0.22;
          MarketData.AddVolatility 100 2 0.25;
          MarketData.AddVolatility 150 2 0.28]
    with (([MarketData.AddVolatility 100 1 0.20]
           ++ [MarketData.AddVolatility 150 1 0.22;
               MarketData.AddVolatility 100 2 0.25])
          ++ [MarketData.AddVolatility 150 2 0.28]).
  rewrite fold_left_app, Hvol.
  - reflexivity.
  - intro He. injection He as He _. lra.
Defined.

(** X10.  After any sequence of calls, an accepted add at a key that an
    earlier add has just written leaves the object that the later add alone
    would leave: the overwritten value is gone, the key is not recorded
    twice, and adding the same point twice is adding it once. *)
Theorem overwrite_leaves_no_trace (cs : list MarketData.call) :
  (forall k t v v',
     ~ (k <= 0 \/ t < 0 \/ v < 0) ->
     MarketData.run (cs ++ [MarketData.AddVolatility k t v';
                            MarketData.AddVolatility k t v])
     = MarketData.run (cs ++ [MarketData.AddVolatility k t v])) /\
  (forall time rate rate',
     ~ (time < 0 \/ rate < 0) ->
     MarketData.run (cs ++ [MarketData.AddRiskFreeRate time rate';
                            MarketData.AddRiskFreeRate time rate])
     = MarketData.run (cs ++ [MarketData.AddRiskFreeRate time rate])).
Proof.
  assert (Hwf : Inv.wf (MarketData.run cs)) by apply wf_run.
  unfold MarketData.run in *. split; intros;
    rewrite !fold_left_app; cbn [fold_left MarketData.step].
  - now apply addVolatility_overwrite.
  - now apply addRiskFreeRate_overwrite.
Qed.

(** X10, on the test suite's overwritten rate. *)
Lemma overwrite_leaves_no_trace_witness :
  Examples.overwritten = MarketData.run [MarketData.AddRiskFreeRate 1 0.04].
Proof.
  destruct (overwrite_leaves_no_trace []) as [_ Hrate].
  apply (Hrate 1 0.04 0.03). lra.
Defined.

(* ================================================================== *)
(** * [BlackScholesEngine]: the Greeks *)

Section GreeksValues.
Import BlackScholesEngine.

Lemma two_pi_pos : 0 < 2.0 * 3.14159265358979323846.
Proof. lra. Qed.

Lemma N_prime_Fin (x : R) :
  N_prime (Fin x)
  = Fin (1.0 / sqrt (2.0 * 3.14159265358979323846) * exp (-0.5 * x * x)).
Proof.
  pose proof two_pi_pos as Hpos. pose proof (sqrt_lt_R0 _ Hpos) as Hsq.
  unfold N_prime. cbn [FP.mul FP.lift2 FP.opp FP.lift1].
  rewrite sqrt_Fin by lra. rewrite div_Fin by lra. reflexivity.
Qed.

Lemma N_prime_pos (x : R) :
  0 < 1.0 / sqrt (2.0 * 3.14159265358979323846) * exp (-0.5 * x * x).
Proof.
  pose proof two_pi_pos as Hpos. pose proof (sqrt_lt_R0 _ Hpos) as Hsq.
  apply Rmult_lt_0_compat; [|apply exp_pos].
  apply Rdiv_lt_0_compat; lra.
Qed.

End GreeksValues.

Section GreeksTable.
Import BlackScholesEngine.

(** The table of Greeks on valid parameters and a finite rate and
    volatility, in the order in which a [std::map] holds its keys. *)
Lemma calculateGreeks_value (p : Parameters) (md : MarketData.t)
      (r sigma : R) :
  0 < spotPrice_ p -> 0 < strike_ p -> 0 < maturity_ p ->
  MarketData.getRiskFreeRate md (maturity_ p) = Ret (Fin r) ->
  MarketData.getVolatility md (strike_ p) (maturity_ p) = Ret (Fin sigma) ->
  0 < sigma ->
  let S := spotPrice_ p in
  let K := strike_ p in
  let T := maturity_ p in
  let d1 := Spec.d1 S K r sigma T in
  let d2 := Spec.d2 S K r sigma T in
  let discountFactor := exp (- (r * T)) in
  let n_prime :=
    1.0 / sqrt (2.0 * 3.14159265358979323846) * exp (-0.5 * d1 * d1) in
  calculateGreeks p md
  = Ret [("delta"%string,
          Fin (if isCall_ p then Spec.N d1 else Spec.N d1 - 1));
         ("gamma"%string, Fin (n_prime / (S * sigma * sqrt T)));
         ("rho"%string,
          Fin (if isCall_ p
               then K * T * discountFactor * Spec.N d2 * 0.01
               else - K * T * discountFactor * Spec.N (- d2) * 0.01));
         ("theta"%string,
          Fin (if isCall_ p
               then (- (S * sigma * n_prime) / (2 * sqrt T)
                     - r * K * discountFactor * Spec.N d2) / 365
               else (- (S * sigma * n_prime) / (2 * sqrt T)
                     + r * K * discountFactor * Spec.N (- d2)) / 365));
         ("vega"%string, Fin (S * sqrt T * n_prime * 0.01))].
Proof.
  intros HS HK HT Hr Hv Hsigma. cbv zeta. unfold calculateGreeks.
  rewrite Hr, Hv. cbn [bind]. cbv zeta.
  rewrite d1_Fin, d2_Fin by assumption.
  rewrite N_prime_Fin, !N_Fin.
  assert (Hsq : 0 < sqrt (maturity_ p)) by (apply sqrt_lt_R0; assumption).
  assert (Hden : spotPrice_ p * sigma * sqrt (maturity_ p) <> 0).
  { repeat apply Rmult_integral_contrapositive_currified; lra. }
  rewrite sqrt_Fin by lra.
  cbn [FP.mul FP.lift2 FP.opp FP.lift1 FP.exp FP.add FP.sub].
  rewrite !N_Fin.
  cbn [FP.mul FP.lift2 FP.opp FP.lift1 FP.exp FP.add FP.sub].
  rewrite (div_Fin _ (spotPrice_ p * sigma * sqrt (maturity_ p)))
    by assumption.
  rewrite !(div_Fin _ (2 * sqrt (maturity_ p))) by lra.
  cbn [FP.mul FP.lift2 FP.opp FP.lift1 FP.exp FP.add FP.sub].
  rewrite !(div_Fin _ 365) by lra.
  replace (- r * maturity_ p) with (- (r * maturity_ p)) by ring.
  destruct (isCall_ p); reflexivity.
Qed.

End GreeksTable.

(** X11.  For spot, strike and maturity above zero and a market snapshot
    that yields a rate [r] and a volatility [sigma > 0],
    [BlackScholesEngine::calculateGreeks] returns five finite numbers: with
    [n' = e^(-d1^2/2) / sqrt(2 * 3.14159265358979323846)] and
    [df = e^(-rT)], delta is [N(d1)] for a call and [N(d1) - 1] for a put,
    gamma is [n' / (S sigma sqrt T)], vega is [S sqrt(T) n' / 100], theta is
    [(-(S sigma n') / (2 sqrt T) - r K df N(d2)) / 365] for a call and
    [(-(S sigma n') / (2 sqrt T) + r K df N(-d2)) / 365] for a put, rho is
    [K T df N(d2) / 100] for a call and [-K T df N(-d2) / 100] for a put. *)
Theorem calculateGreeks_formulas (p : Parameters) (md : MarketData.t)
        (r sigma : R) :
  0 < spotPrice_ p -> 0 < strike_ p -> 0 < maturity_ p ->
  MarketData.getRiskFreeRate md (maturity_ p) = Ret (Fin r) ->
  MarketData.getVolatility md (strike_ p) (maturity_ p) = Ret (Fin sigma) ->
  0 < sigma ->
  let S := spotPrice_ p in
  let K := strike_ p in
  let T := maturity_ p in
  let d1 := Spec.d1 S K r sigma T in
  let d2 := Spec.d2 S K r sigma T in
  let df := exp (- (r * T)) in
  let n' := exp (- (d1 ^ 2 / 2)) / sqrt (2 * 3.14159265358979323846) in
  exists delta gamma vega theta rho : R,
    BlackScholesEngine.calculateGreeks p md
    = Ret [("delta"%string, Fin delta); ("gamma"%string, Fin gamma);
           ("rho"%string, Fin rho); ("theta"%string, Fin theta);
           ("vega"%string, Fin vega)] /\
    delta = (if isCall_ p then Spec.N d1 else Spec.N d1 - 1) /\
    gamma = n' / (S * sigma * sqrt T) /\
    vega = S * sqrt T * n' / 100 /\
    theta = (if isCall_ p
             then (- (S * sigma * n') / (2 * sqrt T)
                   - r * K * df * Spec.N d2) / 365
             else (- (S * sigma * n') / (2 * sqrt T)
                   + r * K * df * Spec.N (- d2)) / 365) /\
    rho = (if isCall_ p
           then K * T * df * Spec.N d2 / 100
           else - K * T * df * Spec.N (- d2) / 100).
Proof.
  intros HS HK HT Hr Hv Hsigma. cbv zeta.
  pose proof two_pi_pos as Hpos. pose proof (sqrt_lt_R0 _ Hpos) as Hsq.
  assert (Hsq' : sqrt (2 * 3.14159265358979323846) <> 0).
  { replace 2 with 2.0 by lra. lra. }
  assert (HsT : 0 < sqrt (maturity_ p)) by (apply sqrt_lt_R0; assumption).
  assert (Hden : spotPrice_ p * sigma * sqrt (maturity_ p) <> 0).
  { repeat apply Rmult_integral_contrapositive_currified; lra. }
  set (d1 := Spec.d1 _ _ _ _ _).
  assert (Hn : 1.0 / sqrt (2.0 * 3.14159265358979323846)
               * exp (-0.5 * d1 * d1)
               = exp (- (d1 ^ 2 / 2)) / sqrt (2 * 3.14159265358979323846)).
  { replace (-0.5 * d1 * d1) with (- (d1 ^ 2 / 2)) by (simpl; lra).
    replace 2.0 with 2 by lra. replace 1.0 with 1 by lra.
    field. assumption. }
  do 5 eexists. split.
  { apply calculateGreeks_value; eassumption. }
  cbv zeta. fold d1. rewrite Hn.
  repeat split; try reflexivity.
  - lra.
  - destruct (isCall_ p); lra.
Qed.

(** X11, on the pricing tests' market: the delta of the at-the-money call
    is [N(d1)] and the delta of the put is [N(d1) - 1]. *)
Lemma calculateGreeks_formulas_witness :
  (exists g,
     BlackScholesEngine.calculateGreeks Examples.call_option Examples.market
     = Ret g /\
     StdMap.find "delta"%string g
     = Some (Fin (Spec.N (Spec.d1 100 100 0.05 0.20 1)))) /\
  (exists g,
     BlackScholesEngine.calculateGreeks Examples.put_option Examples.market
     = Ret g /\
     StdMap.find "delta"%string g
     = Some (Fin (Spec.N (Spec.d1 100 100 0.05 0.20 1) - 1))).
Proof.
  split.
  - destruct (calculateGreeks_formulas Examples.call_option Examples.market
                0.05 0.20)
      as (delta & gamma & vega & theta & rho & Hg & -> & _);
      simpl; try lra; [apply market_rate | apply market_volatility |].
    eexists. split; [exact Hg | reflexivity].
  - destruct (calculateGreeks_formulas Examples.put_option Examples.market
                0.05 0.20)
      as (delta & gamma & vega & theta & rho & Hg & -> & _);
      simpl; try lra; [apply market_rate | apply market_volatility |].
    eexists. split; [exact Hg | reflexivity].
Defined.

(** X12.  A call and a put that differ in [isCall] only, priced on the same
    market snapshot with spot, strike, maturity and volatility above zero,
    have the same gamma and the same vega, both above zero; the put's delta
    is the call's minus one, its rho is the call's minus [K T e^(-rT) / 100]
    and its theta is the call's plus [r K e^(-rT) / 365]. *)
Theorem greeks_of_call_and_put (notional K T S : R) (md : MarketData.t)
        (r sigma : R) :
  0 < S -> 0 < K -> 0 < T ->
  MarketData.getRiskFreeRate md T = Ret (Fin r) ->
  MarketData.getVolatility md K T = Ret (Fin sigma) ->
  0 < sigma ->
  exists delta gamma vega theta rho : R,
    BlackScholesEngine.calculateGreeks (mkParameters notional K T S true) md
    = Ret [("delta"%string, Fin delta); ("gamma"%string, Fin gamma);
           ("rho"%string, Fin rho); ("theta"%string, Fin theta);
           ("vega"%string, Fin vega)] /\
    BlackScholesEngine.calculateGreeks (mkParameters notional K T S false) md
    = Ret [("delta"%string, Fin (delta - 1)); ("gamma"%string, Fin gamma);
           ("rho"%string, Fin (rho - K * T * exp (- (r * T)) / 100));
           ("theta"%string, Fin (theta + r * K * exp (- (r * T)) / 365));
           ("vega"%string, Fin vega)] /\
    0 < gamma /\ 0 < vega.
Proof.
  intros HS HK HT Hr Hv Hsigma.
  pose proof (calculateGreeks_value (mkParameters notional K T S true) md
                r sigma HS HK HT Hr Hv Hsigma) as Hc.
  pose proof (calculateGreeks_value (mkParameters notional K T S false) md
                r sigma HS HK HT Hr Hv Hsigma) as Hp.
  cbv zeta in Hc, Hp. cbn [spotPrice_ strike_ maturity_ isCall_] in Hc, Hp.
  pose proof (N_prime_pos (Spec.d1 S K r sigma T)) as Hn.
  assert (HsT : 0 < sqrt T) by (apply sqrt_lt_R0; assumption).
  do 5 eexists. split; [exact Hc|]. split; [|split].
  - rewrite Hp, N_opp.
    match goal with
    | |- Ret [_; _; (_, Fin ?rho); (_, Fin ?theta); _]
         = Ret [_; _; (_, Fin ?rho'); (_, Fin ?theta'); _] =>
        replace rho with rho' by lra; replace theta with theta' by lra
    end.
    reflexivity.
  - apply Rdiv_lt_0_compat; [assumption|].
    apply Rmult_lt_0_compat; [apply Rmult_lt_0_compat|]; assumption.
  - apply Rmult_lt_0_compat; [|lra].
    apply Rmult_lt_0_compat; [apply Rmult_lt_0_compat|]; assumption.
Qed.

(** X12, on the pricing tests' market and the at-the-money pair. *)
Lemma greeks_of_call_and_put_witness :
  exists delta gamma vega theta rho : R,
    BlackScholesEngine.calculateGreeks Examples.call_option Examples.market
    = Ret [("delta"%string, Fin delta); ("gamma"%string, Fin gamma);
           ("rho"%string, Fin rho); ("theta"%string, Fin theta);
           ("vega"%string, Fin vega)] /\
    BlackScholesEngine.calculateGreeks Examples.put_option Examples.market
    = Ret [("delta"%string, Fin (delta - 1)); ("gamma"%string, Fin gamma);
           ("rho"%string, Fin (rho - 100 * 1 * exp (- (0.05 * 1)) / 100));
           ("theta"%string,
            Fin (theta + 0.05 * 100 * exp (- (0.05 * 1)) / 365));
           ("vega"%string, Fin vega)] /\
    0 < gamma /\ 0 < vega.
Proof.
  apply (greeks_of_call_and_put 1 100 1 100 Examples.market 0.05 0.20);
    try lra.
  - apply market_rate.
  - apply market_volatility.
Defined.

(* ================================================================== *)
(** * [BlackScholesEngine]: what it throws *)

Section EngineErrors.
Import BlackScholesEngine.

(** The engine fails exactly as its two market queries do, the rate
    first. *)
Lemma calculatePrice_throws (p : Parameters) (md : MarketData.t) (e : error) :
  calculatePrice p md = Throw e <->
  MarketData.getRiskFreeRate md (maturity_ p) = Throw e \/
  (exists r, MarketData.getRiskFreeRate md (maturity_ p) = Ret r) /\
  MarketData.getVolatility md (strike_ p) (maturity_ p) = Throw e.
Proof.
  unfold calculatePrice.
  destruct (MarketData.getRiskFreeRate md (maturity_ p)) as [r|e1];
    cbn [bind].
  - destruct (MarketData.getVolatility md (strike_ p) (maturity_ p))
      as [sigma|e2]; cbn [bind]; cbv zeta.
    + destruct (isCall_ p); split;
        try discriminate; intros [H|[_ H]]; discriminate.
    + split.
      * intro H. right. split; [now exists r | exact H].
      * intros [H|[_ H]]; [discriminate | exact H].
  - split.
    + intro H. now left.
    + intros [H|[[r H] _]]; [exact H | discriminate].
Qed.

Lemma calculateGreeks_throws (p : Parameters) (md : MarketData.t)
      (e : error) :
  calculateGreeks p md = Throw e <->
  MarketData.getRiskFreeRate md (maturity_ p) = Throw e \/
  (exists r, MarketData.getRiskFreeRate md (maturity_ p) = Ret r) /\
  MarketData.getVolatility md (strike_ p) (maturity_ p) = Throw e.
Proof.
  unfold calculateGreeks. cbv zeta.
  destruct (MarketData.getRiskFreeRate md (maturity_ p)) as [r|e1];
    cbn [bind].
  - destruct (MarketData.getVolatility md (strike_ p) (maturity_ p))
      as [sigma|e2]; cbn [bind].
    + destruct (isCall_ p); split;
        try discriminate; intros [H|[_ H]]; discriminate.
    + split.
      * intro H. right. split; [now exists r | congruence].
      * intros [H|[_ H]]; [discriminate | congruence].
  - split.
    + intro H. left. congruence.
    + intros [H|[[r H] _]]; [congruence | discriminate].
Qed.

End EngineErrors.

(** X13.  [BlackScholesEngine] checks nothing itself: [calculatePrice]
    throws [e] exactly when [getRiskFreeRate] at the maturity throws [e], or
    it returns and [getVolatility] at (strike, maturity) throws [e];
    [calculateGreeks] throws exactly the same error on the same input, and
    an option with this engine has a price exactly when it has Greeks. *)
Theorem engine_fails_as_market_data (p : Parameters) (md : MarketData.t) :
  (forall e,
     BlackScholesEngine.calculatePrice p md = Throw e <->
     MarketData.getRiskFreeRate md (maturity_ p) = Throw e \/
     (exists r, MarketData.getRiskFreeRate md (maturity_ p) = Ret r) /\
     MarketData.getVolatility md (strike_ p) (maturity_ p) = Throw e) /\
  (forall e,
     BlackScholesEngine.calculateGreeks p md = Throw e <->
     BlackScholesEngine.calculatePrice p md = Throw e) /\
  (forall e,
     EuropeanStockOption.greeks
       (EuropeanStockOption.mk p (Some BlackScholesEngine.make) md)
     = Throw e <->
     EuropeanStockOption.price
       (EuropeanStockOption.mk p (Some BlackScholesEngine.make) md)
     = Throw e).
Proof.
  split; [|split]; intro e.
  - apply calculatePrice_throws.
  - rewrite calculateGreeks_throws, calculatePrice_throws. reflexivity.
  - unfold EuropeanStockOption.greeks, EuropeanStockOption.price.
    cbn [EuropeanStockOption.pricingEngine_ EuropeanStockOption.getParameters
         EuropeanStockOption.params_ EuropeanStockOption.marketData_
         BlackScholesEngine.make calculatePrice calculateGreeks].
    rewrite calculateGreeks_throws, <- calculatePrice_throws.
    destruct (BlackScholesEngine.calculatePrice p md) as [v|e'];
      cbn [bind]; split; congruence.
Qed.

(* ================================================================== *)
(** * [DataFetcher]: historical volatility *)

Section HistoricalVolatility.
Import DataFetcher.

Lemma logReturns_length (prices : list R) :
  length (logReturns prices) = pred (length prices).
Proof.
  induction prices as [|a [|b tl] IH]; try reflexivity.
  change (logReturns (a :: b :: tl))
    with (FP.log (Fin b / Fin a)%fv :: logReturns (b :: tl)).
  cbn [length] in *. now rewrite IH.
Qed.

(** On positive prices every logarithmic return is a finite number. *)
Lemma logReturns_Fin (prices : list R) :
  Forall (fun p => 0 < p) prices ->
  exists rs, logReturns prices = map Fin rs.
Proof.
  induction prices as [|a [|b tl] IH]; intro Hpos.
  - now exists [].
  - now exists [].
  - inversion Hpos as [|? ? Ha Htl]; subst.
    inversion Htl as [|? ? Hb _]; subst.
    destruct (IH Htl) as [rs Hrs].
    exists (ln (b / a) :: rs).
    change (logReturns (a :: b :: tl))
      with (FP.log (Fin b / Fin a)%fv :: logReturns (b :: tl)).
    rewrite Hrs, div_Fin by lra.
    rewrite log_Fin by (apply Rdiv_lt_0_compat; assumption).
    reflexivity.
Qed.

Lemma fold_sum_Fin (rs : list R) (acc : R) :
  fold_left (fun sum ret => (sum + ret)%fv) (map Fin rs) (Fin acc)
  = Fin (fold_left Rplus rs acc).
Proof.
  revert acc. induction rs as [|r tl IH]; intro acc; [reflexivity|].
  cbn [map fold_left FP.add FP.lift2]. apply IH.
Qed.

Lemma fold_variance_Fin (rs : list R) (mean acc : R) :
  fold_left (fun variance ret => (variance + pow2 (ret - Fin mean))%fv)
            (map Fin rs) (Fin acc)
  = Fin (fold_left (fun variance ret => variance + (ret - mean) ^ 2) rs acc).
Proof.
  revert acc. induction rs as [|r tl IH]; intro acc; [reflexivity|].
  cbn [map fold_left FP.add FP.sub FP.lift2 pow2 FP.lift1]. apply IH.
Qed.

Lemma fold_variance_ge (rs : list R) (mean acc : R) :
  acc <= fold_left (fun variance ret => variance + (ret - mean) ^ 2) rs acc.
Proof.
  revert acc. induction rs as [|r tl IH]; intro acc; cbn [fold_left];
    [lra|].
  eapply Rle_trans; [|apply IH]. pose proof (pow2_ge_0 (r - mean)). lra.
Qed.

Lemma fold_sum_repeat (x : R) (n : nat) (acc : R) :
  fold_left Rplus (repeat x n) acc = acc + INR n * x.
Proof.
  revert acc. induction n as [|n IH]; intro acc.
  - simpl. lra.
  - cbn [repeat fold_left]. rewrite IH, S_INR. lra.
Qed.

Lemma fold_variance_repeat (x : R) (n : nat) (acc : R) :
  fold_left (fun variance ret => variance + (ret - x) ^ 2) (repeat x n) acc
  = acc.
Proof.
  revert acc. induction n as [|n IH]; intro acc; [reflexivity|].
  cbn [repeat fold_left]. rewrite IH. simpl. lra.
Qed.

(** The value on positive prices, three or more. *)
Lemma calculateHistoricalVolatility_Fin (prices : list R) (days : Z) :
  Forall (fun p => 0 < p) prices -> (3 <= length prices)%nat ->
  exists rs : list R,
    logReturns prices = map Fin rs /\
    let mean := fold_left Rplus rs 0 / INR (length rs) in
    let variance :=
      fold_left (fun variance ret => variance + (ret - mean) ^ 2) rs 0
      / INR (length rs - 1) in
    0 <= variance /\
    calculateHistoricalVolatility prices days
    = Returns (Fin (sqrt (variance * 252))).
Proof.
  intros Hpos Hlen. destruct (logReturns_Fin prices Hpos) as [rs Hrs].
  exists rs. split; [exact Hrs|]. cbv zeta.
  assert (Hn : length rs = pred (length prices)).
  { rewrite <- (logReturns_length prices), Hrs. now rewrite length_map. }
  assert (Hn0 : INR (length rs) <> 0) by (apply not_0_INR; lia).
  assert (Hn1 : 0 < INR (length rs - 1)) by (apply lt_0_INR; lia).
  set (mean := fold_left Rplus rs 0 / INR (length rs)).
  pose proof (fold_variance_ge rs mean 0) as Hge.
  set (V := fold_left (fun variance ret => variance + (ret - mean) ^ 2)
                      rs 0) in *.
  assert (Hv : 0 <= V / INR (length rs - 1)).
  { apply Rmult_le_pos; [assumption|]. left. now apply Rinv_0_lt_compat. }
  split; [assumption|].
  unfold calculateHistoricalVolatility.
  destruct (Nat.ltb_spec (length prices) 2) as [Hlt|_]; [lia|].
  cbv zeta. rewrite Hrs, length_map, fold_sum_Fin.
  rewrite div_Fin by assumption. fold mean.
  rewrite fold_variance_Fin. fold V.
  rewrite div_Fin by lra. cbn [FP.mul FP.lift2].
  rewrite sqrt_Fin by lra. reflexivity.
Qed.

Lemma logReturns_geometric (a q : R) (n : nat) :
  0 < a -> 0 < q ->
  logReturns (map (fun i => a * q ^ i) (seq 0 (S n)))
  = map Fin (repeat (ln q) n).
Proof.
  intros Ha Hq. generalize 0%nat as k.
  induction n as [|n IH]; intro k; [reflexivity|].
  change (seq k (S (S n))) with (k :: S k :: seq (S (S k)) n).
  cbn [map]. 
  change (logReturns (a * q ^ k :: a * q ^ S k
                      :: map (fun i => a * q ^ i) (seq (S (S k)) n)))
    with (FP.log (Fin (a * q ^ S k) / Fin (a * q ^ k))%fv
          :: logReturns (map (fun i => a * q ^ i) (seq (S k) (S n)))).
  rewrite IH. cbn [repeat map]. f_equal.
  assert (Hk : 0 < q ^ k) by (apply pow_lt; assumption).
  assert (Hak : a * q ^ k <> 0).
  { apply Rmult_integral_contrapositive_currified; lra. }
  rewrite div_Fin by assumption.
  replace (a * q ^ S k / (a * q ^ k)) with q by (simpl; field; lra).
  now rewrite log_Fin.
Qed.

End HistoricalVolatility.

(** X14.  [calculateHistoricalVolatility] throws "Not enough price data"
    exactly when it is given fewer than two prices.  Two prices pass that
    guard and give one return, whose sample variance divides zero by
    [size - 1 = 0]: for any two positive prices the result is not a
    number. *)
Theorem historical_volatility_of_two_prices :
  (forall prices days,
     DataFetcher.calculateHistoricalVolatility prices days
     = Throws DataFetcher.NotEnoughPriceData <->
     (length prices < 2)%nat) /\
  (forall a b days,
     0 < a -> 0 < b ->
     DataFetcher.calculateHistoricalVolatility [a; b] days = Returns NaN).
Proof.
  split.
  - intros prices days. unfold DataFetcher.calculateHistoricalVolatility.
    destruct (Nat.ltb_spec (length prices) 2) as [Hlt|Hge].
    + tauto.
    + cbv zeta. split; [discriminate | lia].
  - intros a b days Ha Hb.
    unfold DataFetcher.calculateHistoricalVolatility.
    cbn [length Nat.ltb Nat.leb DataFetcher.logReturns fold_left]. cbv zeta.
    rewrite div_Fin by lra.
    rewrite log_Fin by (apply Rdiv_lt_0_compat; assumption).
    cbn [FP.add FP.lift2 length INR Nat.sub].
    rewrite div_Fin by lra.
    cbn [FP.sub FP.add FP.lift2 DataFetcher.pow2 FP.lift1].
    replace (0 + (ln (b / a) - (0 + ln (b / a)) / 1) ^ 2) with 0
      by (simpl; field).
    unfold FP.div. destruct (Req_dec_T 0 0) as [_|Hne]; [|lra].
    reflexivity.
Qed.

(** X14, on two closing prices. *)
Lemma historical_volatility_of_two_prices_witness :
  DataFetcher.calculateHistoricalVolatility [100; 110] 30 = Returns NaN.
Proof.
  destruct historical_volatility_of_two_prices as [_ Htwo].
  apply Htwo; lra.
Defined.

(** X15.  For three or more prices, all above zero,
    [calculateHistoricalVolatility] returns a finite number that is not
    negative. *)
Theorem historical_volatility_is_finite (prices : list R) (days : Z) :
  Forall (fun p => 0 < p) prices -> (3 <= length prices)%nat ->
  exists v : R,
    DataFetcher.calculateHistoricalVolatility prices days = Returns (Fin v) /\
    0 <= v.
Proof.
  intros Hpos Hlen.
  destruct (calculateHistoricalVolatility_Fin prices days Hpos Hlen)
    as (rs & _ & _ & Hv).
  eexists. split; [exact Hv|]. apply sqrt_pos.
Qed.

(** X15, on three closing prices. *)
Lemma historical_volatility_is_finite_witness :
  exists v : R,
    DataFetcher.calculateHistoricalVolatility [100; 110; 99] 30
    = Returns (Fin v) /\
    0 <= v.
Proof.
  apply (historical_volatility_is_finite [100; 110; 99] 30).
  - repeat constructor; lra.
  - simpl. lia.
Defined.

(** X16.  Prices that grow by the same factor [q > 0] from each day to the
    next, three or more of them, have historical volatility zero. *)
Theorem historical_volatility_of_constant_growth
        (a q : R) (n : nat) (days : Z) :
  0 < a -> 0 < q -> (2 <= n)%nat ->
  DataFetcher.calculateHistoricalVolatility
    (map (fun i => a * q ^ i) (seq 0 (S n))) days
  = Returns (Fin 0).
Proof.
  intros Ha Hq Hn. unfold DataFetcher.calculateHistoricalVolatility.
  rewrite length_map, length_seq.
  destruct (Nat.ltb_spec (S n) 2) as [Hlt|_]; [lia|]. cbv zeta.
  rewrite logReturns_geometric by assumption.
  rewrite length_map, repeat_length, fold_sum_Fin, fold_sum_repeat.
  assert (Hn0 : INR n <> 0) by (apply not_0_INR; lia).
  assert (Hn1 : INR (n - 1) <> 0) by (apply not_0_INR; lia).
  rewrite div_Fin by assumption.
  replace ((0 + INR n * ln q) / INR n) with (ln q) by (field; assumption).
  rewrite fold_variance_Fin, fold_variance_repeat.
  rewrite div_Fin by assumption. cbn [FP.mul FP.lift2].
  replace (0 / INR (n - 1) * 252) with 0 by (field; assumption).
  rewrite sqrt_Fin by lra. now rewrite sqrt_0.
Qed.

(** X16, on prices that grow by ten percent a day. *)
Lemma historical_volatility_of_constant_growth_witness :
  DataFetcher.calculateHistoricalVolatility
    (map (fun i => 100 * 1.1 ^ i) (seq 0 3)) 30
  = Returns (Fin 0).
Proof.
  apply (historical_volatility_of_constant_growth 100 1.1 2 30); try lra.
  lia.
Defined.

(* ================================================================== *)
(** * [ConfigManager]: loading and looking up keys *)

Section ConfigFacts.
Import ConfigManager.

(** A file whose values are all strings: its items. *)
Local Abbreviation strings kvs :=
  (map (fun kv : string * string => (fst kv, JString (snd kv))) kvs).

Lemma loadConfig_app_strings (kvs : list (string * string))
      (rest : list (string * json)) (apiKeys : t) :
  loadConfig (strings kvs ++ rest) apiKeys
  = loadConfig rest (snd (loadConfig (strings kvs) apiKeys)).
Proof.
  revert apiKeys. induction kvs as [|[k v] tl IH]; intro apiKeys;
    [reflexivity|].
  cbn [map app fst snd loadConfig]. apply IH.
Qed.

Lemma loadConfig_strings_returns (kvs : list (string * string))
      (apiKeys : t) :
  fst (loadConfig (strings kvs) apiKeys) = Returns tt.
Proof.
  revert apiKeys. induction kvs as [|[k v] tl IH]; intro apiKeys;
    [reflexivity|].
  cbn [map fst snd loadConfig]. apply IH.
Qed.

Lemma find_loadConfig_other (kvs : list (string * string)) (apiKeys : t)
      (service : string) :
  ~ In service (map fst kvs) ->
  StdMap.find service (snd (loadConfig (strings kvs) apiKeys))
  = StdMap.find service apiKeys.
Proof.
  revert apiKeys. induction kvs as [|[k v] tl IH]; intros apiKeys Hin;
    [reflexivity|].
  cbn [map fst snd loadConfig] in *.
  rewrite (IH (StdMap.insert k v apiKeys))
    by (intro Htl; apply Hin; now right).
  apply StdMapFacts.find_insert_neq. intro He. apply Hin. now left.
Qed.

Lemma find_loadConfig_last (pre post : list (string * string))
      (service key : string) (apiKeys : t) :
  ~ In service (map fst post) ->
  StdMap.find service
    (snd (loadConfig (strings (pre ++ (service, key) :: post)) apiKeys))
  = Some key.
Proof.
  intro Hin. rewrite map_app, loadConfig_app_strings.
  cbn [map fst snd loadConfig].
  rewrite find_loadConfig_other by assumption.
  apply StdMapFacts.find_insert_eq.
Qed.


End ConfigFacts.

(** X17.  [loadConfig] on a file whose values are all strings returns and
    merges the file into the keys the manager holds: a service of the file
    then has the value of its last item, whatever the manager held for it,
    and a service that is not in the file is answered as before the load,
    so a service that was never loaded still throws "API key not found for
    service: <service>". *)
Theorem loadConfig_merges
        (pre post : list (string * string)) (service key : string)
        (apiKeys : ConfigManager.t) :
  ~ In service (map fst post) ->
  let file :=
    map (fun kv => (fst kv, ConfigManager.JString (snd kv)))
        (pre ++ (service, key) :: post) in
  let loaded := ConfigManager.loadConfig file apiKeys in
  fst loaded = Returns tt /\
  ConfigManager.getApiKey service (snd loaded) = Returns key /\
  (forall other,
     ~ In other (map fst (pre ++ (service, key) :: post)) ->
     ConfigManager.getApiKey other (snd loaded)
     = ConfigManager.getApiKey other apiKeys) /\
  (forall other,
     ~ In other (map fst (pre ++ (service, key) :: post)) ->
     ConfigManager.getApiKey other
       (snd (ConfigManager.loadConfig file ConfigManager.empty))
     = Throws (ConfigManager.KeyNotFound
                 ("API key not found for service: " ++ other))).
Proof.
  intro Hin. cbv zeta. split; [|split; [|split]].
  - apply loadConfig_strings_returns.
  - unfold ConfigManager.getApiKey.
    now rewrite find_loadConfig_last.
  - intros other Hother. unfold ConfigManager.getApiKey.
    now rewrite find_loadConfig_other.
  - intros other Hother. unfold ConfigManager.getApiKey.
    now rewrite find_loadConfig_other.
Qed.

(** X17, on a file that holds the Alpha Vantage key twice and no FRED key:
    the fetcher's [getApiKey] returns the later value and [getFredApiKey]
    throws. *)
Lemma loadConfig_merges_witness :
  let loaded :=
    ConfigManager.loadConfig
      [("alpha_vantage", ConfigManager.JString "old");
       ("alpha_vantage", ConfigManager.JString "demo")]%string
      ConfigManager.empty in
  fst loaded = Returns tt /\
  DataFetcher.getApiKey (snd loaded) = Returns "demo"%string /\
  DataFetcher.getFredApiKey (snd loaded)
  = Throws (ConfigManager.KeyNotFound
              "API key not found for service: fred"%string).
Proof.
  assert (Hpost : ~ In "alpha_vantage"%string
                      (map fst (@nil (string * string)))) by (intros []).
  destruct (loadConfig_merges [("alpha_vantage", "old")]%string []
              "alpha_vantage"%string "demo"%string ConfigManager.empty Hpost)
    as (Hret & Hkey & _ & Hother).
  split; [exact Hret|]. split; [exact Hkey|].
  apply (Hother "fred"%string). simpl.
  intros [He|[He|[]]]; discriminate.
Defined.


(* ================================================================== *)
(** * [main]: the pricing run *)

Section MainFacts.
Import DataFetcher.

(** The market that [main] builds: one rate and one volatility. *)
Lemma main_market (strike maturity rate volatility : R) :
  ~ (maturity < 0 \/ rate < 0) ->
  ~ (strike <= 0 \/ maturity < 0 \/ volatility < 0) ->
  let market1 :=
    snd (MarketData.addRiskFreeRate maturity rate MarketData.empty) in
  fst (MarketData.addRiskFreeRate maturity rate MarketData.empty) = Ret tt /\
  fst (MarketData.addVolatility strike maturity volatility market1)
  = Ret tt /\
  snd (MarketData.addVolatility strike maturity volatility market1)
  = MarketData.mk [(maturity, rate)] [((strike, maturity), volatility)]
                  [strike] [maturity].
Proof.
  intros Hrate Hvol. cbv zeta.
  rewrite (addRiskFreeRate_valid maturity rate) by assumption.
  cbn [fst snd].
  rewrite (addVolatility_valid strike maturity volatility)
    by assumption.
  cbn [fst snd]. repeat split.
Qed.

Lemma main_market_rate (strike maturity rate volatility time : R) :
  MarketData.getRiskFreeRate
    (MarketData.mk [(maturity, rate)] [((strike, maturity), volatility)]
                   [strike] [maturity]) time
  = Ret (Fin rate).
Proof. now apply getRiskFreeRate_single with (t0 := maturity). Qed.

Lemma main_market_volatility (strike maturity rate volatility : R) :
  MarketData.getVolatility
    (MarketData.mk [(maturity, rate)] [((strike, maturity), volatility)]
                   [strike] [maturity]) strike maturity
  = Ret (Fin volatility).
Proof.
  apply getVolatility_exact. cbn [MarketData.vol_surface_]. apply find_here.
Qed.

End MainFacts.

Section MainRun.
Import DataFetcher.

(** [main] once its two adds have returned: the constructor's validation,
    then the engine on the one-point market. *)
Lemma price_option_added (stockData : StockData)
      (strike maturity notional : R) (isCall : bool) :
  ~ (maturity < 0 \/ riskFreeRate stockData < 0) ->
  ~ (strike <= 0 \/ maturity < 0 \/ volatility stockData < 0) ->
  let params :=
    mkParameters notional strike maturity (spotPrice stockData) isCall in
  let market :=
    MarketData.mk [(maturity, riskFreeRate stockData)]
                  [((strike, maturity), volatility stockData)]
                  [strike] [maturity] in
  Main.price_option stockData strike maturity notional isCall
  = (_ <- EuropeanStockOption.validate
            (EuropeanStockOption.mk params None MarketData.empty) ;;
     price <- BlackScholesEngine.calculatePrice params market ;;
     greeks <- BlackScholesEngine.calculateGreeks params market ;;
     Ret ((price * notional)%fv, greeks)).
Proof.
  intros Hrate Hvol. cbv zeta. unfold Main.price_option. cbv zeta.
  destruct (main_market strike maturity (riskFreeRate stockData)
              (volatility stockData) Hrate Hvol) as (H1 & H2 & H3).
  cbv zeta in H2, H3. rewrite H1. cbn [bind]. rewrite H2. cbn [bind].
  rewrite H3.
  unfold EuropeanStockOption.new, EuropeanStockOption.validate.
  cbn [EuropeanStockOption.params_ strike_ maturity_ spotPrice_ notional_].
  destruct (strike <=? 0) eqn:Hk; [reflexivity|].
  destruct (maturity <=? 0) eqn:Hm; [reflexivity|].
  destruct (spotPrice stockData <=? 0) eqn:Hs; [reflexivity|].
  destruct (notional <=? 0) eqn:Hn; [reflexivity|].
  cbn [bind EuropeanStockOption.params_ EuropeanStockOption.setPricingEngine
       EuropeanStockOption.updateMarketData
       strike_ maturity_ spotPrice_ notional_].
  rewrite Hk, Hm, Hs, Hn. cbn [bind].
  unfold EuropeanStockOption.price, EuropeanStockOption.greeks,
    EuropeanStockOption.updateMarketData,
    EuropeanStockOption.setPricingEngine,
    EuropeanStockOption.getParameters, BlackScholesEngine.make.
  cbn [EuropeanStockOption.pricingEngine_ EuropeanStockOption.params_
       EuropeanStockOption.marketData_ calculatePrice calculateGreeks
       notional_].
  destruct (BlackScholesEngine.calculatePrice _ _) as [price|e];
    cbn [bind]; reflexivity.
Qed.

End MainRun.

(** X19.  The pricing run of [main] (lines 66 to 91), for a spot, strike,
    maturity, notional and volatility above zero and a rate that is not
    negative: the one-point market answers both queries with the values
    that were put in, and the run ends with the Black-Scholes price of the
    call or the put times the notional, and with the five Greeks; [main]
    returns 0. *)
Theorem price_option_priced
        (stockData : DataFetcher.StockData) (strike maturity notional : R)
        (isCall : bool) :
  let S := DataFetcher.spotPrice stockData in
  let sigma := DataFetcher.volatility stockData in
  let r := DataFetcher.riskFreeRate stockData in
  0 < S -> 0 < strike -> 0 < maturity -> 0 < notional ->
  0 <= r -> 0 < sigma ->
  exists greeks,
    Main.price_option stockData strike maturity notional isCall
    = Ret (Fin ((if isCall
                 then Spec.call S strike r sigma maturity
                 else Spec.put S strike r sigma maturity) * notional),
           greeks) /\
    StdMap.keys greeks = ["delta"; "gamma"; "rho"; "theta"; "vega"]%string /\
    Main.exit_code
      (Main.price_option stockData strike maturity notional isCall) = 0%Z.
Proof.
  intros S sigma r HS HK HT Hn Hr Hsigma. subst S sigma r.
  set (params := mkParameters notional strike maturity
                              (DataFetcher.spotPrice stockData) isCall).
  set (market :=
         MarketData.mk [(maturity, DataFetcher.riskFreeRate stockData)]
                       [((strike, maturity), DataFetcher.volatility stockData)]
                       [strike] [maturity]).
  assert (Hrate : MarketData.getRiskFreeRate market (maturity_ params)
                  = Ret (Fin (DataFetcher.riskFreeRate stockData)))
    by apply main_market_rate.
  assert (Hvol : MarketData.getVolatility market (strike_ params)
                                          (maturity_ params)
                 = Ret (Fin (DataFetcher.volatility stockData)))
    by apply main_market_volatility.
  pose proof (calculatePrice_value params market _ _ HS HK HT Hrate Hvol
                Hsigma) as Hprice.
  pose proof (calculateGreeks_value params market _ _ HS HK HT Hrate Hvol
                Hsigma) as Hgreeks.
  cbv zeta in Hgreeks.
  rewrite price_option_added by lra. cbv zeta. fold params market.
  rewrite validate_valid by (repeat split; assumption). cbn [bind].
  rewrite Hprice, Hgreeks. cbn [bind FP.mul FP.lift2].
  eexists. split; [|split]; reflexivity.
Qed.

(** X19, on the pricing tests' numbers: spot 100, volatility 20%, rate 5%,
    strike 100, one year, notional 1, a call. *)
Lemma price_option_priced_witness :
  exists greeks,
    Main.price_option (DataFetcher.mkStockData 100 0.20 0.05) 100 1 1 true
    = Ret (Fin (Spec.call 100 100 0.05 0.20 1 * 1), greeks) /\
    StdMap.keys greeks = ["delta"; "gamma"; "rho"; "theta"; "vega"]%string /\
    Main.exit_code
      (Main.price_option (DataFetcher.mkStockData 100 0.20 0.05) 100 1 1
                         true) = 0%Z.
Proof.
  apply (price_option_priced (DataFetcher.mkStockData 100 0.20 0.05)
           100 1 1 true); simpl; lra.
Defined.



(** ** Volatility zero *)

Lemma div_zero_zero (x y : R) : x = 0 -> y = 0 -> (Fin x / Fin y)%fv = NaN.
Proof.
  intros -> ->. unfold FP.div.
  destruct (Req_dec_T 0 0) as [_|Hn]; [reflexivity | now elim Hn].
Qed.

Section ZeroVolatility.
Import BlackScholesEngine.

(** At volatility zero and rate zero, with the spot at the strike, [d1] is
    zero divided by zero. *)
Lemma d1_zero_volatility (S T : R) :
  0 < S -> 0 <= T ->
  d1 (Fin S) (Fin S) (Fin 0) (Fin 0) (Fin T) = NaN.
Proof.
  intros HS HT. unfold d1. rewrite div_Fin by lra.
  replace (S / S) with 1 by (field; lra).
  rewrite log_Fin, ln_1 by lra. rewrite sqrt_Fin by assumption.
  cbn [FP.add FP.mul FP.lift2].
  apply div_zero_zero; [|ring].
  replace 0.5 with (/ 2) by lra. ring.
Qed.

Lemma N_prime_NaN : N_prime NaN = NaN.
Proof.
  pose proof two_pi_pos as Hpos. pose proof (sqrt_lt_R0 _ Hpos) as Hsq.
  unfold N_prime. cbn [FP.mul FP.lift2].
  rewrite sqrt_Fin by lra. rewrite div_Fin by lra. reflexivity.
Qed.

Lemma calculatePrice_zero_volatility (p : Parameters) (md : MarketData.t) :
  0 < spotPrice_ p -> strike_ p = spotPrice_ p -> 0 <= maturity_ p ->
  MarketData.getRiskFreeRate md (maturity_ p) = Ret (Fin 0) ->
  MarketData.getVolatility md (strike_ p) (maturity_ p) = Ret (Fin 0) ->
  calculatePrice p md = Ret NaN.
Proof.
  intros HS HK HT Hr Hv. unfold calculatePrice. rewrite Hr, Hv.
  cbn [bind]. cbv zeta. unfold d2. rewrite HK.
  rewrite d1_zero_volatility by assumption.
  destruct (isCall_ p); reflexivity.
Qed.

Lemma calculateGreeks_zero_volatility (p : Parameters) (md : MarketData.t) :
  0 < spotPrice_ p -> strike_ p = spotPrice_ p -> 0 <= maturity_ p ->
  MarketData.getRiskFreeRate md (maturity_ p) = Ret (Fin 0) ->
  MarketData.getVolatility md (strike_ p) (maturity_ p) = Ret (Fin 0) ->
  calculateGreeks p md
  = Ret [("delta"%string, NaN); ("gamma"%string, NaN); ("rho"%string, NaN);
         ("theta"%string, NaN); ("vega"%string, NaN)].
Proof.
  intros HS HK HT Hr Hv. unfold calculateGreeks. rewrite Hr, Hv.
  cbn [bind]. cbv zeta. unfold d2. rewrite HK.
  rewrite d1_zero_volatility by assumption.
  rewrite N_prime_NaN, sqrt_Fin by assumption.
  destruct (isCall_ p); reflexivity.
Qed.

End ZeroVolatility.

(** X21.  No check rejects a volatility of zero.  With volatility zero,
    rate zero and the strike at the spot, [d1] is zero divided by zero:
    the engine returns not-a-number for the price and for each of the five
    Greeks, and the pricing run of [main] on such input returns them and
    ends with 0. *)
Theorem zero_volatility_is_not_a_number
        (spot maturity notional : R) (isCall : bool) (md : MarketData.t) :
  0 < spot -> 0 < maturity -> 0 < notional ->
  let nans : @StdMap.t string fval :=
    [("delta"%string, NaN); ("gamma"%string, NaN); ("rho"%string, NaN);
     ("theta"%string, NaN); ("vega"%string, NaN)] in
  let params := mkParameters notional spot maturity spot isCall in
  (MarketData.getRiskFreeRate md maturity = Ret (Fin 0) ->
   MarketData.getVolatility md spot maturity = Ret (Fin 0) ->
   BlackScholesEngine.calculatePrice params md = Ret NaN /\
   BlackScholesEngine.calculateGreeks params md = Ret nans) /\
  Main.price_option (DataFetcher.mkStockData spot 0 0) spot maturity notional
                    isCall
  = Ret (NaN, nans) /\
  Main.exit_code
    (Main.price_option (DataFetcher.mkStockData spot 0 0) spot maturity
                       notional isCall) = 0%Z.
Proof.
  intros HS HT Hn. cbv zeta.
  assert (Hrun : Main.price_option (DataFetcher.mkStockData spot 0 0) spot
                                   maturity notional isCall
                 = Ret (NaN,
                        [("delta"%string, NaN); ("gamma"%string, NaN);
                         ("rho"%string, NaN); ("theta"%string, NaN);
                         ("vega"%string, NaN)])).
  { rewrite price_option_added by (cbn [DataFetcher.riskFreeRate
                                         DataFetcher.volatility]; lra).
    cbv zeta.
    cbn [DataFetcher.riskFreeRate DataFetcher.volatility
         DataFetcher.spotPrice].
    rewrite validate_valid by (repeat split; assumption). cbn [bind].
    rewrite calculatePrice_zero_volatility, calculateGreeks_zero_volatility;
      cbn [spotPrice_ strike_ maturity_];
      try lra; try reflexivity;
      try apply main_market_rate; try apply main_market_volatility. }
  split; [|split].
  - intros Hr Hv. split.
    + now apply calculatePrice_zero_volatility; cbn; try lra.
    + now apply calculateGreeks_zero_volatility; cbn; try lra.
  - exact Hrun.
  - now rewrite Hrun.
Qed.

(** X21, at spot and strike 100 and one year. *)
Lemma zero_volatility_is_not_a_number_witness :
  Main.price_option (DataFetcher.mkStockData 100 0 0) 100 1 1 false
  = Ret (NaN,
         [("delta"%string, NaN); ("gamma"%string, NaN); ("rho"%string, NaN);
          ("theta"%string, NaN); ("vega"%string, NaN)]).
Proof.
  destruct (zero_volatility_is_not_a_number 100 1 1 false MarketData.empty)
    as (_ & Hrun & _); try lra.
  exact Hrun.
Defined.
